(** * Startup orchestration and global error capture of [App.js]

    A shallow embedding of the root component of the classroom client
    ([App.js]): the global error handlers and the bounded error log they
    write, the asynchronous startup sequence [initializeApp], the
    auth-state listener, and the part of the React runtime that decides
    when the effects owning them are run again.

    Conventions.
    - JavaScript values that reach the handlers are [jsval]; reading a
      property of [undefined] or [null] throws, and so does [String]
      of an object that cannot be converted, as in the language.
    - Awaited collaborator calls (update service, connectivity probe,
      storage, notification registrar, error reporter) are not part of
      the component: their outcomes are inputs of the model.
    - [console.*], [Alert.alert] and the React state setters do not
      throw.  Console texts are kept without their emoji, and without
      the values printed after them. *)

From Stdlib Require Import ZArith List Lia Bool String DecimalString.
From Equations Require Import Equations.
Import ListNotations.

Set Implicit Arguments.
Open Scope string_scope.
Open Scope list_scope.
Open Scope Z_scope.

(* ================================================================= *)
(** ** JavaScript values and completions *)

Module JS.

(** The values an error, a rejection reason or an event can be, kept
    as what the component can observe of them.  Of a number: whether
    it is falsy ([0], [-0], [NaN]) and the text [String] gives for it.
    Of an object: the three properties the component reads ([reason],
    which is [JUndefined] when absent, and [message] and [stack],
    strings when present) and the text [String(obj)] produces, which is
    [None] when that conversion throws (an object with neither
    [toString] nor [valueOf], such as [Object.create(null)], or one
    whose [toString] throws). *)
Inductive jsval : Type :=
| JUndefined
| JNull
| JBool (b : bool)
| JNum (falsy : bool) (text : string)
| JStr (s : string)
| JObj (reason : jsval) (message stack : option string) (repr : option string).

(** Outcome of evaluating a statement or awaiting a promise. *)
Inductive completion (A : Type) : Type :=
| Normal (a : A)
| Throw (e : jsval).
Arguments Normal {A} a.
Arguments Throw {A} e.

Definition nullish (v : jsval) : bool :=
  match v with
  | JUndefined | JNull => true
  | _ => false
  end.

Definition nonempty (s : string) : bool :=
  match s with
  | EmptyString => false
  | String _ _ => true
  end.

(** [ToBoolean]. *)
Definition truthy (v : jsval) : bool :=
  match v with
  | JUndefined | JNull => false
  | JBool b => b
  | JNum falsy _ => negb falsy
  | JStr s => nonempty s
  | JObj _ _ _ _ => true
  end.

Definition typeError (what : string) : jsval :=
  JObj JUndefined (Some what) None (Some ("TypeError: " ++ what)%string).

(** [String(v)]: a [TypeError] on an object that cannot be converted. *)
Definition toStr (v : jsval) : completion string :=
  match v with
  | JUndefined => Normal "undefined"
  | JNull => Normal "null"
  | JBool true => Normal "true"
  | JBool false => Normal "false"
  | JNum _ text => Normal text
  | JStr s => Normal s
  | JObj _ _ _ (Some repr) => Normal repr
  | JObj _ _ _ None => Throw (typeError "Cannot convert object to primitive value")
  end.

(** [v.reason], [v.message], [v.stack]: a [TypeError] on [undefined]
    and [null], [undefined] on the other primitives. *)
Definition getReason (v : jsval) : completion jsval :=
  match v with
  | JUndefined | JNull => Throw (typeError "Cannot read property 'reason'")
  | JObj r _ _ _ => Normal r
  | _ => Normal JUndefined
  end.

Definition getMessage (v : jsval) : completion (option string) :=
  match v with
  | JUndefined | JNull => Throw (typeError "Cannot read property 'message'")
  | JObj _ m _ _ => Normal m
  | _ => Normal None
  end.

Definition getStack (v : jsval) : completion (option string) :=
  match v with
  | JUndefined | JNull => Throw (typeError "Cannot read property 'stack'")
  | JObj _ _ s _ => Normal s
  | _ => Normal None
  end.

(** [p || fallback] for an optional string property and a constant. *)
Definition orElse (p : option string) (fallback : string) : string :=
  match p with
  | Some s => if nonempty s then s else fallback
  | None => fallback
  end.

(** [v.message || String(v)]: the conversion is evaluated only when
    the property is absent or empty. *)
Definition messageOrString (v : jsval) : completion string :=
  match getMessage v with
  | Throw e => Throw e
  | Normal (Some m) => if nonempty m then Normal m else toStr v
  | Normal None => toStr v
  end.

(** An [Error] object as [new Error(msg)] builds it. *)
Definition mkError (msg trace : string) : jsval :=
  JObj JUndefined (Some msg) (Some trace) (Some ("Error: " ++ msg)%string).

End JS.
Import JS.

(* ================================================================= *)
(** ** The global error capture (second effect of [App]) *)

Module ErrorCapture.

Record LogEntry : Type := mkEntry {
  timestamp : string;
  context : string;
  message : string;
  stack : string;
}.

(** What the key ['error_logs'] holds.  The component stores
    [JSON.stringify] of an array of entries and reads it back with
    [JSON.parse]; the round trip is the identity on such arrays, so
    the stored text is kept as the array it denotes (the component
    never looks inside the entries it reads back).  [Absent] is the
    [null] of a missing key; [EmptyText] is the empty string, which
    line 124 ([logs ? ... : []]) treats like a missing key; [Garbage]
    is any other text: [JSON.parse] throws on it, or yields a value
    that is not an array, on which [push] throws. *)
Inductive Stored : Type :=
| Absent
| EmptyText
| Logs (entries : list LogEntry)
| Garbage.

Definition entriesOf (s : Stored) : list LogEntry :=
  match s with
  | Logs l => l
  | _ => []
  end.

(** How the collaborators behave during one call of a handler. *)
Record Env : Type := mkEnv {
  DEV : bool;               (* __DEV__ *)
  SENTRY_DSN : bool;        (* process.env.EXPO_PUBLIC_SENTRY_DSN is set *)
  now : string;             (* new Date().toISOString() *)
  getItemRejects : bool;    (* AsyncStorage.getItem rejects *)
  setItemRejects : bool;    (* AsyncStorage.setItem rejects *)
  captureThrows : bool;     (* Sentry.captureException throws *)
}.

Inductive Effect : Type :=
| ConsoleError (what : string)
| SentryCapture (error : jsval)
| AlertAlert (title text : string).

(** *** Statements that print and may throw

    The body of a handler yields what it printed, sent and showed, in
    order, and how it ended. *)
Definition Body (A : Type) : Type := (list Effect * completion A)%type.

Definition pure (A : Type) (a : A) : Body A := ([], Normal a).

Definition say (e : Effect) : Body unit := ([e], Normal tt).

Definition evaluate (A : Type) (c : completion A) : Body A := ([], c).

Definition andThen (A B : Type) (m : Body A) (f : A -> Body B) : Body B :=
  match m with
  | (t, Normal a) => let (t', r) := f a in (t ++ t', r)
  | (t, Throw e) => (t, Throw e)
  end.

(** [try { m } catch (e) { handler e }]. *)
Definition catching (A : Type) (m : Body A) (handler : jsval -> Body A) : Body A :=
  match m with
  | (t, Throw e) => let (t', r) := handler e in (t ++ t', r)
  | (t, Normal a) => (t, Normal a)
  end.

Definition maxLogs : nat := 50.

(** [arr.slice(-n)]: the last [n] elements. *)
Definition sliceLast (A : Type) (n : nat) (l : list A) : list A :=
  skipn (List.length l - n) l.

(** The body of the [try] block of [logErrorToStorage], lines 123-132:
    the new content of the key, or the exception that sends control to
    the [catch]. *)
Definition tryLog (env : Env) (store : Stored) (error : jsval) (ctx : string)
  : completion (list LogEntry) :=
  if getItemRejects env then Throw (mkError "getItem" "") else
  match store with
  | Garbage => Throw (mkError "JSON Parse error" "")
  | _ =>
    let errorLogs := entriesOf store in
    match messageOrString error with
    | Throw e => Throw e
    | Normal m =>
      match getStack error with
      | Throw e => Throw e
      | Normal s =>
        let entry := mkEntry (now env) ctx m (orElse s "No stack trace") in
        let kept := sliceLast maxLogs (errorLogs ++ [entry]) in
        if setItemRejects env then Throw (mkError "setItem" "")
        else Normal kept
      end
    end
  end.

(** Result of the asynchronous [logErrorToStorage]: the store once the
    returned promise has settled, what was printed, and how the
    promise settled. *)
Record LogResult : Type := mkLogResult {
  storeAfter : Stored;
  logged : list Effect;
  settled : completion unit;
}.

(** Lines 121-136: the [try] block yields what it wrote, the [catch]
    prints and writes nothing. *)
Definition logErrorToStorage (env : Env) (store : Stored) (error : jsval) (ctx : string)
  : LogResult :=
  let body : Body (option (list LogEntry)) :=
    catching
      (andThen (evaluate (tryLog env store error ctx)) (fun kept => pure (Some kept)))
      (fun _ =>
         andThen (say (ConsoleError "Failed to log error to storage:"))
                 (fun _ => pure None)) in
  mkLogResult
    (match snd body with
     | Normal (Some kept) => Logs kept
     | _ => store
     end)
    (fst body)
    (match snd body with
     | Normal _ => Normal tt
     | Throw e => Throw e
     end).

(** [Sentry.captureException(error)]. *)
Definition captureException (env : Env) (error : jsval) : Body unit :=
  if captureThrows env then evaluate (Throw (mkError "Sentry" ""))
  else say (SentryCapture error).

(** The guarded call of the reporter shared by both handlers, lines
    143-149 and 160-166. *)
Definition report (env : Env) (error : jsval) : Body unit :=
  if SENTRY_DSN env then
    catching (captureException env error)
             (fun _ => say (ConsoleError "Sentry error:"))
  else pure tt.

(** What a handler did: its own synchronous effects in order, the
    fire-and-forget log task it started (if it got that far), and
    whether it returned or threw. *)
Record HandlerResult : Type := mkHandlerResult {
  effects : list Effect;
  logTask : option LogResult;
  outcome : completion unit;
}.

(** Lines 139-154.  [upToLog] is the handler up to the call of
    [logErrorToStorage], which is made with the error it yields. *)
Definition handleUnhandledRejection (env : Env) (store : Stored) (event : jsval)
  : HandlerResult :=
  let upToLog : Body jsval :=
    andThen (evaluate (getReason event)) (fun reason =>
    let error := if truthy reason then reason else event in
    andThen (say (ConsoleError "Unhandled promise rejection:")) (fun _ =>
    pure error)) in
  let body : Body unit :=
    andThen upToLog (fun error =>
    andThen (report env error) (fun _ =>
    if DEV env then
      andThen (evaluate (messageOrString error)) (fun text =>
      say (AlertAlert "Unhandled Error" text))
    else pure tt)) in
  mkHandlerResult
    (fst body)
    (match snd upToLog with
     | Normal error =>
         Some (logErrorToStorage env store error "Unhandled Promise Rejection")
     | Throw _ => None
     end)
    (snd body).

(** Lines 157-172. *)
Definition handleGlobalError (env : Env) (store : Stored) (error : jsval) (isFatal : bool)
  : HandlerResult :=
  let upToLog : Body unit := say (ConsoleError "Global error caught:") in
  let body : Body unit :=
    andThen upToLog (fun _ =>
    andThen (report env error) (fun _ =>
    if isFatal && negb (DEV env)
    then say (ConsoleError "Fatal error prevented app crash")
    else pure tt)) in
  mkHandlerResult
    (fst body)
    (match snd upToLog with
     | Normal _ =>
         Some (logErrorToStorage env store error
                 (if isFatal then "Fatal Error" else "Non-Fatal Error"))
     | Throw _ => None
     end)
    (snd body).

(** The registration at the end of the effect: [handleGlobalError]
    becomes the process-wide handler when [ErrorUtils] exists;
    [handleUnhandledRejection] is defined but registered nowhere. *)
Inductive Handler : Type := GlobalError | UnhandledRejection.

Definition installed (errorUtilsDefined : bool) : list Handler :=
  if errorUtilsDefined then [GlobalError] else [].

(** A run of appends, each with the collaborators' behaviour and the
    error it logs, in order. *)
Definition Append : Type := (Env * jsval * string)%type.

Definition appendAll (store : Stored) (appends : list Append) : Stored :=
  fold_left
    (fun st a => let '(env, error, ctx) := a in
                 storeAfter (logErrorToStorage env st error ctx))
    appends store.

(** *** Observations *)

(** [error.message || String(error)] can be evaluated: the error is
    not [undefined] or [null], and it has a non-empty message or can
    be converted to a string. *)
Definition describable (error : jsval) : bool :=
  match messageOrString error with
  | Normal _ => true
  | Throw _ => false
  end.

(** The entry [logErrorToStorage] builds for a describable error. *)
Definition entryFor (env : Env) (error : jsval) (ctx : string) : LogEntry :=
  mkEntry (now env) ctx
    (match messageOrString error with Normal m => m | Throw _ => "" end)
    (orElse (match getStack error with Normal s => s | Throw _ => None end)
            "No stack trace").

Definition storageWorks (env : Env) (store : Stored) : bool :=
  negb (getItemRejects env) && negb (setItemRejects env)
  && match store with Garbage => false | _ => true end.

Definition completes (A : Type) (c : completion A) : bool :=
  match c with
  | Normal _ => true
  | Throw _ => false
  end.

Definition isAlert (e : Effect) : bool :=
  match e with AlertAlert _ _ => true | _ => false end.

Definition isCapture (e : Effect) : bool :=
  match e with SentryCapture _ => true | _ => false end.

Definition isCrashNote (e : Effect) : bool :=
  match e with
  | ConsoleError what => String.eqb what "Fatal error prevented app crash"
  | _ => false
  end.

(** The value the rejection handler treats as the error. *)
Definition errorOf (event : jsval) : jsval :=
  match getReason event with
  | Normal r => if truthy r then r else event
  | Throw _ => event
  end.

(** *** Sample inputs *)

(** A development build with the reporter configured and every
    collaborator working. *)
Definition devEnv : Env :=
  mkEnv true true "2025-01-01T00:00:00.000Z" false false false.

(** The same build with storage and reporter failing. *)
Definition failingEnv : Env :=
  mkEnv true true "2025-01-01T00:00:00.000Z" true true true.

Definition sampleError : jsval := mkError "boom" "at App (App.js:1)".

(** The event of an unhandled rejection whose reason is [sampleError]. *)
Definition sampleEvent : jsval :=
  JObj sampleError None None (Some "[object Object]").

(** [Object.create(null)], and a rejection event with it as reason. *)
Definition bareObject : jsval := JObj JUndefined None None None.

Definition bareEvent : jsval :=
  JObj bareObject None None (Some "[object Object]").

Definition sampleEntry (n : nat) : LogEntry :=
  mkEntry "2024-12-31T00:00:00.000Z" "Non-Fatal Error"
          (NilZero.string_of_uint (Nat.to_uint n)) "No stack trace".

Definition sampleAppends : list Append :=
  repeat (devEnv, sampleError, "Fatal Error") 60.

End ErrorCapture.

(* ================================================================= *)
(** ** The startup sequence (fourth effect of [App]) *)

Module Startup.

Inductive Route : Type := Login | MainApp.

(** The four [useState] cells of [App]. [None] is the initial [null]
    of [initialRouteName]. *)
Record AppState : Type := mkState {
  isReady : bool;
  initialRouteName : option Route;
  loadingMessage : string;
  authChecked : bool;
}.

Definition initialState : AppState :=
  mkState false None "Initializing..." false.

(** Which [setTimeout] a pause comes from. *)
Inductive DelayKind : Type := Settle | AuthPoll | MinDisplay.

(** What the sequence and the auth listener do to the outside: state
    setters, collaborator calls, pauses, console output.  The setters
    of [isReady] and [authChecked] are only ever called with [true]. *)
Inductive Action : Type :=
| SetLoadingMessage (m : string)
| SetInitialRouteName (r : Route)
| SetIsReady
| SetAuthChecked
| CheckForUpdateAsync
| FetchUpdateAsync
| ReloadAsync
| SentryCaptureException (tag : string)
| ImportNetInfo
| NetInfoFetch
| Delay (kind : DelayKind) (ms : Z)
| RegisterForPushNotifications
| SetupNotificationListeners
| StopAllListeners
| ConsoleLog (what : string)
| ConsoleError (what : string).

(** *** A small monad for straight-line asynchronous code

    A computation yields the actions it performed, in order, and how
    it ended: with a value, with an exception, or by the [return]
    statement that leaves the enclosing function. *)
Inductive Result (A : Type) : Type :=
| Ok (a : A)
| Thrown (e : jsval)
| Returned.
Arguments Ok {A} a.
Arguments Thrown {A} e.
Arguments Returned {A}.

Definition Proc (A : Type) : Type := (list Action * Result A)%type.

Definition ret (A : Type) (a : A) : Proc A := ([], Ok a).

Definition bind (A B : Type) (m : Proc A) (f : A -> Proc B) : Proc B :=
  match m with
  | (t, Ok a) => let (t', r) := f a in (t ++ t', r)
  | (t, Thrown e) => (t, Thrown e)
  | (t, Returned) => (t, Returned)
  end.

Definition emit (a : Action) : Proc unit := ([a], Ok tt).

(** A collaborator call: the call is made, then it yields or throws
    (for an awaited promise: fulfils or rejects). *)
Definition call (A : Type) (a : Action) (o : completion A) : Proc A :=
  ([a], match o with Normal x => Ok x | Throw e => Thrown e end).

Definition lift (A : Type) (o : completion A) : Proc A :=
  ([], match o with Normal x => Ok x | Throw e => Thrown e end).

Definition returnEarly (A : Type) : Proc A := ([], Returned).

Definition tryCatch (A : Type) (m : Proc A) (handler : jsval -> Proc A) : Proc A :=
  match m with
  | (t, Thrown e) => let (t', r) := handler e in (t ++ t', r)
  | other => other
  end.

Declare Scope proc_scope.
Delimit Scope proc_scope with proc.
Notation "x <- m ;; k" := (bind m (fun x => k))
  (at level 61, m at next level, right associativity) : proc_scope.
Notation "m ;; k" := (bind m (fun _ => k))
  (at level 61, right associativity) : proc_scope.
Open Scope proc_scope.

(** *** Collaborator outcomes seen by one invocation *)
Record RunEnv : Type := mkRunEnv {
  checkForUpdate : completion bool;   (* update.isAvailable *)
  fetchUpdate : completion unit;
  sentryCapture : completion unit;
  importNetInfo : completion unit;
  netInfoFetch : completion bool;     (* netState.isConnected *)
  registerPush : completion unit;
  setupListeners : completion unit;
  elapsed : Z;                        (* Date.now() - startTime, line 325 *)
}.

Definition authCheckInterval : Z := 100.
Definition maxAuthWait : Z := 5000.
Definition minDisplayTime : Z := 2000.

Definition inspect (A : Type) (a : A) : {b : A | a = b} := exist _ a eq_refl.

(** *** The polling loop, lines 290-297

    [observe t] is what the test of the loop reads in [authChecked]
    when [authWaitTime] is [t].  Returns the final [authWaitTime] and
    the pauses taken. *)
Section Poll.
Variables interval maxWait : Z.
Hypothesis interval_pos : 0 < interval.

Equations? pollLoop (observe : Z -> bool) (authWaitTime : Z) : Z * list Action
  by wf (Z.to_nat (maxWait - authWaitTime)) lt :=
pollLoop observe t with inspect (negb (observe t) && (t <? maxWait)) := {
  | exist _ true e =>
      let r := pollLoop observe (t + interval) in
      (fst r, Delay AuthPoll interval :: snd r)
  | exist _ false _ => (t, []) }.
Proof.
  apply andb_prop in e. destruct e as [_ e]. apply Z.ltb_lt in e. lia.
Defined.
End Poll.

(** The binding [authChecked] the loop tests is the constant captured
    by the closure of the render that ran the effect, so every test
    reads the same value. *)
Definition authCheckInterval_pos : 0 < authCheckInterval := eq_refl.

Definition authWait (snap : AppState) : Proc unit :=
  (snd (pollLoop maxAuthWait authCheckInterval_pos
          (fun _ => authChecked snap) 0), Ok tt).

Definition isUnset (r : option Route) : bool :=
  match r with
  | None => true
  | Some _ => false
  end.

(** Modelled from the spec: the Update Service's [reload], which is
    outside the repository.  Its contract is [reload() -> never-returns]:
    the application is restarted.  The component says the same of
    [Updates.reloadAsync] (note on line 256, "Code after reloadAsync
    won't execute"): once the call is made the invocation does nothing
    more, as with the [return] that follows it. *)
Definition reloadAsync : Proc unit := ([ReloadAsync], Returned).

(** Lines 243-272. *)
Definition checkForUpdates (DSN : bool) (env : RunEnv) : Proc unit :=
  tryCatch
    (emit (SetLoadingMessage "Checking for updates...") ;;
     isAvailable <- call CheckForUpdateAsync (checkForUpdate env) ;;
     if isAvailable : bool then
       emit (ConsoleLog "Update available, fetching...") ;;
       emit (SetLoadingMessage "Downloading update...") ;;
       call FetchUpdateAsync (fetchUpdate env) ;;
       emit (ConsoleLog "Update downloaded, reloading app...") ;;
       reloadAsync ;;
       returnEarly unit
     else emit (ConsoleLog "App is up to date"))
    (fun _ =>
       emit (ConsoleError "Update check failed:") ;;
       if DSN then
         tryCatch
           (call (SentryCaptureException "OTA Update Check") (sentryCapture env))
           (fun _ => ret tt)
       else ret tt).

(** Lines 274-285: connectivity probe and settle delay. *)
Definition connectivityStep (env : RunEnv) : Proc unit :=
  call ImportNetInfo (importNetInfo env) ;;
  isConnected <- call NetInfoFetch (netInfoFetch env) ;;
  (if negb isConnected then emit (ConsoleLog "App starting in offline mode")
   else ret tt) ;;
  emit (Delay Settle 500).

(** Lines 287-303: wait for the listener, then the default route.
    [snap] holds the values of the state variables in the render
    whose effect started this invocation: they are what the closure
    reads, however the state has changed since. *)
Definition authStep (snap : AppState) : Proc unit :=
  emit (SetLoadingMessage "Checking authentication...") ;;
  authWait snap ;;
  if isUnset (initialRouteName snap) then
    emit (ConsoleLog "Auth check completed, defaulting to Login screen") ;;
    emit (SetInitialRouteName Login)
  else ret tt.

(** Lines 305-322: push registration and notification listeners. *)
Definition notificationStep (env : RunEnv) : Proc unit :=
  emit (SetLoadingMessage "Setting up notifications...") ;;
  tryCatch
    (call RegisterForPushNotifications (registerPush env))
    (fun error =>
       _ <- lift (getMessage error) ;;
       emit (ConsoleLog "Push notification setup error:")) ;;
  emit (SetLoadingMessage "Finalizing...") ;;
  call SetupNotificationListeners (setupListeners env).

(** Lines 324-331: the minimum display time of the splash screen. *)
Definition minimumDisplay (elapsedMs : Z) : Proc unit :=
  let remainingTime := Z.max 0 (minDisplayTime - elapsedMs) in
  if 0 <? remainingTime then
    emit (SetLoadingMessage "Almost ready...") ;;
    emit (Delay MinDisplay remainingTime)
  else ret tt.

(** Lines 242-272: the update check is skipped in development builds. *)
Definition updateStep (DEV DSN : bool) (env : RunEnv) : Proc unit :=
  if negb DEV then checkForUpdates DSN env else ret tt.

(** Lines 274-334: what follows the update step. *)
Definition afterUpdate (snap : AppState) (env : RunEnv) : Proc unit :=
  connectivityStep env ;;
  authStep snap ;;
  notificationStep env ;;
  minimumDisplay (elapsed env) ;;
  emit SetIsReady.

(** The [try] block of [initializeApp], lines 240-334. *)
Definition startupSequence (DEV DSN : bool) (snap : AppState) (env : RunEnv)
  : Proc unit :=
  emit (SetLoadingMessage "Loading assets...") ;;
  updateStep DEV DSN env ;;
  afterUpdate snap env.

(** The [catch] block, lines 340-347. *)
Definition recover (snap : AppState) (error : jsval) : Proc unit :=
  emit (ConsoleError "Error initializing app:") ;;
  (if isUnset (initialRouteName snap) then emit (SetInitialRouteName Login)
   else ret tt) ;;
  emit SetIsReady.

Definition initializeApp (DEV DSN : bool) (snap : AppState) (env : RunEnv)
  : Proc unit :=
  tryCatch (startupSequence DEV DSN snap env) (recover snap).

(** *** Observations on traces *)

(** What the update step does up to the reload when an update is
    available and fetched. *)
Definition updateTrace : list Action :=
  [SetLoadingMessage "Checking for updates..."; CheckForUpdateAsync;
   ConsoleLog "Update available, fetching...";
   SetLoadingMessage "Downloading update..."; FetchUpdateAsync;
   ConsoleLog "Update downloaded, reloading app..."].

(** How many actions of a trace satisfy [q]. *)
Definition occ (q : Action -> bool) (t : list Action) : nat :=
  List.length (filter q t).

Definition atMost (q : Action -> bool) (n : nat) (A : Type) (m : Proc A) : Prop :=
  (occ q (fst m) <= n)%nat.

Definition isPoll (a : Action) : bool :=
  match a with Delay AuthPoll _ => true | _ => false end.

Definition isReadyOrPacing (a : Action) : bool :=
  match a with SetIsReady | Delay MinDisplay _ => true | _ => false end.

(** *** Sample inputs *)

(** No update, every collaborator call succeeds, the device is online;
    line 325 is reached after [elapsedMs]. *)
Definition calmEnv (elapsedMs : Z) : RunEnv :=
  mkRunEnv (Normal false) (Normal tt) (Normal tt) (Normal tt) (Normal true)
           (Normal tt) (Normal tt) elapsedMs.

(** The render in which the listener has reported a signed-in user. *)
Definition routedSnapshot : AppState :=
  mkState false (Some MainApp) "Initializing..." true.

End Startup.

(* ================================================================= *)
(** ** The component at run time

    The part of React that matters to the startup state: a state setter
    changes the cell, a closure keeps the values of the render that
    created it, and an effect is run again after a render in which one
    of its dependencies changed.  JavaScript runs each piece of code
    between two suspension points without interruption; the order in
    which suspended invocations and the listener are resumed is the
    input. *)

Module Runtime.
Import Startup.

Definition apply (s : AppState) (a : Action) : AppState :=
  match a with
  | SetLoadingMessage m =>
      mkState (isReady s) (initialRouteName s) m (authChecked s)
  | SetInitialRouteName r =>
      mkState (isReady s) (Some r) (loadingMessage s) (authChecked s)
  | SetIsReady =>
      mkState true (initialRouteName s) (loadingMessage s) (authChecked s)
  | SetAuthChecked =>
      mkState (isReady s) (initialRouteName s) (loadingMessage s) true
  | _ => s
  end.

Definition applyAll (s : AppState) (acts : list Action) : AppState :=
  fold_left apply acts s.

(** *** The auth listener (third effect, dependencies [[isReady]]) *)

(** One registration of the listener: the [isReady] its closure
    captured and its local [hasSetInitialRoute]. *)
Record Subscription : Type := mkSub {
  capturedIsReady : bool;
  hasSetInitialRoute : bool;
}.

(** What the Auth Service reports: a user, [null], or an error. *)
Inductive AuthEvent : Type := SignedIn | SignedOut | AuthFailed.

Definition onAuthEvent (sub : Subscription) (ev : AuthEvent)
  : list Action * Subscription :=
  let first := negb (hasSetInitialRoute sub) && negb (capturedIsReady sub) in
  let route (r : Route) := if first then [SetInitialRouteName r] else [] in
  let sub' := mkSub (capturedIsReady sub) (hasSetInitialRoute sub || first) in
  match ev with
  | SignedIn =>
      ([ConsoleLog "Auth state changed: Logged in"; ConsoleLog "User authenticated"]
         ++ route MainApp ++ [SetAuthChecked], sub')
  | SignedOut =>
      ([ConsoleLog "Auth state changed: Logged out";
        ConsoleLog "User logged out, stopping listeners"; StopAllListeners]
         ++ route Login ++ [SetAuthChecked], sub')
  | AuthFailed =>
      ([ConsoleError "Auth state change error:"]
         ++ route Login ++ [SetAuthChecked], sub')
  end.

(** *** Suspension points of [initializeApp] *)

Definition suspends (a : Action) : bool :=
  match a with
  | CheckForUpdateAsync | FetchUpdateAsync | ReloadAsync
  | ImportNetInfo | NetInfoFetch | Delay _ _
  | RegisterForPushNotifications => true
  | _ => false
  end.

(** The actions up to and including the next awaited call, and what
    is left after it. *)
Fixpoint nextSegment (k : list Action) : list Action * list Action :=
  match k with
  | [] => ([], [])
  | a :: rest =>
      if suspends a then ([a], rest)
      else let (seg, rest') := nextSegment rest in (a :: seg, rest')
  end.

Definition isReload (a : Action) : bool :=
  match a with
  | ReloadAsync => true
  | _ => false
  end.

(** *** The whole component *)

Record Sys : Type := mkSys {
  state : AppState;
  (** what each invocation of [initializeApp] has left to do, in the
      order they were started *)
  invocations : list (list Action);
  subscription : Subscription;
  (** every action performed so far, oldest first *)
  history : list Action;
  (** the runtime was restarted by [Updates.reloadAsync] *)
  restarted : bool;
}.

Inductive Input : Type :=
| Resume (i : nat)          (* the call awaited by invocation [i] settles *)
| Auth (ev : AuthEvent).    (* the Auth Service calls the listener *)

Fixpoint setNth (A : Type) (n : nat) (x : A) (l : list A) : list A :=
  match l, n with
  | [], _ => []
  | _ :: t, O => x :: t
  | h :: t, S m => h :: setNth m x t
  end.

Section Component.
Variables DEV DSN : bool.
(** the collaborators' behaviour during the n-th invocation *)
Variable envs : nat -> RunEnv.

Definition perform (acts : list Action) (sys : Sys) : Sys :=
  mkSys (applyAll (state sys) acts) (invocations sys) (subscription sys)
        (history sys ++ acts) (restarted sys || existsb isReload acts).

(** Start an invocation of [initializeApp] from the render whose
    state is [state sys]: it runs up to its first awaited call. *)
Definition start (sys : Sys) : Sys :=
  let k := fst (initializeApp DEV DSN (state sys)
                  (envs (List.length (invocations sys)))) in
  let (seg, rest) := nextSegment k in
  perform seg
    (mkSys (state sys) (invocations sys ++ [rest]) (subscription sys)
           (history sys) (restarted sys)).

(** The effects that follow a render: compared with the state
    [before] the code ran, a changed [isReady] unsubscribes the
    listener ([unsubscribeAuth(); stopAllListeners()]) and registers
    a new one; a changed [authChecked] calls [initializeApp] again.
    The new invocation runs up to its first awaited call, and on the
    way only sets the loading message, on which no effect depends.
    [step] runs the effects in the same step as the code that changed
    the state: that is the schedule in which React flushes them at
    once.  [Deferred], further down, lets the flush come later. *)
Definition resubscribe (sys : Sys) : Sys :=
  mkSys (state sys) (invocations sys) (mkSub (isReady (state sys)) false)
        (history sys ++ [StopAllListeners]) (restarted sys).

Definition runEffects (before : AppState) (sys : Sys) : Sys :=
  if restarted sys then sys else
  let sys1 := if Bool.eqb (isReady before) (isReady (state sys))
              then sys else resubscribe sys in
  if Bool.eqb (authChecked before) (authChecked (state sys))
  then sys1 else start sys1.

Definition mount : Sys :=
  start (mkSys initialState [] (mkSub false false) [] false).

Definition step (sys : Sys) (i : Input) : Sys :=
  if restarted sys then sys else
  match i with
  | Resume n =>
      match nth_error (invocations sys) n with
      | Some (a :: k) =>
          let (seg, rest) := nextSegment (a :: k) in
          runEffects (state sys)
            (perform seg
               (mkSys (state sys) (setNth n rest (invocations sys))
                      (subscription sys) (history sys) (restarted sys)))
      | _ => sys
      end
  | Auth ev =>
      let (acts, sub') := onAuthEvent (subscription sys) ev in
      runEffects (state sys)
        (perform acts
           (mkSys (state sys) (invocations sys) sub'
                  (history sys) (restarted sys)))
  end.

Definition run (inputs : list Input) : Sys :=
  fold_left step inputs mount.
End Component.

(** *** Reading a history *)

(** The values passed to [setInitialRouteName], in order. *)
Definition routeWrites (h : list Action) : list Route :=
  flat_map (fun a => match a with SetInitialRouteName r => [r] | _ => [] end) h.

(** The part of a history that follows the first [setIsReady(true)]. *)
Fixpoint afterReady (h : list Action) : list Action :=
  match h with
  | [] => []
  | SetIsReady :: rest => rest
  | _ :: rest => afterReady rest
  end.

(** The route held by the state when [isReady] first became true. *)
Fixpoint routeAtReady (s : AppState) (h : list Action) : option Route :=
  match h with
  | [] => None
  | SetIsReady :: _ => initialRouteName s
  | a :: rest => routeAtReady (apply s a) rest
  end.

(** Started once, or twice with the listener having reported. *)
Definition startedAtMostTwice (sys : Sys) : Prop :=
  List.length (invocations sys) = 1%nat
  \/ (List.length (invocations sys) = 2%nat /\ authChecked (state sys) = true).

Definition Action_eq_dec (a b : Action) : {a = b} + {a <> b}.
Proof.
  decide equality;
    try apply string_dec; try apply Z.eq_dec; decide equality.
Defined.

Definition times (a : Action) (h : list Action) : nat :=
  count_occ Action_eq_dec h a.

(** A development build in which every collaborator call succeeds;
    the first invocation reaches line 325 after 5700 ms, a later one
    after 600 ms. *)
Definition calmEnvs (n : nat) : RunEnv :=
  match n with
  | O => calmEnv 5700
  | S _ => calmEnv 600
  end.

(** The listener reports a signed-in user during the first pause of
    the polling loop; the second invocation then runs to its end, and
    the first one after it. *)
Definition earlySignIn : list Input :=
  [Resume 0; Resume 0; Resume 0; Auth SignedIn]
    ++ repeat (Resume 1) 6 ++ repeat (Resume 0) 53.

(** The listener reports a signed-in user during the 49th pause of
    the polling loop (4.8 s into the 5 s wait); the first invocation
    runs to its end, and the second one after it. *)
Definition lateSignIn : list Input :=
  repeat (Resume 0%nat) 51 ++ [Auth SignedIn]
    ++ repeat (Resume 0%nat) 5 ++ repeat (Resume 1%nat) 6.

(** The connectivity probe of the first invocation rejects. *)
Definition offlineEnvs (n : nat) : RunEnv :=
  match n with
  | O => mkRunEnv (Normal false) (Normal tt) (Normal tt) (Normal tt)
                  (Throw (mkError "Network request failed" ""))
                  (Normal tt) (Normal tt) 0
  | S _ => calmEnv 600
  end.

(** A continuation in which a reload, if any, comes last and after a
    fetch, the fetch being in the continuation or already in the
    history [h]. *)
Definition guarded (h k : list Action) : Prop :=
  forall pre post,
    k = pre ++ ReloadAsync :: post ->
    post = [] /\ (In FetchUpdateAsync pre \/ In FetchUpdateAsync h).

Definition reloadInv (sys : Sys) : Prop :=
  (if restarted sys
   then exists pre, history sys = pre ++ [ReloadAsync]
                    /\ occ isReload pre = 0%nat /\ In FetchUpdateAsync pre
   else occ isReload (history sys) = 0%nat)
  /\ Forall (guarded (history sys)) (invocations sys).

Definition noSuspension (l : list Action) : Prop :=
  forall a, In a l -> suspends a = false.

(** A production build whose update check finds an update and whose
    fetch succeeds. *)
Definition updateEnvs (n : nat) : RunEnv :=
  mkRunEnv (Normal true) (Normal tt) (Normal tt) (Normal tt) (Normal true)
           (Normal tt) (Normal tt) 0.

End Runtime.

(* ================================================================= *)
(** ** The error log under overlapping appends

    The handlers call [logErrorToStorage] without awaiting it, so two
    calls can be in flight at once.  A call is suspended twice: on
    [AsyncStorage.getItem] and on [AsyncStorage.setItem]. *)

Module LogTasks.
Import ErrorCapture.

(** Where one call of [logErrorToStorage] stands. *)
Inductive Task : Type :=
| AwaitingRead (env : Env) (error : jsval) (ctx : string)
| AwaitingWrite (env : Env) (kept : list LogEntry)
| Finished (printed : list Effect).

(** Lines 123-131, from the value [getItem] produced to the argument
    of [setItem]. *)
Definition buildLogs (env : Env) (store : Stored) (error : jsval) (ctx : string)
  : completion (list LogEntry) :=
  if getItemRejects env then Throw (mkError "getItem" "") else
  match store with
  | Garbage => Throw (mkError "JSON Parse error" "")
  | _ =>
    match messageOrString error with
    | Throw e => Throw e
    | Normal m =>
      match getStack error with
      | Throw e => Throw e
      | Normal s =>
        Normal (sliceLast maxLogs
                  (entriesOf store
                     ++ [mkEntry (now env) ctx m (orElse s "No stack trace")]))
      end
    end
  end.

Definition failed : Task :=
  Finished [ConsoleError "Failed to log error to storage:"].

Record LogSys : Type := mkLogSys {
  stored : Stored;
  tasks : list Task;
}.

(** The call awaited by task [i] settles: a read sees the store as it
    is then, a write replaces it. *)
Definition settle (sys : LogSys) (i : nat) : LogSys :=
  match nth_error (tasks sys) i with
  | Some (AwaitingRead env error ctx) =>
      mkLogSys (stored sys)
        (Runtime.setNth i
           (match buildLogs env (stored sys) error ctx with
            | Normal kept => AwaitingWrite env kept
            | Throw _ => failed
            end)
           (tasks sys))
  | Some (AwaitingWrite env kept) =>
      if setItemRejects env
      then mkLogSys (stored sys) (Runtime.setNth i failed (tasks sys))
      else mkLogSys (Logs kept) (Runtime.setNth i (Finished []) (tasks sys))
  | _ => sys
  end.

Definition launch (store : Stored) (calls : list Append) : LogSys :=
  mkLogSys store
    (map (fun a : Append => let '(env, error, ctx) := a in AwaitingRead env error ctx)
         calls).

Definition settleAll (sys : LogSys) (schedule : list nat) : LogSys :=
  fold_left settle schedule sys.

(** *** Observations *)

(** An append during which storage works on an error whose text can
    be produced. *)
Definition succeeds (a : Append) : bool :=
  let '(env, error, _) := a in
  negb (getItemRejects env) && negb (setItemRejects env) && describable error.

Definition entriesFor (appends : list Append) : list LogEntry :=
  map (fun a : Append => let '(env, error, ctx) := a in entryFor env error ctx)
      appends.

Definition isGarbage (store : Stored) : bool :=
  match store with
  | Garbage => true
  | _ => false
  end.

Definition taskBounded (t : Task) : Prop :=
  match t with
  | AwaitingWrite _ kept => (List.length kept <= maxLogs)%nat
  | _ => True
  end.

(** *** Sample inputs *)

Definition stringError : jsval := JStr "disk full".

Definition emptyMessageError : jsval :=
  JObj JUndefined (Some "") None (Some "Error").

Definition twoCalls : list Append :=
  [(devEnv, sampleError, "Fatal Error"); (devEnv, stringError, "Non-Fatal Error")].

End LogTasks.

(* ================================================================= *)
(** ** What is rendered, and observations on launches *)

Module Shell.
Import Startup Runtime.

(** Lines 353-369: the splash screen with the loading message until
    [isReady], then the navigator, which is given [initialRouteName]. *)
Inductive View : Type :=
| SplashScreen (message : string)
| Navigator (initialRoute : option Route).

Definition render (s : AppState) : View :=
  if isReady s then Navigator (initialRouteName s)
  else SplashScreen (loadingMessage s).

(** The strings the state holds for the two routes. *)
Definition routeName (r : Route) : string :=
  match r with
  | Login => "Login"
  | MainApp => "MainApp"
  end.

(** Lines 421-522: the screens registered in the navigator. *)
Definition screens : list string :=
  ["Login"; "Register"; "Verification"; "MainApp"; "CreateAnnouncement";
   "AnnouncementDetail"; "AccountSettings"; "EditProfile"; "GradeCalculator";
   "PostDetail"; "CreateTask"; "TaskDetail"; "ArchivedTasks"; "Profile"].

(** The rest of [initializeApp] once the update step is over: the
    remaining steps inside the [try], and the [catch]. *)
Definition restOfStartup (snap : AppState) (env : RunEnv) : Proc unit :=
  tryCatch (afterUpdate snap env) (recover snap).

(** The update step ends in its [catch]: the check rejects, or an
    update is available and the fetch rejects. *)
Definition updateFails (env : RunEnv) : bool :=
  match checkForUpdate env with
  | Throw _ => true
  | Normal true => match fetchUpdate env with Throw _ => true | Normal _ => false end
  | Normal false => false
  end.

(** What an invocation does before its first awaited call. *)
Definition firstSegment (DEV : bool) : list Action :=
  SetLoadingMessage "Loading assets..."
    :: (if DEV then [ImportNetInfo]
        else [SetLoadingMessage "Checking for updates..."; CheckForUpdateAsync]).

(** *** Kinds of actions *)

Definition isUpdateCall (a : Action) : bool :=
  match a with
  | CheckForUpdateAsync | FetchUpdateAsync | ReloadAsync => true
  | _ => false
  end.

Definition isSetReady (a : Action) : bool :=
  match a with SetIsReady => true | _ => false end.

Definition isSetAuthChecked (a : Action) : bool :=
  match a with SetAuthChecked => true | _ => false end.

Definition isRouteWrite (a : Action) : bool :=
  match a with SetInitialRouteName _ => true | _ => false end.

Definition writesMainApp (a : Action) : bool :=
  match a with SetInitialRouteName MainApp => true | _ => false end.

Definition isSentryCall (a : Action) : bool :=
  match a with SentryCaptureException _ => true | _ => false end.

Definition isListenerSetup (a : Action) : bool :=
  match a with SetupNotificationListeners => true | _ => false end.

Definition isPacing (a : Action) : bool :=
  match a with Delay MinDisplay _ => true | _ => false end.

(** Everything an invocation of [initializeApp] can do in a build. *)
Definition mayEmit (DEV DSN : bool) (a : Action) : bool :=
  match a with
  | SetLoadingMessage _ | SetIsReady | ImportNetInfo | NetInfoFetch
  | RegisterForPushNotifications | SetupNotificationListeners
  | ConsoleLog _ | ConsoleError _ => true
  | SetInitialRouteName r => match r with Login => true | MainApp => false end
  | CheckForUpdateAsync | FetchUpdateAsync | ReloadAsync => negb DEV
  | SentryCaptureException _ => negb DEV && DSN
  | Delay Settle ms => ms =? 500
  | Delay AuthPoll ms => ms =? 100
  | Delay MinDisplay ms => 0 <? ms
  | SetAuthChecked | StopAllListeners => false
  end.

Definition notEmitted (DEV DSN : bool) (a : Action) : bool :=
  negb (mayEmit DEV DSN a).

(** *** Kinds of inputs *)


Definition reportsUser (i : Input) : bool :=
  match i with Auth SignedIn => true | _ => false end.

Definition isResume (n : nat) (i : Input) : bool :=
  match i with Resume m => Nat.eqb m n | Auth _ => false end.

(** How many times invocation [n] is resumed by a schedule. *)
Definition resumes (n : nat) (inputs : list Input) : nat :=
  List.length (filter (isResume n) inputs).

(** *** Measures and invariants *)

(** How many resumptions a continuation needs to run to its end. *)
Fixpoint segments (k : list Action) : nat :=
  match k with
  | [] => 0
  | a :: rest =>
      if suspends a then S (segments rest)
      else match rest with
           | [] => 1
           | _ :: _ => segments rest
           end
  end.

(** A continuation in which [setIsReady(true)] only comes once the
    route is set, by the state [s] or by the continuation itself. *)
Definition readyGuard (s : AppState) (k : list Action) : Prop :=
  forall pre post,
    k = pre ++ SetIsReady :: post ->
    isUnset (initialRouteName s) = false \/ In (SetInitialRouteName Login) pre.

(** A continuation that ends by setting [isReady] or by the reload. *)
Definition endsWell (k : list Action) : Prop :=
  exists pre, k = pre ++ [SetIsReady] \/ k = pre ++ [ReloadAsync].

(** The first invocation still has something to do, and at most
    [58 - r] resumptions of it. *)
Definition stillRunning (r : nat) (sys : Sys) : Prop :=
  exists c, nth_error (invocations sys) 0 = Some c
            /\ c <> [] /\ endsWell c /\ (segments c + r <= 58)%nat.

Definition progress (r : nat) (sys : Sys) : Prop :=
  restarted sys = true \/ isReady (state sys) = true \/ stillRunning r sys.

(** Everything done so far, and everything the suspended invocations
    have left to do, satisfies [q]. *)
Definition within (q : Action -> bool) (sys : Sys) : Prop :=
  Forall (fun a => q a = true) (history sys)
  /\ Forall (Forall (fun a => q a = true)) (invocations sys).

(** The state is what the setters called so far have made of it. *)
Definition replays (sys : Sys) : Prop :=
  state sys = applyAll initialState (history sys).

(** The route is set whenever [isReady] is, and no suspended
    invocation will set [isReady] before a route is. *)
Definition routedWhenReady (sys : Sys) : Prop :=
  (isReady (state sys) = true -> isUnset (initialRouteName (state sys)) = false)
  /\ Forall (readyGuard (state sys)) (invocations sys).

(** The registered listener has captured the current [isReady]. *)
Definition listenerInSync (sys : Sys) : Prop :=
  restarted sys = false ->
  capturedIsReady (subscription sys) = isReady (state sys).


(** What only the auth step and the recovery handler may do. *)
Definition routesOrPolls (a : Action) : bool := isRouteWrite a || isPoll a.

(** A continuation that neither writes the route nor polls. *)
Definition quiet (k : list Action) : Prop := occ routesOrPolls k = 0%nat.

(** A route is set once the listener has written one, once a listener
    was registered with [isReady] true, and once [authChecked] is
    true; no invocation sets [authChecked]; the invocations started
    after the first one are quiet. *)
Definition routeSettled (sys : Sys) : Prop :=
  routedWhenReady sys
  /\ (hasSetInitialRoute (subscription sys) = true
      \/ capturedIsReady (subscription sys) = true
      \/ authChecked (state sys) = true ->
      isUnset (initialRouteName (state sys)) = false)
  /\ Forall (fun k => occ isSetAuthChecked k = 0%nat) (invocations sys)
  /\ Forall quiet (tl (invocations sys)).

(** The guard [!hasSetInitialRoute && !isReady] of a registration. *)
Definition listenerOpen (sub : Subscription) : bool :=
  negb (hasSetInitialRoute sub) && negb (capturedIsReady sub).

(** MainApp has been written at most once, and not at all while the
    listener can still write it; no invocation will write it. *)
Definition mainAppBudget (sys : Sys) : Prop :=
  (occ writesMainApp (history sys)
   + (if listenerOpen (subscription sys) then 1 else 0) <= 1)%nat
  /\ Forall (fun k => occ writesMainApp k = 0%nat) (invocations sys).

(** [Inv] holds before the mount and every piece of code of the
    component keeps it: an invocation started at mount or once
    [authChecked] is true, a segment of an invocation, the listener
    called with an allowed report, and the listener registered again
    once [isReady] is true. *)
Definition Preserved (DEV DSN : bool) (envs : nat -> RunEnv)
  (allowed : Input -> bool) (Inv : Sys -> Prop) : Prop :=
  Inv (mkSys initialState [] (mkSub false false) [] false)
  /\ (forall sys rest,
        Inv sys -> restarted sys = false ->
        invocations sys = [] \/ authChecked (state sys) = true ->
        fst (initializeApp DEV DSN (state sys)
               (envs (List.length (invocations sys))))
        = firstSegment DEV ++ rest ->
        Inv (mkSys (applyAll (state sys) (firstSegment DEV))
                   (invocations sys ++ [rest]) (subscription sys)
                   (history sys ++ firstSegment DEV) false))
  /\ (forall sys n c,
        Inv sys -> restarted sys = false ->
        nth_error (invocations sys) n = Some c -> c <> [] ->
        Inv (perform (fst (nextSegment c))
               (mkSys (state sys)
                      (setNth n (snd (nextSegment c)) (invocations sys))
                      (subscription sys) (history sys) false)))
  /\ (forall sys ev,
        Inv sys -> restarted sys = false -> allowed (Auth ev) = true ->
        Inv (perform (fst (onAuthEvent (subscription sys) ev))
               (mkSys (state sys) (invocations sys)
                      (snd (onAuthEvent (subscription sys) ev))
                      (history sys) false)))
  /\ (forall sys,
        Inv sys -> restarted sys = false -> isReady (state sys) = true ->
        Inv (resubscribe sys)).

Definition allInputs (i : Input) : bool := true.

Definition noUserReported (i : Input) : bool := negb (reportsUser i).

(** *** Sample inputs *)

(** A production build whose update check rejects and whose reporter
    throws. *)
Definition brokenUpdateEnv : RunEnv :=
  mkRunEnv (Throw (mkError "network" "")) (Normal tt) (Throw JNull) (Normal tt)
           (Normal true) (Normal tt) (Normal tt) 2500.

(** Push registration rejects with an [Error], or with [undefined]. *)
Definition noPushEnv (e : jsval) : RunEnv :=
  mkRunEnv (Normal false) (Normal tt) (Normal tt) (Normal tt) (Normal true)
           (Throw e) (Normal tt) 2500.

End Shell.

(* ================================================================= *)
(** ** Effects that run later

    In [Runtime.step] the effects that follow a change of state run in
    the same step as the code that made the change.  React runs them
    when it flushes the render that committed the change: after that
    code has finished, and at the latest before the next render.  Until
    then the listener registered by the previous render stays in place,
    with the [isReady] its closure captured, and no new invocation has
    been started.  Here the flush is an event of its own, which may
    come at once or after any number of other events: every order
    React can produce is among these. *)

Module Deferred.
Import Startup Runtime.

Record Pending : Type := mkPending {
  current : Sys;
  (** the state of the render whose effects ran last *)
  flushed : AppState;
}.

Inductive Event : Type :=
| Run (i : Input)   (* an invocation is resumed, or the listener is called *)
| Flush.            (* React runs the effects of the last render *)

Section Component.
Variables DEV DSN : bool.
Variable envs : nat -> RunEnv.

(** The code that runs on an input, without the effects: the next
    segment of an invocation, or the listener that is registered at
    that moment. *)
Definition act (sys : Sys) (i : Input) : Sys :=
  if restarted sys then sys else
  match i with
  | Resume n =>
      match nth_error (invocations sys) n with
      | Some (a :: k) =>
          let (seg, rest) := nextSegment (a :: k) in
          perform seg
            (mkSys (state sys) (setNth n rest (invocations sys))
                   (subscription sys) (history sys) (restarted sys))
      | _ => sys
      end
  | Auth ev =>
      let (acts, sub') := onAuthEvent (subscription sys) ev in
      perform acts
        (mkSys (state sys) (invocations sys) sub'
               (history sys) (restarted sys))
  end.

(** The effects compare their dependencies with the values of the
    render for which they ran last. *)
Definition flush (p : Pending) : Pending :=
  mkPending (runEffects DEV DSN envs (flushed p) (current p))
            (state (current p)).

Definition advance (p : Pending) (e : Event) : Pending :=
  match e with
  | Run i => mkPending (act (current p) i) (flushed p)
  | Flush => flush p
  end.

(** After the first render its effects run: the listener is
    registered and [initializeApp] is started. *)
Definition mounted : Pending := mkPending (mount DEV DSN envs) initialState.

Definition play (events : list Event) : Pending :=
  fold_left advance events mounted.
End Component.

(** The schedule in which every input is followed at once by the
    flush. *)
Definition eager (inputs : list Input) : list Event :=
  flat_map (fun i => [Run i; Flush]) inputs.

(** Reports of the Auth Service and flushes, no resumption. *)
Definition noResume (e : Event) : bool :=
  match e with
  | Run (Resume _) => false
  | _ => true
  end.

(** No report of a signed-in user. *)
Definition noUser (e : Event) : bool :=
  match e with
  | Run i => Shell.noUserReported i
  | Flush => true
  end.

(** The route the listener writes for a report. *)
Definition routeFor (ev : AuthEvent) : Route :=
  match ev with
  | SignedIn => MainApp
  | SignedOut | AuthFailed => Login
  end.

(** The dependencies of the effects only grow, and the listener in
    place is the one registered by the render whose effects ran last. *)
Definition inStep (p : Pending) : Prop :=
  (isReady (flushed p) = true -> isReady (state (current p)) = true)
  /\ (authChecked (flushed p) = true -> authChecked (state (current p)) = true)
  /\ (restarted (current p) = false ->
      capturedIsReady (subscription (current p)) = isReady (flushed p)
      /\ List.length (invocations (current p))
         = if authChecked (flushed p) then 2%nat else 1%nat)
  /\ (List.length (invocations (current p)) <= 2)%nat.

(** The first invocation has ended and the render with [isReady] true
    has had its effects run. *)
Definition firstEnded (p : Pending) : Prop :=
  nth_error (invocations (current p)) 0 = Some []
  /\ isReady (flushed p) = true.

(** *** Sample schedules, development build, collaborators working *)

(** The first invocation runs to its end with no report from the Auth
    Service; the effects of the render with [isReady] true have not
    run yet. *)
Definition readyNotFlushed : list Event := repeat (Run (Resume 0%nat)) 54.

(** The same, and then the effects have run. *)
Definition readyAndFlushed : list Event := readyNotFlushed ++ [Flush].

End Deferred.

(* ================================================================= *)
(** ** Updates that arrive while the app runs

    The first effect of [App], lines 73-117: outside development
    builds a listener on the Update Service reacts to the event
    [UPDATE_AVAILABLE] by checking, fetching and offering a restart. *)

Module BackgroundUpdate.
Import JS.

(** [Updates.UpdateEventType]. *)
Inductive UpdateEventType : Type :=
| UPDATE_AVAILABLE
| NO_UPDATE_AVAILABLE
| ERROR.

(** The buttons of the alert, lines 83-94. *)
Inductive Button : Type := Later | RestartNow.

Inductive Act : Type :=
| BgCheckForUpdateAsync
| BgFetchUpdateAsync
| BgReloadAsync
| BgAlert (title : string) (buttons : list Button)
| BgConsoleLog (what : string)
| BgConsoleError (what : string).

(** What the Update Service answers to one run of the check. *)
Record UpdateEnv : Type := mkUpdateEnv {
  bgCheck : completion bool;   (* update.isAvailable *)
  bgFetch : completion unit;
}.

(** Lines 76-101. *)
Definition checkForUpdatesOnResume (env : UpdateEnv) : list Act :=
  BgCheckForUpdateAsync
    :: match bgCheck env with
       | Normal true =>
           BgConsoleLog "Update available in background, fetching..."
             :: BgFetchUpdateAsync
             :: match bgFetch env with
                | Normal _ => [BgAlert "Update Available" [Later; RestartNow]]
                | Throw _ => [BgConsoleError "Background update check failed:"]
                end
       | Normal false => []
       | Throw _ => [BgConsoleError "Background update check failed:"]
       end.

(** Lines 104-109: the callback given to [Updates.addListener]. *)
Definition onUpdateEvent (env : UpdateEnv) (type : UpdateEventType) : list Act :=
  match type with
  | UPDATE_AVAILABLE =>
      BgConsoleLog "Update available event triggered" :: checkForUpdatesOnResume env
  | _ => []
  end.

(** Lines 73-74 and 104: no listener is registered in a development
    build. *)
Definition addListener (DEV : bool)
  : option (UpdateEnv -> UpdateEventType -> list Act) :=
  if DEV then None else Some onUpdateEvent.

(** Lines 87-93: [onPress] of the two buttons. *)
Definition onPress (b : Button) : list Act :=
  match b with
  | Later => []
  | RestartNow => [BgReloadAsync]
  end.

(** Everything done in response to a sequence of events, each with
    what the Update Service answers at that time. *)
Definition handleEvents (DEV : bool) (events : list (UpdateEventType * UpdateEnv))
  : list Act :=
  match addListener DEV with
  | None => []
  | Some listener => flat_map (fun e => listener (snd e) (fst e)) events
  end.

Definition isBgReload (a : Act) : bool :=
  match a with BgReloadAsync => true | _ => false end.

Definition isBgAlert (a : Act) : bool :=
  match a with BgAlert _ _ => true | _ => false end.

Definition isBgCheck (a : Act) : bool :=
  match a with BgCheckForUpdateAsync => true | _ => false end.

Definition isBgFetch (a : Act) : bool :=
  match a with BgFetchUpdateAsync => true | _ => false end.

Definition announces (e : UpdateEventType * UpdateEnv) : bool :=
  match fst e with UPDATE_AVAILABLE => true | _ => false end.

Definition available (e : UpdateEventType * UpdateEnv) : bool :=
  announces e
  && match bgCheck (snd e) with Normal true => true | _ => false end.

Definition downloaded (e : UpdateEventType * UpdateEnv) : bool :=
  available e
  && match bgFetch (snd e) with Normal _ => true | Throw _ => false end.

Definition count (q : Act -> bool) (t : list Act) : nat :=
  List.length (filter q t).

End BackgroundUpdate.

(* ================================================================= *)
(** * Properties of the error capture *)

Module ErrorCaptureFacts.
Import ErrorCapture.

Lemma sliceLast_length (A : Type) (n : nat) (l : list A) :
  (List.length (sliceLast n l) <= n)%nat.
Proof. unfold sliceLast. rewrite length_skipn. lia. Qed.

Lemma sliceLast_short (A : Type) (n : nat) (l : list A) :
  (List.length l <= n)%nat -> sliceLast n l = l.
Proof.
  intros H. unfold sliceLast.
  replace (List.length l - n)%nat with 0%nat by lia. reflexivity.
Qed.

Lemma sliceLast_evicts_head (A : Type) (a x : A) (l : list A) :
  sliceLast (S (List.length l)) ((a :: l) ++ [x]) = l ++ [x].
Proof.
  unfold sliceLast. rewrite length_app. simpl List.length.
  replace (S (List.length l) + 1 - S (List.length l))%nat with 1%nat by lia.
  reflexivity.
Qed.

(** An error whose message can be produced is not [undefined] or
    [null], so its stack can be read. *)
Lemma describable_stack error :
  describable error = true -> exists s, getStack error = Normal s.
Proof.
  unfold describable, messageOrString.
  destruct error; try discriminate; intros _; eexists; reflexivity.
Qed.

Lemma nullish_not_describable error :
  nullish error = true -> describable error = false.
Proof. destruct error; try discriminate; reflexivity. Qed.

(** What the [try] block yields. *)
Lemma tryLog_cases env store error ctx :
  tryLog env store error ctx
  = (if storageWorks env store && describable error
     then Normal (sliceLast maxLogs (entriesOf store ++ [entryFor env error ctx]))
     else tryLog env store error ctx)
  /\ (storageWorks env store && describable error = false ->
      exists e, tryLog env store error ctx = Throw e).
Proof.
  unfold storageWorks, describable, tryLog, entryFor.
  destruct (getItemRejects env); simpl;
    [split; [reflexivity | intros _; eexists; reflexivity] |].
  destruct store; simpl;
    try (rewrite andb_false_r; simpl;
         split; [reflexivity | intros _; eexists; reflexivity]);
    (destruct (messageOrString error) as [m | e] eqn:M;
     [ assert (D : describable error = true) by (unfold describable; rewrite M; reflexivity);
       destruct (describable_stack _ D) as [s ->];
       destruct (setItemRejects env); simpl;
       [ split; [reflexivity | intros _; eexists; reflexivity]
       | split; [reflexivity | discriminate] ]
     | rewrite andb_false_r;
       split; [reflexivity | intros _; eexists; reflexivity] ]).
Qed.

(** The append as a whole: either everything worked and the key holds
    the last 50 of the old entries followed by the new one, or the
    [catch] printed and the key is as it was. *)
Lemma logErrorToStorage_cases env store error ctx :
  logErrorToStorage env store error ctx
  = (if storageWorks env store && describable error
     then mkLogResult
            (Logs (sliceLast maxLogs (entriesOf store ++ [entryFor env error ctx])))
            [] (Normal tt)
     else mkLogResult store [ConsoleError "Failed to log error to storage:"]
                      (Normal tt)).
Proof.
  destruct (tryLog_cases env store error ctx) as [E F].
  unfold logErrorToStorage.
  destruct (storageWorks env store && describable error).
  - rewrite E. reflexivity.
  - destruct (F eq_refl) as [e ->]. reflexivity.
Qed.

(** When nothing fails the key holds the last 50 of the old entries
    followed by the new one. *)
Lemma logErrorToStorage_appends env store error ctx :
  storageWorks env store = true ->
  describable error = true ->
  storeAfter (logErrorToStorage env store error ctx)
  = Logs (sliceLast maxLogs (entriesOf store ++ [entryFor env error ctx])).
Proof.
  intros Hs He. rewrite logErrorToStorage_cases, Hs, He. reflexivity.
Qed.

(** When anything fails the key is left as it was. *)
Lemma logErrorToStorage_swallows env store error ctx :
  storageWorks env store = false \/ describable error = false ->
  logErrorToStorage env store error ctx
  = mkLogResult store [ConsoleError "Failed to log error to storage:"] (Normal tt).
Proof.
  intros H. rewrite logErrorToStorage_cases.
  destruct H as [-> | ->]; [reflexivity | rewrite andb_false_r; reflexivity].
Qed.

Lemma logErrorToStorage_bounded env store error ctx :
  (List.length (entriesOf store) <= maxLogs)%nat ->
  (List.length (entriesOf (storeAfter (logErrorToStorage env store error ctx)))
   <= maxLogs)%nat.
Proof.
  intros H. rewrite logErrorToStorage_cases.
  destruct (storageWorks env store && describable error); simpl; [| exact H].
  apply sliceLast_length.
Qed.

Lemma appendAll_bounded (appends : list Append) :
  forall store,
    (List.length (entriesOf store) <= maxLogs)%nat ->
    (List.length (entriesOf (appendAll store appends)) <= maxLogs)%nat.
Proof.
  induction appends as [| [[env error] ctx] rest IH]; intros store H.
  - exact H.
  - unfold appendAll. simpl. apply IH.
    apply logErrorToStorage_bounded. exact H.
Qed.

(** C5.  Whatever sequence of errors is logged, and whichever of the
    storage calls fail on the way, a log that held at most 50 entries
    holds at most 50 entries afterwards (in particular one that starts
    absent); and logging one more error into a log of exactly 50
    entries (storage working, the text of the error available) leaves
    entries 2 to 50 in their order, followed by the new entry: the
    oldest one is the one evicted. *)
Theorem error_log_bounded_fifo
  (store : Stored) (appends : list Append)
  (env : Env) (error : jsval) (ctx : string)
  (oldest : LogEntry) (others : list LogEntry)
  (Hstore : (List.length (entriesOf store) <= 50)%nat)
  (Hfull : List.length (oldest :: others) = 50%nat)
  (Hworks : storageWorks env (Logs (oldest :: others)) = true)
  (Herror : describable error = true) :
  (List.length (entriesOf (appendAll store appends)) <= 50)%nat
  /\ (List.length (entriesOf (appendAll Absent appends)) <= 50)%nat
  /\ storeAfter (logErrorToStorage env (Logs (oldest :: others)) error ctx)
     = Logs (others ++ [entryFor env error ctx])
  /\ context (entryFor env error ctx) = ctx
  /\ timestamp (entryFor env error ctx) = now env.
Proof.
  split; [| split; [| split; [| split]]].
  - apply appendAll_bounded. exact Hstore.
  - apply appendAll_bounded. simpl. unfold maxLogs. lia.
  - rewrite logErrorToStorage_appends by assumption.
    simpl entriesOf. f_equal.
    assert (L : maxLogs = S (List.length others)).
    { simpl in Hfull. unfold maxLogs. lia. }
    rewrite L. apply sliceLast_evicts_head.
  - reflexivity.
  - reflexivity.
Qed.

Lemma error_log_bounded_fifo_witness :
  (List.length (entriesOf (appendAll (Logs (map sampleEntry (seq 0 50))) sampleAppends))
   <= 50)%nat
  /\ (List.length (entriesOf (appendAll Absent sampleAppends)) <= 50)%nat
  /\ storeAfter (logErrorToStorage devEnv (Logs (map sampleEntry (seq 0 50)))
                   sampleError "Fatal Error")
     = Logs (map sampleEntry (seq 1 49) ++ [entryFor devEnv sampleError "Fatal Error"])
  /\ context (entryFor devEnv sampleError "Fatal Error") = "Fatal Error"
  /\ timestamp (entryFor devEnv sampleError "Fatal Error") = now devEnv.
Proof.
  apply (@error_log_bounded_fifo
           (Logs (map sampleEntry (seq 0 50))) sampleAppends
           devEnv sampleError "Fatal Error"
           (sampleEntry 0) (map sampleEntry (seq 1 49))).
  - vm_compute. lia.
  - reflexivity.
  - reflexivity.
  - reflexivity.
Defined.

(** *** What the handlers do *)

(** The guarded call of the reporter never throws: it sends the error
    it was given, or prints that the reporter failed. *)
Lemma report_cases env error :
  report env error
  = ((if SENTRY_DSN env
      then if captureThrows env then [ConsoleError "Sentry error:"]
           else [SentryCapture error]
      else []),
     Normal tt).
Proof.
  unfold report, captureException.
  destruct (SENTRY_DSN env), (captureThrows env); reflexivity.
Qed.

Lemma errorOf_not_nullish event : nullish event = false -> nullish (errorOf event) = false.
Proof.
  intros H. unfold errorOf.
  destruct event as [| | b | f n | s | r m st repr]; try discriminate; try reflexivity.
  simpl. destruct (truthy r) eqn:T; [| reflexivity].
  destruct r; try discriminate; reflexivity.
Qed.

Lemma getReason_cases event :
  getReason event
  = if nullish event then Throw (typeError "Cannot read property 'reason'")
    else getReason event.
Proof. destruct event; reflexivity. Qed.

(** The rejection handler, case by case: it throws on its first line
    when the event is [undefined] or [null]; otherwise it prints,
    starts the append and calls the reporter, and in a development
    build shows the alert, or throws when the text of the alert cannot
    be produced. *)
Lemma handleUnhandledRejection_cases env store event :
  handleUnhandledRejection env store event
  = if nullish event
    then mkHandlerResult [] None (Throw (typeError "Cannot read property 'reason'"))
    else
      mkHandlerResult
        (ConsoleError "Unhandled promise rejection:"
           :: (if SENTRY_DSN env
               then if captureThrows env then [ConsoleError "Sentry error:"]
                    else [SentryCapture (errorOf event)]
               else [])
           ++ (if DEV env
               then match messageOrString (errorOf event) with
                    | Normal text => [AlertAlert "Unhandled Error" text]
                    | Throw _ => []
                    end
               else []))
        (Some (logErrorToStorage env store (errorOf event)
                 "Unhandled Promise Rejection"))
        (if DEV env
         then match messageOrString (errorOf event) with
              | Normal _ => Normal tt
              | Throw e => Throw e
              end
         else Normal tt).
Proof.
  unfold handleUnhandledRejection, errorOf.
  destruct (nullish event) eqn:N.
  - destruct event; try discriminate N; reflexivity.
  - destruct (getReason event) as [reason |] eqn:R;
      [| destruct event; discriminate].
    cbn [evaluate andThen say pure fst snd app].
    rewrite report_cases.
    set (error := if truthy reason then reason else event).
    cbn [andThen fst snd app].
    destruct (DEV env).
    + destruct (messageOrString error) as [text | e];
        cbn [evaluate andThen say pure fst snd app];
        rewrite ?app_nil_r; reflexivity.
    + cbn [pure]. rewrite !app_nil_r. reflexivity.
Qed.

Lemma handleGlobalError_cases env store error isFatal :
  handleGlobalError env store error isFatal
  = mkHandlerResult
      (ConsoleError "Global error caught:"
         :: (if SENTRY_DSN env
             then if captureThrows env then [ConsoleError "Sentry error:"]
                  else [SentryCapture error]
             else [])
         ++ (if isFatal && negb (DEV env)
             then [ConsoleError "Fatal error prevented app crash"]
             else []))
      (Some (logErrorToStorage env store error
               (if isFatal then "Fatal Error" else "Non-Fatal Error")))
      (Normal tt).
Proof.
  unfold handleGlobalError.
  cbn [andThen say pure fst snd app]. rewrite report_cases.
  destruct (isFatal && negb (DEV env));
    cbn [andThen say pure fst snd app]; rewrite ?app_nil_r; reflexivity.
Qed.

Lemma no_alert_in (l : list Effect) (tail : list Effect) :
  existsb isAlert l = false -> existsb isAlert tail = false ->
  existsb isAlert (l ++ tail) = false.
Proof. intros H1 H2. rewrite existsb_app, H1, H2. reflexivity. Qed.

(** C3 (as the code has it).  For every error it receives,
    [handleGlobalError], the only handler the effect installs, starts
    an append to the error log under the context "Fatal Error" or
    "Non-Fatal Error", which is persisted exactly when storage works
    and the text of the error can be produced; calls the reporter with
    that error exactly when the DSN is configured (a throw of the
    reporter is caught and printed); never shows an alert, fatal or
    not, in any build; prints the crash note exactly for a fatal error
    in a production build; and returns normally.  The alert belongs to
    [handleUnhandledRejection], which is installed nowhere: it shows it
    in a development build, fatal flag or not, with the text of the
    error, whenever the event is not [undefined]/[null] and that text
    can be produced, and never in a production build. *)
Theorem capture_behaviour
  (env : Env) (store : Stored) (error event : jsval) (isFatal errorUtils : bool) :
  let g := handleGlobalError env store error isFatal in
  let r := handleUnhandledRejection env store event in
  let ctx := if isFatal then "Fatal Error" else "Non-Fatal Error" in
  existsb (fun h => match h with UnhandledRejection => true | _ => false end)
          (installed errorUtils) = false
  /\ installed true = [GlobalError]
  /\ logTask g = Some (logErrorToStorage env store error ctx)
  /\ logErrorToStorage env store error ctx
     = (if storageWorks env store && describable error
        then mkLogResult
               (Logs (sliceLast maxLogs (entriesOf store ++ [entryFor env error ctx])))
               [] (Normal tt)
        else mkLogResult store [ConsoleError "Failed to log error to storage:"]
                         (Normal tt))
  /\ effects g
     = ConsoleError "Global error caught:"
         :: (if SENTRY_DSN env
             then if captureThrows env then [ConsoleError "Sentry error:"]
                  else [SentryCapture error]
             else [])
         ++ (if isFatal && negb (DEV env)
             then [ConsoleError "Fatal error prevented app crash"]
             else [])
  /\ existsb isAlert (effects g) = false
  /\ outcome g = Normal tt
  /\ effects r
     = (if nullish event then []
        else ConsoleError "Unhandled promise rejection:"
               :: (if SENTRY_DSN env
                   then if captureThrows env then [ConsoleError "Sentry error:"]
                        else [SentryCapture (errorOf event)]
                   else [])
               ++ (if DEV env
                   then match messageOrString (errorOf event) with
                        | Normal text => [AlertAlert "Unhandled Error" text]
                        | Throw _ => []
                        end
                   else []))
  /\ existsb isAlert (effects r)
     = negb (nullish event) && DEV env && describable (errorOf event).
Proof.
  cbv zeta.
  rewrite handleUnhandledRejection_cases, handleGlobalError_cases.
  cbn [effects logTask outcome].
  split; [destruct errorUtils; reflexivity |].
  split; [reflexivity |]. split; [reflexivity |].
  split; [apply logErrorToStorage_cases |].
  split; [reflexivity |].
  split.
  { destruct (SENTRY_DSN env), (captureThrows env), (isFatal && negb (DEV env));
      reflexivity. }
  split; [reflexivity |].
  split; [destruct (nullish event); reflexivity |].
  unfold describable.
  destruct (nullish event); [reflexivity |]. cbn [effects negb andb].
  destruct (SENTRY_DSN env), (captureThrows env), (DEV env);
    try reflexivity;
    destruct (messageOrString (errorOf event)); reflexivity.
Qed.

(** C3 fails on the code: a fatal error reaching the installed handler
    in a development build (reporter configured) is printed and
    forwarded, and no alert is shown. *)
Lemma fatal_error_in_development_shows_no_alert :
  DEV devEnv = true
  /\ effects (handleGlobalError devEnv Absent sampleError true)
     = [ConsoleError "Global error caught:"; SentryCapture sampleError]
  /\ installed true = [GlobalError].
Proof. repeat split. Qed.

(** C10 (as the code has it).  A failure of the storage read, of the
    parse, of the storage write or of the reporter is caught where it
    happens, whatever the error is: the promise of [logErrorToStorage]
    always fulfils and [handleGlobalError] always returns normally.
    [handleUnhandledRejection] is not total: it returns normally
    exactly when its argument is not [undefined] or [null] and, in a
    development build, the text of the alert can be produced; whether
    it does depends on nothing else, neither on the stored log nor on
    how storage and reporter behave; and the log task it starts always
    fulfils. *)
Theorem capture_never_propagates
  (env env' : Env) (store store' : Stored) (error : jsval) (ctx : string)
  (isFatal : bool) (event : jsval) :
  settled (logErrorToStorage env store error ctx) = Normal tt
  /\ outcome (handleGlobalError env store error isFatal) = Normal tt
  /\ (exists task, logTask (handleGlobalError env store error isFatal) = Some task
                   /\ settled task = Normal tt)
  /\ completes (outcome (handleUnhandledRejection env store event))
     = negb (nullish event) && (negb (DEV env) || describable (errorOf event))
  /\ (DEV env' = DEV env ->
      outcome (handleUnhandledRejection env' store' event)
      = outcome (handleUnhandledRejection env store event))
  /\ (forall task,
        logTask (handleUnhandledRejection env store event) = Some task ->
        settled task = Normal tt).
Proof.
  assert (S : forall e s v c, settled (logErrorToStorage e s v c) = Normal tt).
  { intros e s v c. rewrite logErrorToStorage_cases.
    destruct (storageWorks e s && describable v); reflexivity. }
  rewrite !handleUnhandledRejection_cases, handleGlobalError_cases.
  split; [apply S |]. split; [reflexivity |].
  split; [eexists; split; [reflexivity | apply S] |].
  split; [| split].
  - unfold describable. destruct (nullish event); [reflexivity |].
    cbn [outcome negb andb]. destruct (DEV env); [| reflexivity].
    destruct (messageOrString (errorOf event)); reflexivity.
  - intros ->. destruct (nullish event); reflexivity.
  - intros task. destruct (nullish event); cbn [logTask]; [discriminate |].
    intros E. injection E as <-. apply S.
Qed.

(** C10 fails on the code as stated: the rejection handler throws to
    its caller when it is called with [undefined] (line 140 reads
    [event.reason]), and in a development build when the reason is an
    object without a message that cannot be converted to a string
    (line 152 evaluates [String(error)] outside every [try]); in the
    second case the error has already been printed and sent. *)
Lemma rejection_handler_throws_to_its_caller :
  handleUnhandledRejection devEnv Absent JUndefined
  = mkHandlerResult [] None (Throw (typeError "Cannot read property 'reason'"))
  /\ outcome (handleUnhandledRejection devEnv Absent bareEvent)
     = Throw (typeError "Cannot convert object to primitive value")
  /\ effects (handleUnhandledRejection devEnv Absent bareEvent)
     = [ConsoleError "Unhandled promise rejection:"; SentryCapture bareObject].
Proof. repeat split. Qed.

(** With storage and reporter failing and [null] as the error, nothing
    is stored, the failure is printed, and the handler returns. *)
Example capture_of_null_with_everything_failing :
  handleGlobalError failingEnv Garbage JNull true
  = mkHandlerResult
      [ConsoleError "Global error caught:"; ConsoleError "Sentry error:"]
      (Some (mkLogResult Garbage [ConsoleError "Failed to log error to storage:"]
                         (Normal tt)))
      (Normal tt).
Proof. reflexivity. Qed.

End ErrorCaptureFacts.

(* ================================================================= *)
(** * Properties of the startup sequence *)

Module StartupFacts.
Import Startup Runtime.

(** ** The polling loop *)
Section PollFacts.
Variables interval maxWait : Z.
Hypothesis interval_pos : 0 < interval.

Lemma pollLoop_unfold observe t :
  pollLoop maxWait interval_pos observe t =
  if negb (observe t) && (t <? maxWait)
  then (fst (pollLoop maxWait interval_pos observe (t + interval)),
        Delay AuthPoll interval :: snd (pollLoop maxWait interval_pos observe (t + interval)))
  else (t, []).
Proof.
  funelim (pollLoop maxWait interval_pos observe t);
    match goal with e : _ && _ = _ |- _ => rewrite e end; reflexivity.
Qed.

(** Every action of the loop is one pause of [interval]. *)
Lemma pollLoop_pauses observe t :
  Forall (eq (Delay AuthPoll interval)) (snd (pollLoop maxWait interval_pos observe t)).
Proof.
  funelim (pollLoop maxWait interval_pos observe t); simpl.
  - constructor; [reflexivity | assumption].
  - constructor.
Qed.

(** [authWaitTime] advances by [interval] per iteration. *)
Lemma pollLoop_time observe t :
  fst (pollLoop maxWait interval_pos observe t)
  = t + interval * Z.of_nat (List.length (snd (pollLoop maxWait interval_pos observe t))).
Proof.
  funelim (pollLoop maxWait interval_pos observe t); simpl fst; simpl snd.
  - match goal with IH : fst _ = _ |- _ => rewrite IH end.
    simpl List.length. lia.
  - simpl. lia.
Qed.

(** The test that admitted the last iteration saw a time below the
    ceiling. *)
Lemma pollLoop_ceiling observe t :
  snd (pollLoop maxWait interval_pos observe t) = [] \/ fst (pollLoop maxWait interval_pos observe t) - interval < maxWait.
Proof.
  funelim (pollLoop maxWait interval_pos observe t); simpl fst; simpl snd.
  - right.
    match goal with e : _ && _ = true |- _ =>
      pose proof (proj2 (andb_prop _ _ e)) as Hlt; apply Z.ltb_lt in Hlt end.
    match goal with IH : _ \/ _ |- _ => destruct IH as [Hnil | Hprev] end.
    + pose proof (pollLoop_time observe (t + interval)) as T.
      rewrite Hnil in T. simpl in T. lia.
    + lia.
  - left. reflexivity.
Qed.

(** The loop is left because the flag was seen set or the ceiling
    was reached. *)
Lemma pollLoop_exit observe t :
  observe (fst (pollLoop maxWait interval_pos observe t)) = true \/ maxWait <= fst (pollLoop maxWait interval_pos observe t).
Proof.
  funelim (pollLoop maxWait interval_pos observe t); simpl fst.
  - assumption.
  - match goal with e : _ && _ = false |- _ =>
      destruct (proj1 (andb_false_iff _ _) e) as [Hseen | Hge] end.
    + left. apply negb_false_iff. exact Hseen.
    + right. apply Z.ltb_ge. exact Hge.
Qed.
End PollFacts.

(** With the constants of the component: at most 50 pauses of 100 ms,
    whatever the flag does. *)
Lemma pollLoop_at_most_50 observe :
  let r := pollLoop maxAuthWait authCheckInterval_pos observe 0 in
  (List.length (snd r) <= 50)%nat
  /\ fst r = 100 * Z.of_nat (List.length (snd r))
  /\ fst r <= 5000
  /\ Forall (eq (Delay AuthPoll 100)) (snd r).
Proof.
  cbv zeta.
  pose proof (pollLoop_time maxAuthWait authCheckInterval_pos observe 0) as T.
  pose proof (pollLoop_ceiling maxAuthWait authCheckInterval_pos observe 0) as C.
  pose proof (pollLoop_pauses maxAuthWait authCheckInterval_pos observe 0) as P.
  unfold authCheckInterval, maxAuthWait in *.
  destruct C as [C | C].
  - rewrite C in *. simpl in *. repeat split; try lia. constructor.
  - repeat split; try lia. exact P.
Qed.

(** With the flag never seen set: exactly 50 pauses. *)
Lemma pollLoop_unset_50 :
  List.length (snd (pollLoop maxAuthWait authCheckInterval_pos (fun _ => false) 0))
  = 50%nat.
Proof.
  pose proof (pollLoop_at_most_50 (fun _ => false)) as [L [T _]].
  pose proof (pollLoop_exit maxAuthWait authCheckInterval_pos (fun _ => false) 0) as E.
  unfold authCheckInterval, maxAuthWait in *.
  destruct E as [E | E]; [discriminate |]. lia.
Qed.

(** With the flag set from the start: no pause. *)
Lemma pollLoop_set_0 :
  snd (pollLoop maxAuthWait authCheckInterval_pos (fun _ => true) 0) = [].
Proof. rewrite pollLoop_unfold. reflexivity. Qed.

(** ** Laws of the monad *)

Lemma bind_ok (A B : Type) (m : Proc A) (f : A -> Proc B) a :
  snd m = Ok a -> bind m f = (fst m ++ fst (f a), snd (f a)).
Proof.
  destruct m as [t r]. simpl. intros ->. simpl. destruct (f a). reflexivity.
Qed.

Lemma bind_ok_inv (A B : Type) (m : Proc A) (f : A -> Proc B) b :
  snd (bind m f) = Ok b ->
  exists a, snd m = Ok a /\ snd (f a) = Ok b
            /\ fst (bind m f) = fst m ++ fst (f a).
Proof.
  destruct m as [t [a | e |]]; simpl; try discriminate.
  destruct (f a) as [t' r'] eqn:F. simpl. intros ->.
  exists a. rewrite F. repeat split.
Qed.

Lemma bind_returned_inv (A B : Type) (m : Proc A) (f : A -> Proc B) :
  snd (bind m f) = Returned ->
  (snd m = Returned /\ fst (bind m f) = fst m)
  \/ (exists a, snd m = Ok a /\ snd (f a) = Returned
                /\ fst (bind m f) = fst m ++ fst (f a)).
Proof.
  destruct m as [t [a | e |]]; simpl; try discriminate.
  - destruct (f a) as [t' r'] eqn:F. simpl. intros ->.
    right. exists a. rewrite F. repeat split.
  - intros _. left. split; reflexivity.
Qed.

Lemma bind_thrown_inv (A B : Type) (m : Proc A) (f : A -> Proc B) e :
  snd (bind m f) = Thrown e ->
  snd m = Thrown e \/ exists a, snd m = Ok a /\ snd (f a) = Thrown e.
Proof.
  destruct m as [t [a | e' |]]; simpl; try discriminate.
  - destruct (f a) as [t' r'] eqn:F. simpl. intros ->.
    right. exists a. rewrite F. split; reflexivity.
  - intros H. left. injection H as ->. reflexivity.
Qed.

Lemma tryCatch_not_thrown (A : Type) (m : Proc A) h :
  (forall e, snd m <> Thrown e) -> tryCatch m h = m.
Proof.
  destruct m as [t [a | e |]]; simpl; intros H; try reflexivity.
  exfalso. apply (H e). reflexivity.
Qed.

Lemma tryCatch_thrown (A : Type) (m : Proc A) h e :
  snd m = Thrown e -> tryCatch m h = (fst m ++ fst (h e), snd (h e)).
Proof.
  destruct m as [t r]. simpl. intros ->. simpl. destruct (h e). reflexivity.
Qed.

(** ** Counting actions in a trace *)

Lemma occ_app q t t' : occ q (t ++ t') = (occ q t + occ q t')%nat.
Proof. unfold occ. rewrite filter_app, length_app. reflexivity. Qed.

Lemma occ_none q t : occ q t = 0%nat -> forall a, In a t -> q a = false.
Proof.
  unfold occ. induction t as [| b t IH]; simpl; intros H a Ha; [contradiction |].
  destruct (q b) eqn:Q; [discriminate |].
  destruct Ha as [<- | Ha]; [exact Q | apply IH; assumption].
Qed.

Lemma occ_split q pre a post :
  q a = true -> (1 <= occ q (pre ++ a :: post))%nat.
Proof.
  intros Q. rewrite occ_app. unfold occ at 2. simpl. rewrite Q. simpl. lia.
Qed.

Lemma atMost_bind q n k (A B : Type) (m : Proc A) (f : A -> Proc B) :
  atMost q n m -> (forall a, atMost q k (f a)) -> atMost q (n + k) (bind m f).
Proof.
  unfold atMost. destruct m as [t [a | e |]]; simpl; intros Hm Hf; try lia.
  specialize (Hf a). destruct (f a) as [t' r']. simpl in *.
  rewrite occ_app. lia.
Qed.

Lemma atMost_tryCatch q n k (A : Type) (m : Proc A) h :
  atMost q n m -> (forall e, atMost q k (h e)) -> atMost q (n + k) (tryCatch m h).
Proof.
  unfold atMost. destruct m as [t [a | e |]]; simpl; intros Hm Hh; try lia.
  specialize (Hh e). destruct (h e) as [t' r']. simpl in *.
  rewrite occ_app. lia.
Qed.

(** The one action that ends a list is the only place it occurs. *)
Lemma last_occurrence q (a : Action) :
  q a = true ->
  forall l pre post,
    occ q l = 0%nat -> l ++ [a] = pre ++ a :: post -> pre = l /\ post = [].
Proof.
  intros Q. induction l as [| b l IH]; intros pre post H0 E.
  - destruct pre as [| c pre]; simpl in E.
    + injection E as <-. split; reflexivity.
    + injection E as _ E. destruct pre; discriminate.
  - assert (Qb : q b = false).
    { apply (occ_none q (b :: l) H0). left. reflexivity. }
    destruct pre as [| c pre]; simpl in E.
    + injection E as -> _. congruence.
    + injection E as <- E.
      assert (H1 : occ q l = 0%nat).
      { unfold occ in *. simpl in H0. rewrite Qb in H0. exact H0. }
      destruct (IH pre post H1 E) as [-> ->]. split; reflexivity.
Qed.

(** ** The steps, one by one *)

Lemma occ_le_length q t : (occ q t <= List.length t)%nat.
Proof. unfold occ. apply filter_length_le. Qed.

Lemma occ_all_same q a t : Forall (eq a) t -> q a = false -> occ q t = 0%nat.
Proof.
  unfold occ. induction 1 as [| b t <- _ IH]; intros Q; simpl; [reflexivity |].
  rewrite Q. apply IH. exact Q.
Qed.

Ltac counts := cbn; repeat split; solve [lia | discriminate | reflexivity].

Lemma connectivityStep_counts env :
  atMost isReload 0 (connectivityStep env)
  /\ atMost isPoll 0 (connectivityStep env)
  /\ atMost isReadyOrPacing 0 (connectivityStep env)
  /\ snd (connectivityStep env) <> Returned.
Proof.
  unfold atMost, connectivityStep.
  destruct (importNetInfo env) as [[] |]; [| counts].
  destruct (netInfoFetch env) as [[] |]; counts.
Qed.

Lemma authStep_trace snap :
  authStep snap
  = (SetLoadingMessage "Checking authentication..."
       :: snd (pollLoop maxAuthWait authCheckInterval_pos
                 (fun _ => authChecked snap) 0)
       ++ (if isUnset (initialRouteName snap)
           then [ConsoleLog "Auth check completed, defaulting to Login screen";
                 SetInitialRouteName Login]
           else []),
     Ok tt).
Proof.
  unfold authStep, authWait. simpl.
  destruct (isUnset (initialRouteName snap)); reflexivity.
Qed.

Lemma authStep_counts snap :
  atMost isReload 0 (authStep snap)
  /\ atMost isPoll 50 (authStep snap)
  /\ atMost isReadyOrPacing 0 (authStep snap)
  /\ snd (authStep snap) = Ok tt.
Proof.
  rewrite authStep_trace. unfold atMost. simpl fst. simpl snd.
  destruct (pollLoop_at_most_50 (fun _ => authChecked snap)) as [L [_ [_ P]]].
  change (?a :: ?l ++ ?r) with ([a] ++ l ++ r).
  repeat rewrite occ_app.
  repeat split.
  - rewrite (occ_all_same isReload P) by reflexivity.
    destruct (isUnset _); cbn; lia.
  - pose proof (occ_le_length isPoll
                  (snd (pollLoop maxAuthWait authCheckInterval_pos
                          (fun _ => authChecked snap) 0))).
    destruct (isUnset _); cbn; lia.
  - rewrite (occ_all_same isReadyOrPacing P) by reflexivity.
    destruct (isUnset _); cbn; lia.
Qed.

Lemma notificationStep_counts env :
  atMost isReload 0 (notificationStep env)
  /\ atMost isPoll 0 (notificationStep env)
  /\ atMost isReadyOrPacing 0 (notificationStep env)
  /\ snd (notificationStep env) <> Returned.
Proof.
  unfold atMost, notificationStep.
  destruct (registerPush env) as [[] | e].
  - destruct (setupListeners env) as [[] |]; counts.
  - destruct e; try counts; destruct (setupListeners env) as [[] |]; counts.
Qed.

(** Lines 324-331 on their own: one message and one pause of
    [2000 - e] when [e < 2000], nothing otherwise. *)
Lemma minimumDisplay_cases e :
  (e < 2000 ->
   minimumDisplay e
   = ([SetLoadingMessage "Almost ready..."; Delay MinDisplay (2000 - e)], Ok tt))
  /\ (2000 <= e -> minimumDisplay e = ([], Ok tt)).
Proof.
  unfold minimumDisplay, minDisplayTime. split; intros H.
  - replace (Z.max 0 (2000 - e)) with (2000 - e) by lia.
    destruct (0 <? 2000 - e) eqn:E; [reflexivity |].
    apply Z.ltb_ge in E. lia.
  - replace (Z.max 0 (2000 - e)) with 0 by lia. reflexivity.
Qed.

Lemma minimumDisplay_counts e :
  atMost isReload 0 (minimumDisplay e)
  /\ atMost isPoll 0 (minimumDisplay e)
  /\ snd (minimumDisplay e) = Ok tt.
Proof.
  unfold atMost, minimumDisplay.
  destruct (0 <? Z.max 0 (minDisplayTime - e)); counts.
Qed.

Lemma checkForUpdates_counts DSN env :
  atMost isReload 1 (checkForUpdates DSN env)
  /\ atMost isPoll 0 (checkForUpdates DSN env)
  /\ atMost isReadyOrPacing 0 (checkForUpdates DSN env)
  /\ (forall e, snd (checkForUpdates DSN env) <> Thrown e).
Proof.
  unfold atMost, checkForUpdates.
  destruct (checkForUpdate env) as [[] |];
    destruct (fetchUpdate env) as [[] |];
    destruct DSN; destruct (sentryCapture env) as [[] |]; counts.
Qed.

(** The update step leaves the function only through the reload, and
    the reload comes right after a completed fetch. *)
Lemma checkForUpdates_returned DSN env :
  snd (checkForUpdates DSN env) = Returned ->
  checkForUpdate env = Normal true /\ fetchUpdate env = Normal tt.
Proof.
  unfold checkForUpdates.
  destruct (checkForUpdate env) as [[] |];
    destruct (fetchUpdate env) as [[] |];
    destruct DSN; destruct (sentryCapture env) as [[] |];
    cbn; intros H; try discriminate H; split; reflexivity.
Qed.

Lemma checkForUpdates_reloads DSN env :
  checkForUpdate env = Normal true -> fetchUpdate env = Normal tt ->
  checkForUpdates DSN env = (updateTrace ++ [ReloadAsync], Returned).
Proof. unfold checkForUpdates. intros -> ->. reflexivity. Qed.

Lemma checkForUpdates_fetch_fails DSN env e :
  checkForUpdate env = Normal true -> fetchUpdate env = Throw e ->
  occ isReload (fst (checkForUpdates DSN env)) = 0%nat
  /\ In FetchUpdateAsync (fst (checkForUpdates DSN env))
  /\ snd (checkForUpdates DSN env) = Ok tt.
Proof.
  unfold checkForUpdates. intros -> ->.
  destruct DSN; [destruct (sentryCapture env) as [[] |] |];
    cbn; repeat split; auto 10.
Qed.

Lemma recover_counts snap e :
  atMost isReload 0 (recover snap e)
  /\ atMost isPoll 0 (recover snap e)
  /\ snd (recover snap e) = Ok tt
  /\ exists pre, fst (recover snap e) = pre ++ [SetIsReady].
Proof.
  unfold atMost, recover.
  destruct (isUnset (initialRouteName snap)); cbn; repeat split; try lia.
  - exists [ConsoleError "Error initializing app:"; SetInitialRouteName Login].
    reflexivity.
  - exists [ConsoleError "Error initializing app:"]. reflexivity.
Qed.

(** ** The whole invocation *)

Lemma updateStep_counts DEV DSN env :
  atMost isReload 1 (updateStep DEV DSN env)
  /\ atMost isPoll 0 (updateStep DEV DSN env)
  /\ atMost isReadyOrPacing 0 (updateStep DEV DSN env)
  /\ (forall e, snd (updateStep DEV DSN env) <> Thrown e).
Proof.
  unfold updateStep. destruct DEV; simpl negb; cbv iota.
  - unfold atMost. cbn. repeat split; try lia. discriminate.
  - apply checkForUpdates_counts.
Qed.

Lemma updateStep_cases DEV DSN env :
  (DEV = false /\ checkForUpdate env = Normal true /\ fetchUpdate env = Normal tt
   /\ updateStep DEV DSN env = (updateTrace ++ [ReloadAsync], Returned))
  \/ (occ isReload (fst (updateStep DEV DSN env)) = 0%nat
      /\ snd (updateStep DEV DSN env) = Ok tt).
Proof.
  unfold updateStep. destruct DEV; simpl negb; cbv iota.
  - right. split; reflexivity.
  - unfold checkForUpdates.
    destruct (checkForUpdate env) as [[] |];
      destruct (fetchUpdate env) as [[] |];
      destruct DSN; destruct (sentryCapture env) as [[] |];
      solve [ left; repeat split | right; split; reflexivity ].
Qed.

Lemma startupSequence_unfold DEV DSN snap env :
  startupSequence DEV DSN snap env
  = (emit (SetLoadingMessage "Loading assets...") ;;
     updateStep DEV DSN env ;;
     afterUpdate snap env).
Proof. reflexivity. Qed.

Lemma afterUpdate_counts snap env :
  atMost isReload 0 (afterUpdate snap env)
  /\ atMost isPoll 50 (afterUpdate snap env)
  /\ snd (afterUpdate snap env) <> Returned.
Proof.
  destruct (connectivityStep_counts env) as [Kr [Kp [_ Kn]]].
  destruct (authStep_counts snap) as [A1 [A2 [_ A4]]].
  destruct (notificationStep_counts env) as [N1 [N2 [_ N4]]].
  destruct (minimumDisplay_counts (elapsed env)) as [M1 [M2 M3]].
  assert (E : forall q, q SetIsReady = false -> atMost q 0 (emit SetIsReady)).
  { intros q Q. unfold atMost, occ. simpl. rewrite Q. simpl. lia. }
  unfold afterUpdate. repeat split.
  - apply (atMost_bind (n := 0) (k := 0)); [exact Kr | intros _].
    apply (atMost_bind (n := 0) (k := 0)); [exact A1 | intros _].
    apply (atMost_bind (n := 0) (k := 0)); [exact N1 | intros _].
    apply (atMost_bind (n := 0) (k := 0)); [exact M1 | intros _].
    apply E. reflexivity.
  - apply (atMost_bind (n := 0) (k := 50)); [exact Kp | intros _].
    apply (atMost_bind (n := 50) (k := 0)); [exact A2 | intros _].
    apply (atMost_bind (n := 0) (k := 0)); [exact N2 | intros _].
    apply (atMost_bind (n := 0) (k := 0)); [exact M2 | intros _].
    apply E. reflexivity.
  - intros R.
    apply bind_returned_inv in R. destruct R as [[R _] | [_ [_ [R _]]]]; [tauto |].
    apply bind_returned_inv in R. destruct R as [[R _] | [_ [_ [R _]]]]; [congruence |].
    apply bind_returned_inv in R. destruct R as [[R _] | [_ [_ [R _]]]]; [tauto |].
    apply bind_returned_inv in R. destruct R as [[R _] | [_ [_ [R _]]]]; [congruence |].
    discriminate R.
Qed.

(** When the [try] block runs to its end, its trace is the traces of
    the steps in order, the pacing and [setIsReady(true)] last. *)
Lemma startupSequence_ok DEV DSN snap env :
  snd (startupSequence DEV DSN snap env) = Ok tt ->
  fst (startupSequence DEV DSN snap env)
  = (SetLoadingMessage "Loading assets..." :: fst (updateStep DEV DSN env)
       ++ fst (connectivityStep env) ++ fst (authStep snap)
       ++ fst (notificationStep env))
      ++ fst (minimumDisplay (elapsed env)) ++ [SetIsReady].
Proof.
  rewrite startupSequence_unfold. unfold afterUpdate. intros H.
  apply bind_ok_inv in H. destruct H as [[] [_ [H ->]]].
  apply bind_ok_inv in H. destruct H as [[] [_ [H ->]]].
  apply bind_ok_inv in H. destruct H as [[] [_ [H ->]]].
  apply bind_ok_inv in H. destruct H as [[] [_ [H ->]]].
  apply bind_ok_inv in H. destruct H as [[] [_ [H ->]]].
  apply bind_ok_inv in H. destruct H as [[] [_ [H ->]]].
  simpl. repeat rewrite <- app_assoc. reflexivity.
Qed.

(** C7.  In an invocation whose [try] block runs to its end, with
    [e] the elapsed time computed on line 325: everything up to the
    pacing step neither sets [isReady] nor pauses for the minimum
    display time; then, if [e < 2000], the sequence pauses for exactly
    [2000 - e] ms and sets [isReady]; if [e >= 2000] it sets [isReady]
    with no pause in between. *)
Theorem minimum_display_pacing
  (DEV DSN : bool) (snap : AppState) (env : RunEnv)
  (Hend : snd (startupSequence DEV DSN snap env) = Ok tt) :
  exists pre,
    fst (initializeApp DEV DSN snap env)
    = pre
        ++ (if elapsed env <? 2000
            then [SetLoadingMessage "Almost ready...";
                  Delay MinDisplay (2000 - elapsed env)]
            else [])
        ++ [SetIsReady]
    /\ occ isReadyOrPacing pre = 0%nat.
Proof.
  unfold initializeApp.
  rewrite tryCatch_not_thrown by (intros e; rewrite Hend; discriminate).
  rewrite (startupSequence_ok _ _ _ _ Hend).
  eexists. split.
  - f_equal. f_equal.
    destruct (minimumDisplay_cases (elapsed env)) as [Lt Ge].
    destruct (elapsed env <? 2000) eqn:E.
    + apply Z.ltb_lt in E. rewrite (Lt E). reflexivity.
    + apply Z.ltb_ge in E. rewrite (Ge E). reflexivity.
  - destruct (updateStep_counts DEV DSN env) as [_ [_ [U _]]].
    destruct (connectivityStep_counts env) as [_ [_ [C _]]].
    destruct (authStep_counts snap) as [_ [_ [A _]]].
    destruct (notificationStep_counts env) as [_ [_ [N _]]].
    unfold atMost in *.
    change (?a :: ?l) with ([a] ++ l).
    repeat rewrite occ_app. cbn [occ filter isReadyOrPacing List.length]. lia.
Qed.

Lemma minimum_display_pacing_witness :
  exists pre,
    fst (initializeApp false false routedSnapshot (calmEnv 800))
    = pre
        ++ (if elapsed (calmEnv 800) <? 2000
            then [SetLoadingMessage "Almost ready...";
                  Delay MinDisplay (2000 - elapsed (calmEnv 800))]
            else [])
        ++ [SetIsReady]
    /\ occ isReadyOrPacing pre = 0%nat.
Proof.
  apply (@minimum_display_pacing false false routedSnapshot (calmEnv 800)).
  vm_compute. reflexivity.
Defined.

(** The invocation never ends on an exception: it ends having called
    [setIsReady(true)] last, or by the reload. *)
Lemma initializeApp_finishes DEV DSN snap env :
  (snd (initializeApp DEV DSN snap env) = Ok tt
   /\ exists pre, fst (initializeApp DEV DSN snap env) = pre ++ [SetIsReady])
  \/ (snd (initializeApp DEV DSN snap env) = Returned
      /\ exists pre, fst (initializeApp DEV DSN snap env) = pre ++ [ReloadAsync]).
Proof.
  unfold initializeApp.
  destruct (snd (startupSequence DEV DSN snap env)) as [[] | e |] eqn:R.
  - left. rewrite tryCatch_not_thrown by (intros e; rewrite R; discriminate).
    split; [exact R |].
    rewrite (startupSequence_ok _ _ _ _ R).
    eexists. rewrite app_assoc. reflexivity.
  - left. rewrite (tryCatch_thrown _ _ R). cbn [fst snd].
    destruct (recover_counts snap e) as [_ [_ [Rk [pre Rt]]]].
    split; [exact Rk |]. rewrite Rt. eexists. rewrite app_assoc. reflexivity.
  - right. rewrite tryCatch_not_thrown by (intros e; rewrite R; discriminate).
    split; [exact R |].
    rewrite startupSequence_unfold in *.
    apply bind_returned_inv in R.
    destruct R as [[R _] | [[] [_ [R ->]]]]; [discriminate R |].
    apply bind_returned_inv in R.
    destruct R as [[R ->] | [[] [_ [R _]]]].
    + destruct (updateStep_cases DEV DSN env) as [[_ [_ [_ U]]] | [_ U]].
      * rewrite U. cbn [fst]. eexists. rewrite app_assoc. reflexivity.
      * rewrite U in R. discriminate R.
    + exfalso. destruct (afterUpdate_counts snap env) as [_ [_ N]]. tauto.
Qed.

Lemma initializeApp_no_reload DEV DSN snap env :
  occ isReload (fst (updateStep DEV DSN env)) = 0%nat ->
  occ isReload (fst (initializeApp DEV DSN snap env)) = 0%nat.
Proof.
  intros U0.
  assert (Z : atMost isReload 0 (initializeApp DEV DSN snap env)).
  { unfold initializeApp.
    apply (atMost_tryCatch (n := 0) (k := 0)).
    - rewrite startupSequence_unfold.
      apply (atMost_bind (n := 0) (k := 0)); [unfold atMost; cbn; lia | intros _].
      apply (atMost_bind (n := 0) (k := 0)); [unfold atMost; lia | intros _].
      apply afterUpdate_counts.
    - intros e. apply recover_counts. }
  unfold atMost in Z. lia.
Qed.

(** Within one invocation the reload is called at most once, after
    the fetch, and it is the last thing the invocation does. *)
Lemma reload_after_fetch DEV DSN snap env pre post :
  fst (initializeApp DEV DSN snap env) = pre ++ ReloadAsync :: post ->
  In FetchUpdateAsync pre /\ post = [].
Proof.
  intros E.
  destruct (updateStep_cases DEV DSN env) as [[_ [_ [_ U]]] | [U0 Uk]].
  - assert (T : initializeApp DEV DSN snap env
                = ((SetLoadingMessage "Loading assets..." :: updateTrace)
                     ++ [ReloadAsync], Returned)).
    { unfold initializeApp. rewrite startupSequence_unfold, U. reflexivity. }
    rewrite T in E. cbn [fst] in E.
    apply (last_occurrence isReload) in E; [| reflexivity | reflexivity].
    destruct E as [-> ->]. split; [| reflexivity].
    simpl. auto 10.
  - exfalso.
    pose proof (initializeApp_no_reload DEV DSN snap env U0) as Z.
    rewrite E in Z.
    pose proof (@occ_split isReload pre ReloadAsync post eq_refl). lia.
Qed.

(** The trace of a computation starts with the trace of its first part. *)
Lemma bind_prefix (A B : Type) (m : Proc A) (f : A -> Proc B) :
  exists rest, fst (bind m f) = fst m ++ rest.
Proof.
  destruct m as [t [a | e |]]; simpl.
  - destruct (f a) as [t' r']. exists t'. reflexivity.
  - exists []. rewrite app_nil_r. reflexivity.
  - exists []. rewrite app_nil_r. reflexivity.
Qed.

Lemma tryCatch_prefix (A : Type) (m : Proc A) h :
  exists rest, fst (tryCatch m h) = fst m ++ rest.
Proof.
  destruct m as [t [a | e |]]; simpl.
  - exists []. rewrite app_nil_r. reflexivity.
  - destruct (h e) as [t' r']. exists t'. reflexivity.
  - exists []. rewrite app_nil_r. reflexivity.
Qed.

(** In a production build that is told an update is available, the
    invocation goes on to call the fetch. *)
Lemma update_available_fetches DSN snap env :
  checkForUpdate env = Normal true ->
  exists rest,
    fst (initializeApp false DSN snap env)
    = [SetLoadingMessage "Loading assets...";
       SetLoadingMessage "Checking for updates..."; CheckForUpdateAsync;
       ConsoleLog "Update available, fetching...";
       SetLoadingMessage "Downloading update..."; FetchUpdateAsync] ++ rest.
Proof.
  intros Hc. unfold initializeApp.
  destruct (tryCatch_prefix (startupSequence false DSN snap env) (recover snap))
    as [r1 ->].
  rewrite startupSequence_unfold.
  rewrite (@bind_ok unit unit (emit (SetLoadingMessage "Loading assets...")) _ tt
             eq_refl).
  cbn [fst].
  destruct (bind_prefix (updateStep false DSN env) (fun _ => afterUpdate snap env))
    as [r2 ->].
  unfold updateStep, checkForUpdates. simpl negb. cbv iota. rewrite Hc.
  destruct (fetchUpdate env) as [[] | e].
  - eexists. cbn. reflexivity.
  - destruct DSN; [destruct (sentryCapture env) as [[] |] |];
      eexists; cbn; reflexivity.
Qed.

Lemma initializeApp_polls DEV DSN snap env :
  (occ isPoll (fst (initializeApp DEV DSN snap env)) <= 50)%nat.
Proof.
  change (atMost isPoll (50 + 0) (initializeApp DEV DSN snap env)).
  unfold initializeApp. apply atMost_tryCatch.
  - rewrite startupSequence_unfold.
    apply (atMost_bind (n := 0) (k := 50)); [unfold atMost; cbn; lia | intros _].
    apply (atMost_bind (n := 0) (k := 50));
      [apply updateStep_counts | intros _].
    apply afterUpdate_counts.
  - intros e. apply recover_counts.
Qed.

(** C9.  The polling loop, started at 0 with interval 100 and ceiling
    5000, ends after at most 50 pauses of 100 ms whatever values the
    test reads in [authChecked], also when it never reads [true] (then
    after exactly 50); a whole invocation of [initializeApp] therefore
    contains at most 50 such pauses, never ends on an exception, and
    goes on to its end: [setIsReady(true)], or the reload. *)
Theorem auth_wait_terminates
  (observe : Z -> bool) (DEV DSN : bool) (snap : AppState) (env : RunEnv) :
  let r := pollLoop maxAuthWait authCheckInterval_pos observe 0 in
  let run := initializeApp DEV DSN snap env in
  (List.length (snd r) <= 50)%nat
  /\ Forall (eq (Delay AuthPoll 100)) (snd r)
  /\ fst r = 100 * Z.of_nat (List.length (snd r))
  /\ fst r <= 5000
  /\ List.length (snd (pollLoop maxAuthWait authCheckInterval_pos (fun _ => false) 0))
     = 50%nat
  /\ snd (authStep snap) = Ok tt
  /\ (occ isPoll (fst run) <= 50)%nat
  /\ ((snd run = Ok tt /\ exists pre, fst run = pre ++ [SetIsReady])
      \/ (snd run = Returned /\ exists pre, fst run = pre ++ [ReloadAsync])).
Proof.
  cbv zeta.
  destruct (pollLoop_at_most_50 observe) as [L [T [C P]]].
  split; [exact L |]. split; [exact P |]. split; [exact T |].
  split; [exact C |]. split; [apply pollLoop_unset_50 |].
  split; [apply authStep_counts |]. split; [apply initializeApp_polls |].
  apply initializeApp_finishes.
Qed.

End StartupFacts.

(* ================================================================= *)
(** * Properties of the component at run time *)

Module RuntimeFacts.
Import Startup Runtime StartupFacts.

(** ** How often the startup sequence is started *)

Lemma apply_authChecked_mono s a :
  authChecked s = true -> authChecked (apply s a) = true.
Proof. destruct a; simpl; auto. Qed.

Lemma applyAll_authChecked_mono acts :
  forall s, authChecked s = true -> authChecked (applyAll s acts) = true.
Proof.
  induction acts as [| a acts IH]; intros s H; simpl; [exact H |].
  apply IH. apply apply_authChecked_mono. exact H.
Qed.

Lemma apply_isReady_mono s a :
  isReady s = true -> isReady (apply s a) = true.
Proof. destruct a; simpl; auto. Qed.

Lemma applyAll_isReady_mono acts :
  forall s, isReady s = true -> isReady (applyAll s acts) = true.
Proof.
  induction acts as [| a acts IH]; intros s H; simpl; [exact H |].
  apply IH. apply apply_isReady_mono. exact H.
Qed.

Lemma setNth_length (A : Type) (x : A) l : forall n,
  List.length (setNth n x l) = List.length l.
Proof.
  induction l as [| h t IH]; intros [| n]; simpl; try reflexivity.
  rewrite IH. reflexivity.
Qed.

Section Counting.
Variables DEV DSN : bool.
Variable envs : nat -> RunEnv.

Lemma start_invocations sys :
  List.length (invocations (start DEV DSN envs sys))
  = S (List.length (invocations sys)).
Proof.
  unfold start. destruct (nextSegment _) as [seg rest]. simpl.
  rewrite length_app. simpl. lia.
Qed.

Lemma start_authChecked sys :
  authChecked (state sys) = true ->
  authChecked (state (start DEV DSN envs sys)) = true.
Proof.
  unfold start. destruct (nextSegment _) as [seg rest]. simpl.
  apply applyAll_authChecked_mono.
Qed.

Lemma runEffects_count before sys :
  (authChecked before = true -> authChecked (state sys) = true) ->
  (List.length (invocations sys) = 1%nat
   \/ (List.length (invocations sys) = 2%nat /\ authChecked before = true)) ->
  startedAtMostTwice (runEffects DEV DSN envs before sys).
Proof.
  intros Mono H. unfold runEffects, startedAtMostTwice.
  destruct (restarted sys).
  { destruct H as [H | [H B]]; [left; exact H | right; auto]. }
  set (sys1 := if Bool.eqb (isReady before) (isReady (state sys))
               then sys else resubscribe sys).
  assert (I1 : invocations sys1 = invocations sys)
    by (subst sys1; destruct (Bool.eqb _ _); reflexivity).
  assert (S1 : state sys1 = state sys)
    by (subst sys1; destruct (Bool.eqb _ _); reflexivity).
  destruct (Bool.eqb (authChecked before) (authChecked (state sys))) eqn:E.
  - rewrite I1, S1. destruct H as [H | [H B]]; [left; exact H | right; auto].
  - apply eqb_false_iff in E.
    destruct (authChecked before) eqn:B.
    + exfalso. apply E. symmetry. apply Mono. reflexivity.
    + right. rewrite start_invocations, I1.
      destruct H as [H | [_ H]]; [| discriminate H].
      split; [rewrite H; reflexivity |].
      apply start_authChecked. rewrite S1.
      destruct (authChecked (state sys)); [reflexivity | congruence].
Qed.

Lemma step_count sys i :
  startedAtMostTwice sys -> startedAtMostTwice (step DEV DSN envs sys i).
Proof.
  intros H. unfold step.
  destruct (restarted sys) eqn:R; [exact H |].
  destruct i as [n | ev].
  - destruct (nth_error (invocations sys) n) as [[| a k] |]; try exact H.
    destruct (nextSegment (a :: k)) as [seg rest].
    apply runEffects_count; simpl.
    + apply applyAll_authChecked_mono.
    + rewrite setNth_length. exact H.
  - destruct (onAuthEvent (subscription sys) ev) as [acts sub'].
    apply runEffects_count; simpl.
    + apply applyAll_authChecked_mono.
    + exact H.
Qed.

Lemma mount_count : startedAtMostTwice (mount DEV DSN envs).
Proof.
  left. unfold mount. rewrite start_invocations. reflexivity.
Qed.

Lemma run_count inputs : startedAtMostTwice (run DEV DSN envs inputs).
Proof.
  unfold run. generalize mount_count. generalize (mount DEV DSN envs).
  induction inputs as [| i inputs IH]; intros sys H; simpl; [exact H |].
  apply IH. apply step_count. exact H.
Qed.
End Counting.

(** C4 (as the code has it).  Whatever the collaborators do and in
    whatever order the pending calls settle and the listener is
    called, [initializeApp] has been started once or twice, never
    more, and twice only once [authChecked] has become true: the
    effect that owns it is keyed on [authChecked] and is run again by
    that change. *)
Theorem startup_started_at_most_twice
  (DEV DSN : bool) (envs : nat -> RunEnv) (inputs : list Input) :
  let sys := run DEV DSN envs inputs in
  (1 <= List.length (invocations sys) <= 2)%nat
  /\ (List.length (invocations sys) = 1%nat \/ authChecked (state sys) = true).
Proof.
  cbv zeta. destruct (run_count DEV DSN envs inputs) as [H | [H A]].
  - rewrite H. split; [lia | left; reflexivity].
  - rewrite H, A. split; [lia | right; reflexivity].
Qed.

(** ** Concrete launches *)

(** C4 fails on the code: once the listener has reported, the whole
    sequence has been started a second time, and each of its steps is
    executed twice in the same launch. *)
Lemma startup_sequence_runs_twice :
  let sys := run true false calmEnvs earlySignIn in
  invocations sys = [[]; []]
  /\ times NetInfoFetch (history sys) = 2%nat
  /\ times (Delay Settle 500) (history sys) = 2%nat
  /\ times RegisterForPushNotifications (history sys) = 2%nat
  /\ times SetupNotificationListeners (history sys) = 2%nat
  /\ times SetIsReady (history sys) = 2%nat.
Proof. vm_compute. repeat split. Qed.

(** C1 (the code at the failing input).  A signed-in user is reported
    early: the listener writes [MainApp], the second invocation sets
    [isReady] with that route, and afterwards the first invocation,
    whose closure still reads the [null] of the first render, writes
    [Login]: two writes of a route, the second after [isReady]. *)
Theorem route_rewritten_after_ready :
  let sys := run true false calmEnvs earlySignIn in
  routeWrites (history sys) = [MainApp; Login]
  /\ routeAtReady initialState (history sys) = Some MainApp
  /\ routeWrites (afterReady (history sys)) = [Login]
  /\ state sys = mkState true (Some Login) "Finalizing..." true.
Proof. vm_compute. repeat split. Qed.

(** C2 (the code at the failing input).  A signed-in user is reported
    after 49 of the 50 pauses, before the wait has elapsed: the
    listener writes [MainApp], the first invocation leaves the loop
    and writes [Login] over it, and [isReady] is set with the route
    [Login], which is also the final one. *)
Theorem signed_in_user_routed_to_login :
  let before := run true false calmEnvs (repeat (Resume 0%nat) 51) in
  let sys := run true false calmEnvs lateSignIn in
  occ isPoll (history before) = 49%nat
  /\ initialRouteName (state before) = None
  /\ routeWrites (history sys) = [MainApp; Login]
  /\ routeAtReady initialState (history sys) = Some Login
  /\ initialRouteName (state sys) = Some Login
  /\ isReady (state sys) = true
  /\ invocations sys = [[]; []].
Proof. vm_compute. repeat split. Qed.

(** C6 (the code at the failing input).  The listener has written
    [MainApp] when the connectivity probe of the first invocation
    rejects: the handler, reading the [null] its closure captured,
    writes [Login] over the route that was already set, then sets
    [isReady]. *)
Theorem recovery_overwrites_route :
  let before := run true false offlineEnvs [Resume 0; Auth SignedIn] in
  let sys := run true false offlineEnvs [Resume 0; Auth SignedIn; Resume 0] in
  initialRouteName (state before) = Some MainApp
  /\ isReady (state before) = false
  /\ history sys
     = history before
         ++ [ConsoleError "Error initializing app:"; SetInitialRouteName Login;
             SetIsReady; StopAllListeners]
  /\ initialRouteName (state sys) = Some Login
  /\ isReady (state sys) = true.
Proof. vm_compute. repeat split. Qed.

(** The other two cases of the routing decision, on the same build:
    a listener that reports no user, and one that never reports. *)
Example signed_out_user_routed_to_login :
  let sys := run true false calmEnvs
               ([Resume 0; Resume 0; Resume 0; Auth SignedOut]
                  ++ repeat (Resume 1) 6 ++ repeat (Resume 0) 53) in
  routeWrites (history sys) = [Login; Login]
  /\ routeAtReady initialState (history sys) = Some Login
  /\ initialRouteName (state sys) = Some Login
  /\ isReady (state sys) = true.
Proof. vm_compute. repeat split. Qed.

Example no_callback_defaults_to_login :
  let sys := run true false calmEnvs (repeat (Resume 0%nat) 56) in
  occ isPoll (history sys) = 50%nat
  /\ routeWrites (history sys) = [Login]
  /\ state sys = mkState true (Some Login) "Finalizing..." false
  /\ invocations sys = [[]].
Proof. vm_compute. repeat split. Qed.

(** ** What never goes back *)

Lemma apply_route_kept s a r :
  initialRouteName s = Some r -> exists r', initialRouteName (apply s a) = Some r'.
Proof. destruct a; simpl; intros H; eauto. Qed.

Section Stability.
Variables DEV DSN : bool.
Variable envs : nat -> RunEnv.

Lemma perform_state acts sys :
  state (perform acts sys) = applyAll (state sys) acts.
Proof. reflexivity. Qed.

Lemma start_isReady sys :
  isReady (state sys) = true -> isReady (state (start DEV DSN envs sys)) = true.
Proof.
  unfold start. destruct (nextSegment _) as [seg rest]. simpl.
  apply applyAll_isReady_mono.
Qed.

Lemma runEffects_isReady before sys :
  isReady (state sys) = true ->
  isReady (state (runEffects DEV DSN envs before sys)) = true.
Proof.
  intros H. unfold runEffects. destruct (restarted sys); [exact H |].
  assert (H1 : isReady (state (if Bool.eqb (isReady before) (isReady (state sys))
                               then sys else resubscribe sys)) = true)
    by (destruct (Bool.eqb _ _); exact H).
  destruct (Bool.eqb (authChecked before) (authChecked (state sys)));
    [exact H1 | apply start_isReady; exact H1].
Qed.

(** [isReady] goes from false to true and stays there. *)
Lemma step_isReady sys i :
  isReady (state sys) = true -> isReady (state (step DEV DSN envs sys i)) = true.
Proof.
  intros H. unfold step. destruct (restarted sys); [exact H |].
  destruct i as [n | ev].
  - destruct (nth_error (invocations sys) n) as [[| a k] |]; try exact H.
    destruct (nextSegment (a :: k)) as [seg rest].
    apply runEffects_isReady. simpl. apply applyAll_isReady_mono. exact H.
  - destruct (onAuthEvent (subscription sys) ev) as [acts sub'].
    apply runEffects_isReady. simpl. apply applyAll_isReady_mono. exact H.
Qed.

Lemma run_isReady inputs more :
  isReady (state (run DEV DSN envs inputs)) = true ->
  isReady (state (run DEV DSN envs (inputs ++ more))) = true.
Proof.
  unfold run. rewrite fold_left_app.
  generalize (fold_left (step DEV DSN envs) inputs (mount DEV DSN envs)).
  induction more as [| i more IH]; intros sys H; simpl; [exact H |].
  apply IH. apply step_isReady. exact H.
Qed.
End Stability.

(** ** The reload ends the launch *)

Lemma nextSegment_app k : fst (nextSegment k) ++ snd (nextSegment k) = k.
Proof.
  induction k as [| a k IH]; simpl; [reflexivity |].
  destruct (suspends a); simpl; [reflexivity |].
  destruct (nextSegment k) as [seg rest]. simpl in *. rewrite IH. reflexivity.
Qed.

Lemma nextSegment_shape k :
  (exists seg0 a, fst (nextSegment k) = seg0 ++ [a]
                  /\ suspends a = true /\ noSuspension seg0)
  \/ (snd (nextSegment k) = [] /\ noSuspension (fst (nextSegment k))).
Proof.
  induction k as [| a k IH]; simpl.
  - right. split; [reflexivity | intros a []].
  - destruct (suspends a) eqn:S; simpl.
    + left. exists [], a. repeat split; [exact S | intros b []].
    + destruct (nextSegment k) as [seg rest]. simpl in *.
      destruct IH as [[seg0 [b [E [Sb N]]]] | [E N]].
      * left. exists (a :: seg0), b. rewrite E. repeat split; [exact Sb |].
        intros c [<- | Hc]; [exact S | apply N; exact Hc].
      * right. split; [exact E |].
        intros c [<- | Hc]; [exact S | apply N; exact Hc].
Qed.

Lemma noSuspension_no_reload l : noSuspension l -> occ isReload l = 0%nat.
Proof.
  unfold occ. induction l as [| a l IH]; intros N; simpl; [reflexivity |].
  assert (Sa : suspends a = false) by (apply N; left; reflexivity).
  destruct a; try discriminate Sa; simpl;
    apply IH; intros b Hb; apply N; right; exact Hb.
Qed.

Lemma noSuspension_no_fetch l : noSuspension l -> ~ In FetchUpdateAsync l.
Proof. intros N H. specialize (N _ H). discriminate N. Qed.

Lemma occ_existsb q l : occ q l = 0%nat -> existsb q l = false.
Proof.
  unfold occ. induction l as [| a l IH]; simpl; [reflexivity |].
  destruct (q a); simpl; [discriminate | exact IH].
Qed.

Lemma guarded_mono h x k : guarded h k -> guarded (h ++ x) k.
Proof.
  intros G pre post E. destruct (G pre post E) as [P [F | F]].
  - split; [exact P | left; exact F].
  - split; [exact P | right; apply in_or_app; left; exact F].
Qed.

Lemma guarded_rest h seg rest : guarded h (seg ++ rest) -> guarded (h ++ seg) rest.
Proof.
  intros G pre post E.
  destruct (G (seg ++ pre) post) as [P F].
  { rewrite E, app_assoc. reflexivity. }
  split; [exact P |].
  destruct F as [F | F].
  - apply in_app_or in F. destruct F as [F | F].
    + right. apply in_or_app. right. exact F.
    + left. exact F.
  - right. apply in_or_app. left. exact F.
Qed.

Lemma guarded_nil h : guarded h [].
Proof. intros [| a pre] post E; discriminate E. Qed.

(** Performing the next segment of a guarded continuation. *)
Lemma perform_segment st invs sub h k :
  occ isReload h = 0%nat ->
  guarded h k ->
  Forall (guarded (h ++ fst (nextSegment k))) invs ->
  reloadInv (perform (fst (nextSegment k)) (mkSys st invs sub h false)).
Proof.
  intros H0 G F. unfold reloadInv, perform. cbn [restarted history invocations].
  split; [| exact F].
  pose proof (nextSegment_app k) as A.
  destruct (nextSegment_shape k) as [[seg0 [a [E [Sa N]]]] | [E N]].
  - rewrite E in *. rewrite existsb_app. simpl existsb.
    rewrite (occ_existsb _ _ (noSuspension_no_reload N)). simpl.
    destruct (isReload a) eqn:R; simpl.
    + destruct a; try discriminate R.
      destruct (G seg0 (snd (nextSegment k))) as [_ [Fx | Fx]].
      { rewrite <- app_assoc in A. symmetry. exact A. }
      { exfalso. exact (noSuspension_no_fetch N Fx). }
      exists (h ++ seg0). rewrite app_assoc. split; [reflexivity |].
      split.
      * rewrite occ_app, H0, (noSuspension_no_reload N). reflexivity.
      * apply in_or_app. left. exact Fx.
    + repeat rewrite occ_app. rewrite H0, (noSuspension_no_reload N).
      unfold occ. cbn [filter]. rewrite R. reflexivity.
  - rewrite (occ_existsb _ _ (noSuspension_no_reload N)). simpl.
    rewrite occ_app, H0, (noSuspension_no_reload N). reflexivity.
Qed.

Section Reload.
Variables DEV DSN : bool.
Variable envs : nat -> RunEnv.

Lemma start_reloadInv sys :
  restarted sys = false -> reloadInv sys -> reloadInv (start DEV DSN envs sys).
Proof.
  intros R [H0 F]. rewrite R in H0. unfold start.
  set (k := fst (initializeApp DEV DSN (state sys)
                   (envs (List.length (invocations sys))))).
  pose proof (nextSegment_app k) as A.
  destruct (nextSegment k) as [seg rest] eqn:N.
  rewrite R.
  change seg with (fst (seg, rest)). rewrite <- N.
  assert (G : guarded (history sys) k).
  { intros pre post E. subst k.
    destruct (reload_after_fetch _ _ _ _ _ _ E) as [Fx P].
    split; [exact P | left; exact Fx]. }
  apply perform_segment; [exact H0 | exact G |].
  apply Forall_app. split.
  - eapply Forall_impl; [| exact F]. intros x. apply guarded_mono.
  - constructor; [| constructor].
    rewrite N in *. simpl in *. apply guarded_rest. rewrite A. exact G.
Qed.

Lemma resubscribe_reloadInv sys :
  restarted sys = false -> reloadInv sys -> reloadInv (resubscribe sys).
Proof.
  intros R [H0 F]. rewrite R in H0. unfold reloadInv, resubscribe.
  cbn [restarted history invocations]. rewrite R. split.
  - rewrite occ_app, H0. reflexivity.
  - eapply Forall_impl; [| exact F]. intros x. apply guarded_mono.
Qed.

Lemma runEffects_reloadInv before sys :
  reloadInv sys -> reloadInv (runEffects DEV DSN envs before sys).
Proof.
  intros I. unfold runEffects. destruct (restarted sys) eqn:R; [exact I |].
  assert (I1 : reloadInv (if Bool.eqb (isReady before) (isReady (state sys))
                          then sys else resubscribe sys)
               /\ restarted (if Bool.eqb (isReady before) (isReady (state sys))
                             then sys else resubscribe sys) = false).
  { destruct (Bool.eqb (isReady before) (isReady (state sys))).
    - split; assumption.
    - split; [apply resubscribe_reloadInv; assumption | exact R]. }
  destruct I1 as [I1 R1].
  destruct (Bool.eqb (authChecked before) (authChecked (state sys)));
    [exact I1 | apply start_reloadInv; assumption].
Qed.

Lemma Forall_setNth (A : Type) (P : A -> Prop) (x : A) l :
  Forall P l -> P x -> forall n, Forall P (setNth n x l).
Proof.
  intros F Px. induction F as [| h t Ph Pt IH]; intros [| n]; simpl;
    constructor; auto.
Qed.

Lemma onAuthEvent_quiet sub ev :
  occ isReload (fst (onAuthEvent sub ev)) = 0%nat.
Proof.
  unfold onAuthEvent.
  destruct ev, (negb (hasSetInitialRoute sub) && negb (capturedIsReady sub));
    reflexivity.
Qed.

Lemma step_reloadInv sys i :
  reloadInv sys -> reloadInv (step DEV DSN envs sys i).
Proof.
  intros I. unfold step. destruct (restarted sys) eqn:R; [exact I |].
  destruct I as [H0 F]. rewrite R in H0.
  destruct i as [n | ev].
  - destruct (nth_error (invocations sys) n) as [[| a k] |] eqn:E;
      try (split; [rewrite R; exact H0 | exact F]).
    assert (G : guarded (history sys) (a :: k)).
    { rewrite Forall_forall in F. apply F. eapply nth_error_In. exact E. }
    pose proof (nextSegment_app (a :: k)) as A.
    destruct (nextSegment (a :: k)) as [seg rest] eqn:N.
    apply runEffects_reloadInv.
    change seg with (fst (seg, rest)). rewrite <- N.
    apply perform_segment; [exact H0 | exact G |].
    rewrite N. simpl fst. simpl in A.
    apply Forall_setNth.
    + eapply Forall_impl; [| exact F]. intros x. apply guarded_mono.
    + apply guarded_rest. rewrite A. exact G.
  - pose proof (onAuthEvent_quiet (subscription sys) ev) as Q.
    destruct (onAuthEvent (subscription sys) ev) as [acts sub']. simpl in Q.
    apply runEffects_reloadInv.
    unfold reloadInv, perform. cbn [restarted history invocations].
    rewrite (occ_existsb _ _ Q). simpl. split.
    + rewrite occ_app, H0, Q. reflexivity.
    + eapply Forall_impl; [| exact F]. intros x. apply guarded_mono.
Qed.

Lemma mount_reloadInv : reloadInv (mount DEV DSN envs).
Proof.
  unfold mount. apply start_reloadInv; [reflexivity |].
  split; [reflexivity | constructor].
Qed.

Lemma run_reloadInv inputs : reloadInv (run DEV DSN envs inputs).
Proof.
  unfold run. generalize mount_reloadInv. generalize (mount DEV DSN envs).
  induction inputs as [| i inputs IH]; intros sys I; simpl; [exact I |].
  apply IH. apply step_reloadInv. exact I.
Qed.

(** In the history of a launch a reload is preceded by a fetch and
    followed by nothing. *)
Lemma history_reload_last inputs pre post :
  history (run DEV DSN envs inputs) = pre ++ ReloadAsync :: post ->
  In FetchUpdateAsync pre /\ post = [].
Proof.
  intros E. destruct (run_reloadInv inputs) as [H _].
  destruct (restarted (run DEV DSN envs inputs)).
  - destruct H as [pre0 [E0 [Z Fx]]]. rewrite E0 in E.
    apply (last_occurrence isReload) in E; [| reflexivity | exact Z].
    destruct E as [-> ->]. split; [exact Fx | reflexivity].
  - exfalso. rewrite E in H.
    pose proof (@occ_split isReload pre ReloadAsync post eq_refl). lia.
Qed.

(** Once restarted, the component reacts to nothing. *)
Lemma step_after_restart sys i :
  restarted sys = true -> step DEV DSN envs sys i = sys.
Proof. intros R. unfold step. rewrite R. reflexivity. Qed.
End Reload.

Lemma run_after_restart DEV DSN envs inputs more :
  restarted (run DEV DSN envs inputs) = true ->
  run DEV DSN envs (inputs ++ more) = run DEV DSN envs inputs.
Proof.
  unfold run. rewrite fold_left_app.
  generalize (fold_left (step DEV DSN envs) inputs (mount DEV DSN envs)).
  induction more as [| i more IH]; intros sys R; simpl; [reflexivity |].
  rewrite step_after_restart by exact R. apply IH. exact R.
Qed.

(** C8.  In a production build, an invocation of the startup sequence
    that is told an update is available calls the fetch; if the fetch
    succeeds it calls the reload next and does nothing after it; if the
    fetch fails it never calls the reload.  In the launch as a whole,
    with both invocations and the listener interleaved in any order, a
    reload in the history is preceded by a fetch and is the last action
    of the history: once it is called, no later input makes the
    component do anything. *)
Theorem update_fetch_before_reload
  (DSN : bool) (envs : nat -> RunEnv) (inputs more : list Input)
  (snap : AppState) (i : nat)
  (Havailable : checkForUpdate (envs i) = Normal true) :
  let t := fst (initializeApp false DSN snap (envs i)) in
  let sys := run false DSN envs inputs in
  (exists rest,
      t = [SetLoadingMessage "Loading assets...";
           SetLoadingMessage "Checking for updates..."; CheckForUpdateAsync;
           ConsoleLog "Update available, fetching...";
           SetLoadingMessage "Downloading update..."; FetchUpdateAsync] ++ rest)
  /\ (forall pre post,
         t = pre ++ ReloadAsync :: post -> In FetchUpdateAsync pre /\ post = [])
  /\ match fetchUpdate (envs i) with
     | Normal _ =>
         initializeApp false DSN snap (envs i)
         = (SetLoadingMessage "Loading assets..." :: updateTrace ++ [ReloadAsync],
            Returned)
     | Throw _ => occ isReload t = 0%nat
     end
  /\ (forall pre post,
         history sys = pre ++ ReloadAsync :: post ->
         In FetchUpdateAsync pre /\ post = [])
  /\ (if restarted sys
      then run false DSN envs (inputs ++ more) = sys
      else occ isReload (history sys) = 0%nat).
Proof.
  cbv zeta.
  split; [apply update_available_fetches; exact Havailable |].
  split; [intros pre post; apply reload_after_fetch |].
  split.
  { destruct (fetchUpdate (envs i)) as [[] | e] eqn:F.
    - unfold initializeApp. rewrite startupSequence_unfold.
      unfold updateStep. simpl negb. cbv iota.
      rewrite (checkForUpdates_reloads DSN _ Havailable F). reflexivity.
    - apply initializeApp_no_reload. unfold updateStep. simpl negb. cbv iota.
      apply (checkForUpdates_fetch_fails DSN _ Havailable F). }
  split; [intros pre post; apply history_reload_last |].
  destruct (restarted (run false DSN envs inputs)) eqn:R.
  - apply run_after_restart. exact R.
  - destruct (run_reloadInv false DSN envs inputs) as [H _].
    rewrite R in H. exact H.
Qed.

Lemma update_fetch_before_reload_witness :
  let t := fst (initializeApp false true initialState (updateEnvs 0)) in
  let sys := run false true updateEnvs [Resume 0; Resume 0] in
  (exists rest,
      t = [SetLoadingMessage "Loading assets...";
           SetLoadingMessage "Checking for updates..."; CheckForUpdateAsync;
           ConsoleLog "Update available, fetching...";
           SetLoadingMessage "Downloading update..."; FetchUpdateAsync] ++ rest)
  /\ (forall pre post,
         t = pre ++ ReloadAsync :: post -> In FetchUpdateAsync pre /\ post = [])
  /\ match fetchUpdate (updateEnvs 0) with
     | Normal _ =>
         initializeApp false true initialState (updateEnvs 0)
         = (SetLoadingMessage "Loading assets..." :: updateTrace ++ [ReloadAsync],
            Returned)
     | Throw _ => occ isReload t = 0%nat
     end
  /\ (forall pre post,
         history sys = pre ++ ReloadAsync :: post ->
         In FetchUpdateAsync pre /\ post = [])
  /\ (if restarted sys
      then run false true updateEnvs
             ([Resume 0; Resume 0] ++ [Auth SignedIn; Resume 0; Resume 1]) = sys
      else occ isReload (history sys) = 0%nat).
Proof.
  apply (@update_fetch_before_reload true updateEnvs [Resume 0; Resume 0]
           [Auth SignedIn; Resume 0; Resume 1] initialState 0%nat).
  reflexivity.
Defined.

(** The same launch, step by step: the reload is the last action, and
    what is scheduled after it changes nothing. *)
Example production_update_launch :
  let sys := run false true updateEnvs [Resume 0; Resume 0] in
  history sys
  = [SetLoadingMessage "Loading assets...";
     SetLoadingMessage "Checking for updates..."; CheckForUpdateAsync;
     ConsoleLog "Update available, fetching...";
     SetLoadingMessage "Downloading update..."; FetchUpdateAsync;
     ConsoleLog "Update downloaded, reloading app..."; ReloadAsync]
  /\ restarted sys = true
  /\ isReady (state sys) = false
  /\ run false true updateEnvs [Resume 0; Resume 0; Auth SignedIn; Resume 0] = sys.
Proof. vm_compute. repeat split. Qed.

End RuntimeFacts.

(* ================================================================= *)
(** * More on the error log *)

Module ErrorLogFacts.
Import ErrorCapture ErrorCaptureFacts LogTasks.

Lemma sliceLast_idem (A : Type) (n : nat) (l m : list A) :
  sliceLast n (sliceLast n l ++ m) = sliceLast n (l ++ m).
Proof.
  unfold sliceLast.
  destruct (Nat.le_gt_cases (List.length l) n) as [H | H].
  - replace (List.length l - n)%nat with 0%nat by lia. reflexivity.
  - rewrite !length_app, length_skipn.
    replace (List.length l - (List.length l - n) + List.length m - n)%nat
      with (List.length m) by lia.
    replace (List.length l + List.length m - n)%nat
      with (List.length m + (List.length l - n))%nat by lia.
    rewrite <- skipn_skipn. f_equal.
    rewrite skipn_app.
    replace (List.length l - n - List.length l)%nat with 0%nat by lia.
    reflexivity.
Qed.

Lemma sliceLast_drops_old (A : Type) (n : nat) (l m : list A) :
  (n <= List.length m)%nat -> sliceLast n (l ++ m) = sliceLast n m.
Proof.
  intros H. unfold sliceLast. rewrite length_app, skipn_app.
  replace (List.length l + List.length m - n - List.length l)%nat
    with (List.length m - n)%nat by lia.
  rewrite skipn_all2 by lia. reflexivity.
Qed.

Lemma sliceLast_last (A : Type) (n : nat) (l : list A) (x d : A) :
  last (sliceLast (S n) (l ++ [x])) d = x.
Proof.
  unfold sliceLast. rewrite length_app. simpl List.length.
  rewrite skipn_app.
  replace (List.length l + 1 - S n - List.length l)%nat with 0%nat by lia.
  simpl skipn. apply last_last.
Qed.

(** X1.  An append that fails, because the read or the write of the
    key rejects, because the stored text does not parse, or because the
    text of the error cannot be produced (the error is [undefined] or
    [null], or it has no message and cannot be converted to a string),
    leaves the key exactly as it was, prints one diagnostic and
    fulfils: for the log it is as if the call had not been made. *)
Theorem failed_append_changes_nothing
  (env : Env) (store : Stored) (error : jsval) (ctx : string) (more : list Append)
  (Hfails : storageWorks env store = false \/ describable error = false) :
  logErrorToStorage env store error ctx
  = mkLogResult store [ConsoleError "Failed to log error to storage:"] (Normal tt)
  /\ appendAll store ((env, error, ctx) :: more) = appendAll store more.
Proof.
  pose proof (logErrorToStorage_swallows env store error ctx Hfails) as E.
  split; [exact E |].
  unfold appendAll. cbn [fold_left]. rewrite E. reflexivity.
Qed.

Lemma failed_append_changes_nothing_witness :
  logErrorToStorage failingEnv (Logs [sampleEntry 0]) sampleError "Fatal Error"
  = mkLogResult (Logs [sampleEntry 0])
      [ConsoleError "Failed to log error to storage:"] (Normal tt)
  /\ appendAll (Logs [sampleEntry 0])
       ((failingEnv, sampleError, "Fatal Error") :: twoCalls)
     = appendAll (Logs [sampleEntry 0]) twoCalls.
Proof.
  apply (@failed_append_changes_nothing failingEnv (Logs [sampleEntry 0])
           sampleError "Fatal Error" twoCalls).
  left. reflexivity.
Defined.

Lemma isGarbage_after env store error ctx :
  isGarbage (storeAfter (logErrorToStorage env store error ctx)) = isGarbage store.
Proof.
  rewrite logErrorToStorage_cases.
  destruct (storageWorks env store && describable error) eqn:W; [| reflexivity].
  apply andb_prop in W. destruct W as [W _].
  unfold storageWorks in W. destruct store; try reflexivity.
  rewrite andb_false_r in W. discriminate W.
Qed.

Lemma emptyText_as_absent env error ctx :
  logErrorToStorage env EmptyText error ctx
  = (if storageWorks env Absent && describable error
     then logErrorToStorage env Absent error ctx
     else mkLogResult EmptyText [ConsoleError "Failed to log error to storage:"]
                      (Normal tt)).
Proof.
  rewrite !logErrorToStorage_cases.
  replace (storageWorks env EmptyText) with (storageWorks env Absent) by reflexivity.
  destruct (storageWorks env Absent && describable error); reflexivity.
Qed.

(** X2.  A run of appends neither corrupts the key nor repairs it:
    whatever is logged and however storage behaves, a text that
    [JSON.parse] rejects or that is not an array stays exactly as it
    is, and a key that held an array, nothing or the empty string never
    comes to hold such a text.  The empty string is no such text: it
    is treated like a missing key, so the entries after any run of
    appends are the same from either. *)
Theorem corruption_neither_repaired_nor_caused
  (store : Stored) (appends : list Append) :
  isGarbage (appendAll store appends) = isGarbage store
  /\ appendAll Garbage appends = Garbage
  /\ entriesOf (appendAll EmptyText appends) = entriesOf (appendAll Absent appends).
Proof.
  split; [| split].
  - revert store. induction appends as [| [[env error] ctx] rest IH]; intros store.
    + reflexivity.
    + unfold appendAll in *. cbn [fold_left]. rewrite IH. apply isGarbage_after.
  - induction appends as [| [[env error] ctx] rest IH]; [reflexivity |].
    unfold appendAll in *. cbn [fold_left].
    rewrite (logErrorToStorage_swallows env Garbage error ctx).
    + exact IH.
    + left. unfold storageWorks. apply andb_false_r.
  - induction appends as [| [[env error] ctx] rest IH]; [reflexivity |].
    unfold appendAll in *. cbn [fold_left].
    rewrite emptyText_as_absent.
    rewrite (logErrorToStorage_cases env Absent error ctx).
    destruct (storageWorks env Absent && describable error); [reflexivity |].
    exact IH.
Qed.

Lemma sliceLast_length_min (A : Type) (n : nat) (l : list A) :
  List.length (sliceLast n l) = Nat.min n (List.length l).
Proof. unfold sliceLast. rewrite length_skipn. lia. Qed.

Lemma successful_append (env : Env) (store : Stored) (error : jsval) (ctx : string) :
  isGarbage store = false -> succeeds (env, error, ctx) = true ->
  storeAfter (logErrorToStorage env store error ctx)
  = Logs (sliceLast maxLogs (entriesOf store ++ [entryFor env error ctx])).
Proof.
  unfold succeeds. intros G S.
  apply andb_prop in S. destruct S as [S Hn].
  apply andb_prop in S. destruct S as [Hg Hs].
  apply logErrorToStorage_appends.
  - unfold storageWorks. rewrite Hg, Hs. destruct store; try reflexivity; discriminate.
  - exact Hn.
Qed.

Lemma successful_appends (appends : list Append) :
  forall store,
    isGarbage store = false ->
    (List.length (entriesOf store) <= maxLogs)%nat ->
    forallb succeeds appends = true ->
    entriesOf (appendAll store appends)
    = sliceLast maxLogs (entriesOf store ++ entriesFor appends).
Proof.
  induction appends as [| [[env error] ctx] rest IH]; intros store G B S.
  - simpl. rewrite app_nil_r. symmetry. apply sliceLast_short. exact B.
  - simpl in S. apply andb_prop in S. destruct S as [Sa Sr].
    unfold appendAll in *. cbn [fold_left].
    rewrite (successful_append env store error ctx G Sa).
    rewrite IH; [| reflexivity | apply sliceLast_length | exact Sr].
    simpl entriesOf. rewrite sliceLast_idem, <- app_assoc. reflexivity.
Qed.

(** X3.  Appends compose: starting from a key that is absent or holds
    at most 50 entries, a run of appends that all succeed leaves the
    last 50 of the old entries followed by the new ones, in the order
    logged; the log then holds [min 50 (old + new)] entries. *)
Theorem successful_appends_keep_the_last_fifty
  (store : Stored) (appends : list Append)
  (Hstore : isGarbage store = false)
  (Hbound : (List.length (entriesOf store) <= 50)%nat)
  (Hall : forallb succeeds appends = true) :
  entriesOf (appendAll store appends)
  = sliceLast 50 (entriesOf store ++ entriesFor appends)
  /\ List.length (entriesOf (appendAll store appends))
     = Nat.min 50 (List.length (entriesOf store) + List.length appends).
Proof.
  pose proof (successful_appends appends store Hstore Hbound Hall) as E.
  split; [exact E |].
  rewrite E. change maxLogs with 50%nat.
  rewrite sliceLast_length_min, length_app.
  unfold entriesFor. rewrite length_map. reflexivity.
Qed.

Lemma successful_appends_keep_the_last_fifty_witness :
  entriesOf (appendAll Absent sampleAppends)
  = sliceLast 50 (entriesOf Absent ++ entriesFor sampleAppends)
  /\ List.length (entriesOf (appendAll Absent sampleAppends))
     = Nat.min 50 (List.length (entriesOf Absent) + List.length sampleAppends).
Proof.
  apply (@successful_appends_keep_the_last_fifty Absent sampleAppends).
  - reflexivity.
  - simpl. lia.
  - vm_compute. reflexivity.
Defined.

(** X4.  The entry of the error just logged is always the last one of
    the stored log (it is never the one evicted); its message is the
    error's own non-empty [message], else [String(error)]; and its stack
    is never empty, "No stack trace" standing in for a missing one. *)
Theorem newest_entry_is_kept
  (env : Env) (store : Stored) (error : jsval) (ctx : string) (d : LogEntry)
  (Hworks : storageWorks env store = true)
  (Herror : describable error = true) :
  let entry := entryFor env error ctx in
  last (entriesOf (storeAfter (logErrorToStorage env store error ctx))) d = entry
  /\ context entry = ctx
  /\ nonempty (stack entry) = true
  /\ (getMessage error = Normal (Some (message entry))
        /\ nonempty (message entry) = true
      \/ toStr error = Normal (message entry)).
Proof.
  cbv zeta. split.
  - rewrite logErrorToStorage_appends by assumption.
    simpl entriesOf. apply sliceLast_last.
  - split; [reflexivity |]. split.
    + unfold entryFor. simpl stack.
      destruct (getStack error) as [[s |] |]; try reflexivity.
      simpl. destruct (nonempty s) eqn:N; [exact N | reflexivity].
    + unfold entryFor. cbn [message].
      unfold describable, messageOrString in *.
      destruct error as [| | [] | f n | s | r m st repr];
        try discriminate Herror; try (right; reflexivity).
      cbn [getMessage toStr] in *.
      destruct m as [m |]; [destruct (nonempty m) eqn:N |].
      * left. split; [reflexivity | exact N].
      * right. destruct repr; [reflexivity | discriminate Herror].
      * right. destruct repr; [reflexivity | discriminate Herror].
Qed.

Lemma newest_entry_is_kept_witness :
  let entry := entryFor devEnv emptyMessageError "Non-Fatal Error" in
  last (entriesOf (storeAfter
          (logErrorToStorage devEnv (Logs (map sampleEntry (seq 0 50)))
             emptyMessageError "Non-Fatal Error"))) (sampleEntry 0) = entry
  /\ context entry = "Non-Fatal Error"
  /\ nonempty (stack entry) = true
  /\ (getMessage emptyMessageError = Normal (Some (message entry))
        /\ nonempty (message entry) = true
      \/ toStr emptyMessageError = Normal (message entry)).
Proof.
  apply (@newest_entry_is_kept devEnv (Logs (map sampleEntry (seq 0 50)))
           emptyMessageError "Non-Fatal Error" (sampleEntry 0));
    reflexivity.
Defined.

(** ** Overlapping appends *)

Lemma buildLogs_tryLog env store error ctx :
  tryLog env store error ctx
  = match buildLogs env store error ctx with
    | Normal kept =>
        if setItemRejects env then Throw (mkError "setItem" "") else Normal kept
    | Throw e => Throw e
    end.
Proof.
  unfold tryLog, buildLogs.
  destruct (getItemRejects env); [reflexivity |].
  destruct store; try reflexivity;
    destruct (messageOrString error); try reflexivity;
    destruct (getStack error); reflexivity.
Qed.

Lemma buildLogs_bounded env store error ctx kept :
  buildLogs env store error ctx = Normal kept ->
  (List.length kept <= maxLogs)%nat.
Proof.
  unfold buildLogs.
  destruct (getItemRejects env); [discriminate |].
  destruct store; try discriminate;
    destruct (messageOrString error); try discriminate;
    destruct (getStack error); try discriminate;
    intros E; injection E as <-; apply sliceLast_length.
Qed.

Lemma setNth_Forall (A : Type) (P : A -> Prop) (x : A) l :
  Forall P l -> P x -> forall n, Forall P (Runtime.setNth n x l).
Proof.
  intros F Px. induction F as [| h t Ph Pt IH]; intros [| n]; simpl;
    constructor; auto.
Qed.

Lemma settle_bounded sys i :
  (List.length (entriesOf (stored sys)) <= maxLogs)%nat ->
  Forall taskBounded (tasks sys) ->
  (List.length (entriesOf (stored (settle sys i))) <= maxLogs)%nat
  /\ Forall taskBounded (tasks (settle sys i)).
Proof.
  intros B F. unfold settle.
  destruct (nth_error (tasks sys) i) as [[env error ctx | env kept | printed] |] eqn:E;
    try (split; assumption).
  - simpl. split; [exact B |].
    apply setNth_Forall; [exact F |].
    destruct (buildLogs env (stored sys) error ctx) as [kept |] eqn:K; simpl; [| exact I].
    eapply buildLogs_bounded. exact K.
  - assert (K : taskBounded (AwaitingWrite env kept)).
    { rewrite Forall_forall in F. apply F. eapply nth_error_In. exact E. }
    destruct (setItemRejects env); simpl.
    + split; [exact B | apply setNth_Forall; [exact F | exact I]].
    + split; [exact K | apply setNth_Forall; [exact F | exact I]].
Qed.

(** X5.  Resumed twice in a row, a call of [logErrorToStorage] does
    what the function does as a whole; and however the reads and writes
    of any number of calls in flight are interleaved, a log that held
    at most 50 entries never holds more. *)
Theorem log_bounded_under_overlap
  (env : Env) (store : Stored) (error : jsval) (ctx : string)
  (calls : list Append) (schedule : list nat)
  (Hbound : (List.length (entriesOf store) <= 50)%nat) :
  settleAll (launch store [(env, error, ctx)]) [0%nat; 0%nat]
  = mkLogSys (storeAfter (logErrorToStorage env store error ctx))
             [Finished (logged (logErrorToStorage env store error ctx))]
  /\ (List.length (entriesOf (stored (settleAll (launch store calls) schedule)))
      <= 50)%nat.
Proof.
  split.
  - unfold settleAll, launch, logErrorToStorage. simpl. unfold settle at 2. simpl.
    rewrite buildLogs_tryLog.
    destruct (buildLogs env store error ctx) as [kept | e]; simpl.
    + unfold settle. simpl. destruct (setItemRejects env); reflexivity.
    + reflexivity.
  - assert (G : forall sched sys,
               (List.length (entriesOf (stored sys)) <= maxLogs)%nat ->
               Forall taskBounded (tasks sys) ->
               (List.length (entriesOf (stored (settleAll sys sched))) <= maxLogs)%nat).
    { induction sched as [| i sched IH]; intros sys B F; simpl; [exact B |].
      destruct (settle_bounded sys i B F) as [B' F']. apply IH; assumption. }
    apply G; [exact Hbound |].
    unfold launch. simpl. apply Forall_forall. intros t Ht.
    apply in_map_iff in Ht. destruct Ht as [[[e1 e2] e3] [<- _]]. exact I.
Qed.

Lemma log_bounded_under_overlap_witness :
  settleAll (launch Absent [(devEnv, sampleError, "Fatal Error")]) [0%nat; 0%nat]
  = mkLogSys (storeAfter (logErrorToStorage devEnv Absent sampleError "Fatal Error"))
             [Finished (logged (logErrorToStorage devEnv Absent sampleError
                                                  "Fatal Error"))]
  /\ (List.length
        (entriesOf (stored (settleAll (launch Absent twoCalls)
                                      [0%nat; 1%nat; 1%nat; 0%nat])))
      <= 50)%nat.
Proof.
  apply (@log_bounded_under_overlap devEnv Absent sampleError "Fatal Error"
           twoCalls [0%nat; 1%nat; 1%nat; 0%nat]).
  simpl. lia.
Defined.

(** X6.  Two appends in flight at once lose an entry: when both calls
    read the key before either writes it, the write that lands last
    replaces the other, and the log ends with only that call's entry
    added; run one after the other, the same two calls add both. *)
Theorem overlapping_appends_lose_an_entry
  (store : Stored) (first second : Append)
  (Hstore : isGarbage store = false)
  (Hfirst : succeeds first = true)
  (Hsecond : succeeds second = true) :
  stored (settleAll (launch store [first; second]) [0%nat; 1%nat; 0%nat; 1%nat])
  = Logs (sliceLast 50 (entriesOf store ++ entriesFor [second]))
  /\ stored (settleAll (launch store [first; second]) [0%nat; 1%nat; 1%nat; 0%nat])
     = Logs (sliceLast 50 (entriesOf store ++ entriesFor [first]))
  /\ stored (settleAll (launch store [first; second]) [0%nat; 0%nat; 1%nat; 1%nat])
     = Logs (sliceLast 50 (entriesOf store ++ entriesFor [first; second])).
Proof.
  destruct first as [[env1 error1] ctx1], second as [[env2 error2] ctx2].
  unfold succeeds in Hfirst, Hsecond.
  apply andb_prop in Hfirst. destruct Hfirst as [Hfirst N1].
  apply andb_prop in Hfirst. destruct Hfirst as [G1 S1].
  apply andb_prop in Hsecond. destruct Hsecond as [Hsecond N2].
  apply andb_prop in Hsecond. destruct Hsecond as [G2 S2].
  apply negb_true_iff in G1, S1, G2, S2.
  assert (B : forall env error ctx st,
             getItemRejects env = false -> describable error = true ->
             isGarbage st = false ->
             buildLogs env st error ctx
             = Normal (sliceLast maxLogs (entriesOf st ++ [entryFor env error ctx]))).
  { intros env error ctx st Hg Hn Hs. unfold buildLogs, entryFor. rewrite Hg.
    destruct (describable_stack _ Hn) as [s ->].
    unfold describable in Hn.
    destruct (messageOrString error); [| discriminate Hn].
    destruct st; try discriminate; reflexivity. }
  unfold settleAll, launch, settle. simpl.
  rewrite !B by assumption. simpl. rewrite S1, S2. simpl.
  rewrite B by (assumption || reflexivity). simpl. rewrite S1, S2. simpl.
  split; [reflexivity |]. split; [reflexivity |].
  change maxLogs with 50%nat.
  rewrite sliceLast_idem, <- app_assoc. reflexivity.
Qed.

Lemma overlapping_appends_lose_an_entry_witness :
  stored (settleAll (launch Absent twoCalls) [0%nat; 1%nat; 0%nat; 1%nat])
  = Logs (sliceLast 50 (entriesOf Absent
                         ++ entriesFor [(devEnv, stringError, "Non-Fatal Error")]))
  /\ stored (settleAll (launch Absent twoCalls) [0%nat; 1%nat; 1%nat; 0%nat])
     = Logs (sliceLast 50 (entriesOf Absent
                            ++ entriesFor [(devEnv, sampleError, "Fatal Error")]))
  /\ stored (settleAll (launch Absent twoCalls) [0%nat; 0%nat; 1%nat; 1%nat])
     = Logs (sliceLast 50 (entriesOf Absent ++ entriesFor twoCalls)).
Proof.
  apply (@overlapping_appends_lose_an_entry Absent
           (devEnv, sampleError, "Fatal Error")
           (devEnv, stringError, "Non-Fatal Error"));
    reflexivity.
Defined.

End ErrorLogFacts.

(* ================================================================= *)
(** * More on one invocation of [initializeApp] *)

Module InvocationFacts.
Import JS Startup Runtime Shell StartupFacts.

Lemma occ_mono q q' t :
  (forall a, q a = true -> q' a = true) -> (occ q t <= occ q' t)%nat.
Proof.
  intros H. unfold occ. induction t as [| a t IH]; simpl; [lia |].
  destruct (q a) eqn:Q.
  - rewrite (H a Q). simpl. lia.
  - destruct (q' a); simpl; lia.
Qed.

Lemma occ_zero_forallb q t :
  occ q t = 0%nat <-> forallb (fun a => negb (q a)) t = true.
Proof.
  unfold occ. induction t as [| a t IH]; simpl; [tauto |].
  destruct (q a); simpl; [split; discriminate | exact IH].
Qed.

Lemma atMost_emit q a : q a = false -> atMost q 0 (emit a).
Proof. intros Q. unfold atMost, occ. simpl. rewrite Q. simpl. lia. Qed.

Section Vocabulary.
Variables DEV DSN : bool.

Lemma connectivityStep_vocabulary env :
  atMost (notEmitted DEV DSN) 0 (connectivityStep env).
Proof.
  unfold atMost, connectivityStep.
  destruct (importNetInfo env) as [[] |]; [| counts].
  destruct (netInfoFetch env) as [[] |]; counts.
Qed.

Lemma authStep_vocabulary snap :
  atMost (notEmitted DEV DSN) 0 (authStep snap).
Proof.
  rewrite authStep_trace. unfold atMost. simpl fst.
  destruct (pollLoop_at_most_50 (fun _ => authChecked snap)) as [_ [_ [_ P]]].
  change (?a :: ?l ++ ?r) with ([a] ++ l ++ r).
  repeat rewrite occ_app.
  rewrite (occ_all_same (notEmitted DEV DSN) P) by reflexivity.
  destruct (isUnset _); cbn; lia.
Qed.

Lemma notificationStep_vocabulary env :
  atMost (notEmitted DEV DSN) 0 (notificationStep env).
Proof.
  unfold atMost, notificationStep.
  destruct (registerPush env) as [[] | e].
  - destruct (setupListeners env) as [[] |]; counts.
  - destruct e; try counts; destruct (setupListeners env) as [[] |]; counts.
Qed.

Lemma minimumDisplay_vocabulary e :
  atMost (notEmitted DEV DSN) 0 (minimumDisplay e).
Proof.
  unfold atMost, minimumDisplay. cbv zeta.
  generalize (Z.max 0 (minDisplayTime - e)). intros r.
  destruct (0 <? r) eqn:E; [| counts].
  unfold occ, notEmitted. simpl. rewrite E. simpl. lia.
Qed.

Lemma updateStep_vocabulary env :
  atMost (notEmitted DEV DSN) 0 (updateStep DEV DSN env).
Proof.
  unfold atMost, updateStep. destruct DEV; simpl negb; cbv iota; [counts |].
  unfold checkForUpdates.
  destruct (checkForUpdate env) as [[] |];
    destruct (fetchUpdate env) as [[] |];
    destruct DSN; destruct (sentryCapture env) as [[] |]; counts.
Qed.

Lemma recover_vocabulary snap e :
  atMost (notEmitted DEV DSN) 0 (recover snap e).
Proof.
  unfold atMost, recover. destruct (isUnset (initialRouteName snap)); counts.
Qed.

Lemma afterUpdate_vocabulary snap env :
  atMost (notEmitted DEV DSN) 0 (afterUpdate snap env).
Proof.
  unfold afterUpdate.
  apply (atMost_bind (n := 0) (k := 0));
    [apply connectivityStep_vocabulary | intros _].
  apply (atMost_bind (n := 0) (k := 0)); [apply authStep_vocabulary | intros _].
  apply (atMost_bind (n := 0) (k := 0));
    [apply notificationStep_vocabulary | intros _].
  apply (atMost_bind (n := 0) (k := 0));
    [apply minimumDisplay_vocabulary | intros _].
  apply atMost_emit. reflexivity.
Qed.

(** Whatever the collaborators do, an invocation performs only
    actions of [mayEmit]. *)
Lemma initializeApp_vocabulary snap env :
  occ (notEmitted DEV DSN) (fst (initializeApp DEV DSN snap env)) = 0%nat.
Proof.
  assert (H : atMost (notEmitted DEV DSN) 0 (initializeApp DEV DSN snap env)).
  { unfold initializeApp.
    apply (atMost_tryCatch (n := 0) (k := 0));
      [| intros e; apply recover_vocabulary].
    rewrite startupSequence_unfold.
    apply (atMost_bind (n := 0) (k := 0));
      [apply atMost_emit; reflexivity | intros _].
    apply (atMost_bind (n := 0) (k := 0));
      [apply updateStep_vocabulary | intros _].
    apply afterUpdate_vocabulary. }
  unfold atMost in H. lia.
Qed.

Lemma initializeApp_never q snap env :
  (forall a, q a = true -> mayEmit DEV DSN a = false) ->
  occ q (fst (initializeApp DEV DSN snap env)) = 0%nat.
Proof.
  intros H.
  pose proof (initializeApp_vocabulary snap env) as V.
  pose proof (@occ_mono q (notEmitted DEV DSN)
                (fst (initializeApp DEV DSN snap env))) as M.
  assert (occ q (fst (initializeApp DEV DSN snap env))
          <= occ (notEmitted DEV DSN) (fst (initializeApp DEV DSN snap env)))%nat.
  { apply M. intros a Q. unfold notEmitted. rewrite (H a Q). reflexivity. }
  lia.
Qed.

Lemma initializeApp_only snap env a :
  In a (fst (initializeApp DEV DSN snap env)) -> mayEmit DEV DSN a = true.
Proof.
  intros I.
  pose proof (occ_none _ _ (initializeApp_vocabulary snap env) a I) as N.
  unfold notEmitted in N. destruct (mayEmit DEV DSN a); [reflexivity | discriminate].
Qed.
End Vocabulary.

(** ** The first segment *)

Lemma bind_emit_trace (B : Type) a (f : unit -> Proc B) :
  fst (bind (emit a) f) = a :: fst (f tt).
Proof. unfold emit, bind. destruct (f tt). reflexivity. Qed.

Lemma bind_call_prefix (A B : Type) a (o : completion A) (f : A -> Proc B) :
  exists rest, fst (bind (call a o) f) = a :: rest.
Proof.
  destruct (bind_prefix (call a o) f) as [rest E]. exists rest. exact E.
Qed.

Lemma connectivityStep_first env :
  exists rest, fst (connectivityStep env) = ImportNetInfo :: rest.
Proof. unfold connectivityStep. apply bind_call_prefix. Qed.

Lemma checkForUpdates_first DSN env :
  exists rest,
    fst (checkForUpdates DSN env)
    = SetLoadingMessage "Checking for updates..." :: CheckForUpdateAsync :: rest.
Proof.
  unfold checkForUpdates.
  match goal with
  | |- context [tryCatch ?m ?h] => destruct (tryCatch_prefix m h) as [r1 E1]
  end.
  rewrite E1, bind_emit_trace.
  match goal with
  | |- context [bind (call ?a ?o) ?f] => destruct (bind_call_prefix a o f) as [r2 E2]
  end.
  rewrite E2. exists (r2 ++ r1). reflexivity.
Qed.

(** An invocation runs without interruption up to its first awaited
    call: the import of the connectivity probe in a development build,
    the update check otherwise. *)
Lemma initializeApp_first_segment DEV DSN snap env :
  exists rest, fst (initializeApp DEV DSN snap env) = firstSegment DEV ++ rest.
Proof.
  unfold initializeApp.
  destruct (tryCatch_prefix (startupSequence DEV DSN snap env) (recover snap))
    as [r1 E1].
  rewrite E1, startupSequence_unfold, bind_emit_trace.
  destruct (bind_prefix (updateStep DEV DSN env) (fun _ => afterUpdate snap env))
    as [r2 E2].
  unfold firstSegment. destruct DEV.
  - clear E2. unfold updateStep. simpl negb. cbv iota.
    unfold ret, bind at 1.
    destruct (afterUpdate snap env) as [t r] eqn:F. simpl fst.
    assert (Ft : t = fst (afterUpdate snap env)) by (rewrite F; reflexivity).
    unfold afterUpdate in Ft.
    destruct (bind_prefix (connectivityStep env)
                (fun _ => authStep snap ;; notificationStep env ;;
                          minimumDisplay (elapsed env) ;; emit SetIsReady))
      as [r3 E3].
    rewrite E3 in Ft. destruct (connectivityStep_first env) as [r4 E4].
    rewrite E4 in Ft. rewrite Ft. exists ((r4 ++ r3) ++ r1). reflexivity.
  - rewrite E2. unfold updateStep. simpl negb. cbv iota.
    destruct (checkForUpdates_first DSN env) as [r3 E3]. rewrite E3.
    exists ((r3 ++ r2) ++ r1). reflexivity.
Qed.

Lemma nextSegment_first DEV rest :
  nextSegment (firstSegment DEV ++ rest) = (firstSegment DEV, rest).
Proof. destruct DEV; reflexivity. Qed.

(** ** How many awaited calls an invocation makes *)

Lemma afterUpdate_awaits snap env : atMost suspends 55 (afterUpdate snap env).
Proof.
  assert (Kc : atMost suspends 3 (connectivityStep env)).
  { unfold atMost, connectivityStep.
    destruct (importNetInfo env) as [[] |]; [| counts].
    destruct (netInfoFetch env) as [[] |]; counts. }
  assert (Ka : atMost suspends 50 (authStep snap)).
  { rewrite authStep_trace. unfold atMost. simpl fst.
    destruct (pollLoop_at_most_50 (fun _ => authChecked snap)) as [L _].
    change (?a :: ?l ++ ?r) with ([a] ++ l ++ r).
    repeat rewrite occ_app.
    pose proof (occ_le_length suspends
                  (snd (pollLoop maxAuthWait authCheckInterval_pos
                          (fun _ => authChecked snap) 0))).
    destruct (isUnset _); cbn; lia. }
  assert (Kn : atMost suspends 1 (notificationStep env)).
  { unfold atMost, notificationStep.
    destruct (registerPush env) as [[] | e].
    - destruct (setupListeners env) as [[] |]; counts.
    - destruct e; try counts; destruct (setupListeners env) as [[] |]; counts. }
  assert (Km : atMost suspends 1 (minimumDisplay (elapsed env))).
  { unfold atMost, minimumDisplay. cbv zeta.
    destruct (0 <? _); counts. }
  unfold afterUpdate.
  apply (atMost_bind (n := 3) (k := 52)); [exact Kc | intros _].
  apply (atMost_bind (n := 50) (k := 2)); [exact Ka | intros _].
  apply (atMost_bind (n := 1) (k := 1)); [exact Kn | intros _].
  apply (atMost_bind (n := 1) (k := 0)); [exact Km | intros _].
  apply atMost_emit. reflexivity.
Qed.

Lemma initializeApp_awaits DEV DSN snap env :
  (occ suspends (fst (initializeApp DEV DSN snap env)) <= 58)%nat.
Proof.
  assert (Ku : atMost suspends 3 (updateStep DEV DSN env)).
  { unfold atMost, updateStep. destruct DEV; simpl negb; cbv iota; [counts |].
    unfold checkForUpdates.
    destruct (checkForUpdate env) as [[] |];
      destruct (fetchUpdate env) as [[] |];
      destruct DSN; destruct (sentryCapture env) as [[] |]; counts. }
  assert (Kr : forall e, atMost suspends 0 (recover snap e)).
  { intros e. unfold atMost, recover.
    destruct (isUnset (initialRouteName snap)); counts. }
  change (atMost suspends (58 + 0) (initializeApp DEV DSN snap env)).
  unfold initializeApp. apply atMost_tryCatch; [| exact Kr].
  rewrite startupSequence_unfold.
  apply (atMost_bind (n := 0) (k := 58)); [apply atMost_emit; reflexivity | intros _].
  apply (atMost_bind (n := 3) (k := 55)); [exact Ku | intros _].
  apply afterUpdate_awaits.
Qed.

Lemma segments_nextSegment k :
  k <> [] -> segments k = S (segments (snd (nextSegment k))).
Proof.
  induction k as [| a k IH]; intros N; [congruence |].
  simpl. destruct (suspends a); [reflexivity |].
  destruct k as [| b k]; [reflexivity |].
  destruct (nextSegment (b :: k)) as [seg rest] eqn:E. simpl snd.
  rewrite IH by discriminate. reflexivity.
Qed.

Lemma segments_bound k : (segments k <= S (occ suspends k))%nat.
Proof.
  induction k as [| a k IH]; simpl; [lia |].
  unfold occ in *. simpl. destruct (suspends a); simpl; [lia |].
  destruct k; lia.
Qed.

Lemma segments_positive k : k <> [] -> (1 <= segments k)%nat.
Proof. intros N. rewrite (segments_nextSegment N). lia. Qed.

(** ** [setIsReady(true)] comes after the route *)

Lemma quiet_unless_ok q (A B : Type) (m : Proc A) (f : A -> Proc B) :
  occ q (fst m) = 0%nat ->
  (forall a, (forall b, snd (f a) <> Ok b) -> occ q (fst (f a)) = 0%nat) ->
  (forall b, snd (bind m f) <> Ok b) -> occ q (fst (bind m f)) = 0%nat.
Proof.
  destruct m as [t [a | e |]]; simpl; intros Hm Hf Hn; try exact Hm.
  specialize (Hf a). destruct (f a) as [t' r']. simpl in *.
  rewrite occ_app, Hm, Hf; [reflexivity | exact Hn].
Qed.

Lemma no_ready_from_pacing (A : Type) (m : Proc A) :
  atMost isReadyOrPacing 0 m -> occ isSetReady (fst m) = 0%nat.
Proof.
  unfold atMost. intros H.
  pose proof (@occ_mono isSetReady isReadyOrPacing (fst m)) as M.
  assert (occ isSetReady (fst m) <= occ isReadyOrPacing (fst m))%nat.
  { apply M. intros [] Q; try discriminate Q; reflexivity. }
  lia.
Qed.

Lemma minimumDisplay_no_ready e : occ isSetReady (fst (minimumDisplay e)) = 0%nat.
Proof.
  unfold minimumDisplay. cbv zeta. destruct (0 <? _); reflexivity.
Qed.

(** Before its last statement the [try] block never sets [isReady]. *)
Lemma startupSequence_not_ready DEV DSN snap env :
  (forall b, snd (startupSequence DEV DSN snap env) <> Ok b) ->
  occ isSetReady (fst (startupSequence DEV DSN snap env)) = 0%nat.
Proof.
  destruct (updateStep_counts DEV DSN env) as [_ [_ [Ku _]]].
  destruct (connectivityStep_counts env) as [_ [_ [Kc _]]].
  destruct (authStep_counts snap) as [_ [_ [Ka _]]].
  destruct (notificationStep_counts env) as [_ [_ [Kn _]]].
  rewrite startupSequence_unfold. unfold afterUpdate.
  apply quiet_unless_ok; [reflexivity | intros _].
  apply quiet_unless_ok; [exact (no_ready_from_pacing Ku) | intros _].
  apply quiet_unless_ok; [exact (no_ready_from_pacing Kc) | intros _].
  apply quiet_unless_ok; [exact (no_ready_from_pacing Ka) | intros _].
  apply quiet_unless_ok; [exact (no_ready_from_pacing Kn) | intros _].
  apply quiet_unless_ok; [apply minimumDisplay_no_ready | intros _].
  intros H. exfalso. apply (H tt). reflexivity.
Qed.

(** In every invocation [setIsReady(true)] is the last action, it
    happens at most once, and a route has been written before it
    unless the render that started the invocation already had one. *)
Lemma initializeApp_readyGuard DEV DSN snap env :
  readyGuard snap (fst (initializeApp DEV DSN snap env)).
Proof.
  intros pre post E. unfold initializeApp in E.
  destruct (isUnset (initialRouteName snap)) eqn:U; [right | left; reflexivity].
  destruct (snd (startupSequence DEV DSN snap env)) as [[] | e |] eqn:R.
  - rewrite tryCatch_not_thrown in E by (intros e; rewrite R; discriminate).
    rewrite (startupSequence_ok _ _ _ _ R), app_assoc in E.
    destruct (updateStep_counts DEV DSN env) as [_ [_ [Ku _]]].
    destruct (connectivityStep_counts env) as [_ [_ [Kc _]]].
    destruct (authStep_counts snap) as [_ [_ [Ka _]]].
    destruct (notificationStep_counts env) as [_ [_ [Kn _]]].
    apply (last_occurrence isSetReady SetIsReady eq_refl) in E.
    + destruct E as [-> _].
      apply in_or_app. left. right.
      apply in_or_app. right. apply in_or_app. right.
      apply in_or_app. left.
      rewrite authStep_trace, U. simpl. right.
      apply in_or_app. right. right. left. reflexivity.
    + change (?a :: ?l) with ([a] ++ l).
      repeat rewrite occ_app.
      rewrite (no_ready_from_pacing Ku), (no_ready_from_pacing Kc),
        (no_ready_from_pacing Ka), (no_ready_from_pacing Kn),
        minimumDisplay_no_ready.
      reflexivity.
  - rewrite (tryCatch_thrown _ _ R) in E. cbn [fst] in E.
    unfold recover in E. rewrite U in E. cbn [fst emit bind app] in E.
    change [ConsoleError "Error initializing app:"; SetInitialRouteName Login;
            SetIsReady]
      with ([ConsoleError "Error initializing app:"; SetInitialRouteName Login]
              ++ [SetIsReady]) in E.
    rewrite app_assoc in E.
    apply (last_occurrence isSetReady SetIsReady eq_refl) in E.
    + destruct E as [-> _]. apply in_or_app. right. right. left. reflexivity.
    + rewrite occ_app, startupSequence_not_ready
        by (intros b; rewrite R; discriminate).
      reflexivity.
  - rewrite tryCatch_not_thrown in E by (intros e; rewrite R; discriminate).
    exfalso.
    pose proof (@occ_split isSetReady pre SetIsReady post eq_refl) as S.
    rewrite <- E, startupSequence_not_ready in S
      by (intros b; rewrite R; discriminate).
    lia.
Qed.

(** ** What an invocation never does *)

(** X7.  Whatever the collaborators answer and whatever render started
    it, an invocation of [initializeApp] never sets [authChecked],
    never stops the data listeners and never routes to MainApp (the
    only route it writes is Login); every pause it takes is positive,
    500 ms for the settle delay and 100 ms for a poll; in a development
    build it makes no call to the Update Service, and it calls the
    Error Reporter only in a production build with a configured DSN. *)
Theorem initializeApp_never_leaves_its_lane
  (DEV DSN : bool) (snap : AppState) (env : RunEnv) :
  occ isSetAuthChecked (fst (initializeApp DEV DSN snap env)) = 0%nat
  /\ occ writesMainApp (fst (initializeApp DEV DSN snap env)) = 0%nat
  /\ occ (fun a => if Action_eq_dec a StopAllListeners then true else false)
         (fst (initializeApp DEV DSN snap env)) = 0%nat
  /\ (forall kind ms,
        In (Delay kind ms) (fst (initializeApp DEV DSN snap env)) ->
        0 < ms /\ (kind = Settle -> ms = 500) /\ (kind = AuthPoll -> ms = 100))
  /\ (DEV = true ->
      occ isUpdateCall (fst (initializeApp DEV DSN snap env)) = 0%nat)
  /\ (DEV = true \/ DSN = false ->
      occ isSentryCall (fst (initializeApp DEV DSN snap env)) = 0%nat).
Proof.
  split; [| split; [| split; [| split; [| split]]]].
  - apply initializeApp_never. intros [] Q; try discriminate Q; reflexivity.
  - apply initializeApp_never.
    intros [] Q; try discriminate Q.
    destruct r; [discriminate Q | reflexivity].
  - apply initializeApp_never. intros a Q.
    destruct (Action_eq_dec a StopAllListeners) as [-> |]; [reflexivity | discriminate Q].
  - intros kind ms I. apply initializeApp_only in I. simpl in I.
    destruct kind.
    + apply Z.eqb_eq in I. subst ms.
      split; [lia |]. split; [reflexivity | discriminate].
    + apply Z.eqb_eq in I. subst ms.
      split; [lia |]. split; [discriminate | reflexivity].
    + apply Z.ltb_lt in I. split; [exact I |]. split; discriminate.
  - intros ->. apply initializeApp_never.
    intros [] Q; try discriminate Q; reflexivity.
  - intros H. apply initializeApp_never.
    intros [] Q; try discriminate Q. simpl.
    destruct H as [-> | ->]; [reflexivity | apply andb_false_r].
Qed.

(** ** A failed update does not stop the startup *)

Lemma tryCatch_shift (A : Type) pre (m : Proc A) h :
  tryCatch (pre ++ fst m, snd m) h
  = (pre ++ fst (tryCatch m h), snd (tryCatch m h)).
Proof.
  destruct m as [t [a | e |]]; simpl; try reflexivity.
  destruct (h e) as [t' r']. simpl. rewrite app_assoc. reflexivity.
Qed.

Lemma updateFails_cases DSN env :
  updateFails env = true ->
  snd (checkForUpdates DSN env) = Ok tt
  /\ occ isReload (fst (checkForUpdates DSN env)) = 0%nat
  /\ exists pre,
       fst (checkForUpdates DSN env)
       = pre ++ ConsoleError "Update check failed:"
             :: (if DSN then [SentryCaptureException "OTA Update Check"] else []).
Proof.
  unfold updateFails, checkForUpdates.
  destruct (checkForUpdate env) as [[] |];
    destruct (fetchUpdate env) as [[] |]; try discriminate; intros _;
    destruct DSN; try destruct (sentryCapture env) as [[] |];
    cbn; (split; [reflexivity |]); (split; [reflexivity |]);
    solve
      [ exists [SetLoadingMessage "Checking for updates..."; CheckForUpdateAsync];
        reflexivity
      | exists [SetLoadingMessage "Checking for updates..."; CheckForUpdateAsync;
                ConsoleLog "Update available, fetching...";
                SetLoadingMessage "Downloading update..."; FetchUpdateAsync];
        reflexivity ].
Qed.

(** X8.  In a production build whose update check rejects, or whose
    fetch of an available update rejects, the failure is printed, sent
    to the Error Reporter exactly when a DSN is configured (a throw of
    the reporter is swallowed), and the invocation then does exactly
    what a development build does after its first message: it never
    reloads and ends by setting [isReady]. *)
Theorem failed_update_continues_startup
  (DSN : bool) (snap : AppState) (env : RunEnv)
  (Hfail : updateFails env = true) :
  initializeApp false DSN snap env
  = (SetLoadingMessage "Loading assets..."
       :: fst (checkForUpdates DSN env) ++ fst (restOfStartup snap env),
     snd (restOfStartup snap env))
  /\ initializeApp true DSN snap env
     = (SetLoadingMessage "Loading assets..." :: fst (restOfStartup snap env),
        snd (restOfStartup snap env))
  /\ (exists pre,
        fst (checkForUpdates DSN env)
        = pre ++ ConsoleError "Update check failed:"
              :: (if DSN then [SentryCaptureException "OTA Update Check"]
                  else []))
  /\ occ isReload (fst (initializeApp false DSN snap env)) = 0%nat
  /\ snd (initializeApp false DSN snap env) = Ok tt.
Proof.
  destruct (updateFails_cases DSN env Hfail) as [Uk [U0 Ut]].
  assert (Eprod : initializeApp false DSN snap env
                  = (SetLoadingMessage "Loading assets..."
                       :: fst (checkForUpdates DSN env)
                       ++ fst (restOfStartup snap env),
                     snd (restOfStartup snap env))).
  { unfold initializeApp, restOfStartup.
    rewrite startupSequence_unfold. unfold updateStep. simpl negb. cbv iota.
    rewrite (@bind_ok _ _ (emit (SetLoadingMessage "Loading assets..."))
               (fun _ => checkForUpdates DSN env ;; afterUpdate snap env) tt eq_refl).
    rewrite (@bind_ok _ _ (checkForUpdates DSN env)
               (fun _ => afterUpdate snap env) tt Uk).
    cbn [fst snd emit].
    change ([SetLoadingMessage "Loading assets..."]
              ++ fst (checkForUpdates DSN env) ++ fst (afterUpdate snap env))
      with ((SetLoadingMessage "Loading assets..." :: fst (checkForUpdates DSN env))
              ++ fst (afterUpdate snap env)).
    rewrite tryCatch_shift. reflexivity. }
  assert (Edev : initializeApp true DSN snap env
                 = (SetLoadingMessage "Loading assets..."
                      :: fst (restOfStartup snap env),
                    snd (restOfStartup snap env))).
  { unfold initializeApp, restOfStartup.
    rewrite startupSequence_unfold. unfold updateStep. simpl negb. cbv iota.
    rewrite (@bind_ok _ _ (emit (SetLoadingMessage "Loading assets..."))
               (fun _ => ret tt ;; afterUpdate snap env) tt eq_refl).
    rewrite (@bind_ok _ _ (ret tt) (fun _ => afterUpdate snap env) tt eq_refl).
    cbn [fst snd emit ret app].
    change (SetLoadingMessage "Loading assets..." :: fst (afterUpdate snap env))
      with ([SetLoadingMessage "Loading assets..."] ++ fst (afterUpdate snap env)).
    rewrite tryCatch_shift. reflexivity. }
  assert (R0 : occ isReload (fst (initializeApp false DSN snap env)) = 0%nat).
  { apply initializeApp_no_reload. exact U0. }
  split; [exact Eprod |]. split; [exact Edev |]. split; [exact Ut |].
  split; [exact R0 |].
  destruct (initializeApp_finishes false DSN snap env) as [[K _] | [_ [pre E]]];
    [exact K |].
  exfalso. rewrite E, occ_app in R0. cbn in R0. lia.
Qed.

Lemma failed_update_continues_startup_witness :
  updateFails brokenUpdateEnv = true
  /\ fst (initializeApp false true initialState brokenUpdateEnv)
     = SetLoadingMessage "Loading assets..."
         :: [SetLoadingMessage "Checking for updates..."; CheckForUpdateAsync;
             ConsoleError "Update check failed:";
             SentryCaptureException "OTA Update Check"]
         ++ fst (restOfStartup initialState brokenUpdateEnv)
  /\ snd (initializeApp false true initialState brokenUpdateEnv) = Ok tt.
Proof.
  pose proof (@failed_update_continues_startup true initialState brokenUpdateEnv
                eq_refl) as H.
  split; [reflexivity |].
  split; [rewrite (proj1 H); reflexivity | exact (proj2 (proj2 (proj2 (proj2 H))))].
Defined.

(** ** A failed push registration *)

(** X9.  When [registerForPushNotifications] rejects with a value that
    is not [undefined] or [null], the failure is printed and the
    sequence goes on to set up the notification listeners.  When it
    rejects with [undefined] or [null], reading [error.message] in the
    [catch] throws: the exception leaves the step, so in that
    invocation the notification listeners are never set up and the
    minimum display time of the splash screen is never enforced. *)
Theorem push_registration_failure
  (DEV DSN : bool) (snap : AppState) (env : RunEnv) (e : jsval)
  (Hreg : registerPush env = Throw e) :
  if nullish e
  then snd (notificationStep env)
       = Thrown (typeError "Cannot read property 'message'")
       /\ occ isListenerSetup (fst (initializeApp DEV DSN snap env)) = 0%nat
       /\ occ isPacing (fst (initializeApp DEV DSN snap env)) = 0%nat
  else notificationStep env
       = ([SetLoadingMessage "Setting up notifications...";
           RegisterForPushNotifications;
           ConsoleLog "Push notification setup error:";
           SetLoadingMessage "Finalizing...";
           SetupNotificationListeners],
          match setupListeners env with
          | Normal _ => Ok tt
          | Throw x => Thrown x
          end).
Proof.
  destruct (nullish e) eqn:N.
  - assert (Nt : notificationStep env
                 = ([SetLoadingMessage "Setting up notifications...";
                     RegisterForPushNotifications],
                    Thrown (typeError "Cannot read property 'message'"))).
    { unfold notificationStep. rewrite Hreg.
      destruct e; try discriminate N; reflexivity. }
    split; [rewrite Nt; reflexivity |].
    assert (G : forall q,
               (forall a, q a = true -> a = SetupNotificationListeners
                                        \/ exists ms, a = Delay MinDisplay ms) ->
               occ q (fst (initializeApp DEV DSN snap env)) = 0%nat).
    { intros q Hq.
      assert (Qf : forall a, (a <> SetupNotificationListeners) ->
                             (forall ms, a <> Delay MinDisplay ms) -> q a = false).
      { intros a H1 H2. destruct (q a) eqn:Qa; [| reflexivity].
        destruct (Hq a Qa) as [-> | [ms ->]];
          [congruence | exfalso; exact (H2 ms eq_refl)]. }
      assert (Z : atMost q 0 (initializeApp DEV DSN snap env)).
      { unfold initializeApp.
        apply (atMost_tryCatch (n := 0) (k := 0)).
        - rewrite startupSequence_unfold.
          apply (atMost_bind (n := 0) (k := 0));
            [apply atMost_emit; apply Qf; discriminate | intros _].
          apply (atMost_bind (n := 0) (k := 0)).
          + unfold atMost.
            unfold updateStep. destruct DEV; simpl negb; cbv iota; [cbn; lia |].
            unfold checkForUpdates.
            destruct (checkForUpdate env) as [[] |];
              destruct (fetchUpdate env) as [[] |];
              destruct DSN; destruct (sentryCapture env) as [[] |];
              cbn; unfold occ; cbn;
              repeat rewrite Qf by discriminate; cbn; lia.
          + intros _. unfold afterUpdate.
            apply (atMost_bind (n := 0) (k := 0)).
            * unfold atMost, connectivityStep.
              destruct (importNetInfo env) as [[] |];
                [destruct (netInfoFetch env) as [[] |] |];
                cbn; unfold occ; cbn;
                repeat rewrite Qf by discriminate; cbn; lia.
            * intros _.
              apply (atMost_bind (n := 0) (k := 0)).
              -- rewrite authStep_trace. unfold atMost. simpl fst.
                 destruct (pollLoop_at_most_50 (fun _ => authChecked snap))
                   as [_ [_ [_ P]]].
                 change (?a :: ?l ++ ?r) with ([a] ++ l ++ r).
                 repeat rewrite occ_app.
                 rewrite (occ_all_same q P) by (apply Qf; discriminate).
                 destruct (isUnset _); unfold occ; cbn;
                   repeat rewrite Qf by discriminate; cbn; lia.
              -- intros _. rewrite Nt. unfold atMost. cbn. unfold occ. cbn.
                 repeat rewrite Qf by discriminate. cbn. lia.
        - intros x. unfold atMost, recover.
          destruct (isUnset (initialRouteName snap));
            cbn; unfold occ; cbn; repeat rewrite Qf by discriminate; cbn; lia. }
      unfold atMost in Z. lia. }
    split; apply G.
    + intros [] Qa; try discriminate Qa. left. reflexivity.
    + intros [] Qa; try discriminate Qa. destruct kind; try discriminate Qa.
      right. eexists. reflexivity.
  - unfold notificationStep. rewrite Hreg.
    destruct e; try discriminate N; destruct (setupListeners env) as [[] |];
      reflexivity.
Qed.

Lemma push_registration_failure_witness :
  (snd (notificationStep (noPushEnv JUndefined))
   = Thrown (typeError "Cannot read property 'message'")
   /\ occ isListenerSetup
        (fst (initializeApp true false initialState (noPushEnv JUndefined))) = 0%nat
   /\ occ isPacing
        (fst (initializeApp true false initialState (noPushEnv JUndefined))) = 0%nat)
  /\ snd (notificationStep (noPushEnv (mkError "no permission" ""))) = Ok tt.
Proof.
  split.
  - exact (@push_registration_failure true false initialState
             (noPushEnv JUndefined) JUndefined eq_refl).
  - pose proof (@push_registration_failure true false initialState
                  (noPushEnv (mkError "no permission" ""))
                  (mkError "no permission" "") eq_refl) as H.
    simpl in H. rewrite H. reflexivity.
Defined.

(** ** An invocation started from a fresh render *)

(** Outside the auth step and the recovery handler the sequence
    neither writes the route nor polls. *)
Lemma outside_authStep DEV DSN env :
  atMost routesOrPolls 0 (updateStep DEV DSN env)
  /\ atMost routesOrPolls 0 (connectivityStep env)
  /\ atMost routesOrPolls 0 (notificationStep env)
  /\ atMost routesOrPolls 0 (minimumDisplay (elapsed env)).
Proof.
  unfold atMost. repeat split.
  - unfold updateStep. destruct DEV; simpl negb; cbv iota; [counts |].
    unfold checkForUpdates.
    destruct (checkForUpdate env) as [[] |];
      destruct (fetchUpdate env) as [[] |];
      destruct DSN; destruct (sentryCapture env) as [[] |]; counts.
  - unfold connectivityStep.
    destruct (importNetInfo env) as [[] |]; [| counts].
    destruct (netInfoFetch env) as [[] |]; counts.
  - unfold notificationStep.
    destruct (registerPush env) as [[] | e].
    + destruct (setupListeners env) as [[] |]; counts.
    + destruct e; try counts; destruct (setupListeners env) as [[] |]; counts.
  - unfold minimumDisplay. cbv zeta. destruct (0 <? _); counts.
Qed.

(** An invocation started from a render in which [authChecked] is
    true and a route is set does not wait for the listener and leaves
    the route alone, on the normal path and in the recovery handler. *)
Lemma fresh_snapshot_quiet DEV DSN snap env :
  authChecked snap = true ->
  isUnset (initialRouteName snap) = false ->
  occ routesOrPolls (fst (initializeApp DEV DSN snap env)) = 0%nat.
Proof.
  intros A U.
  destruct (outside_authStep DEV DSN env) as [Ku [Kc [Kn Km]]].
  assert (Ka : atMost routesOrPolls 0 (authStep snap)).
  { rewrite authStep_trace, U. unfold atMost. cbn [fst].
    destruct snap as [r i l a]. simpl in A. subst a. cbn [authChecked].
    rewrite pollLoop_set_0. reflexivity. }
  assert (Z : atMost routesOrPolls 0 (initializeApp DEV DSN snap env)).
  { unfold initializeApp.
    apply (atMost_tryCatch (n := 0) (k := 0)).
    - rewrite startupSequence_unfold.
      apply (atMost_bind (n := 0) (k := 0));
        [apply atMost_emit; reflexivity | intros _].
      apply (atMost_bind (n := 0) (k := 0)); [exact Ku | intros _].
      unfold afterUpdate.
      apply (atMost_bind (n := 0) (k := 0)); [exact Kc | intros _].
      apply (atMost_bind (n := 0) (k := 0)); [exact Ka | intros _].
      apply (atMost_bind (n := 0) (k := 0)); [exact Kn | intros _].
      apply (atMost_bind (n := 0) (k := 0)); [exact Km | intros _].
      apply atMost_emit. reflexivity.
    - intros e. unfold atMost, recover. rewrite U. reflexivity. }
  unfold atMost in Z. lia.
Qed.

End InvocationFacts.

(* ================================================================= *)
(** * More on whole launches *)

Module LaunchFacts.
Import JS Startup Runtime Shell StartupFacts RuntimeFacts InvocationFacts.

(** ** Starting an invocation *)

Lemma firstSegment_state DEV s :
  applyAll s (firstSegment DEV)
  = mkState (isReady s) (initialRouteName s)
            (if DEV then "Loading assets..." else "Checking for updates...")
            (authChecked s).
Proof. destruct DEV; reflexivity. Qed.

Section Launch.
Variables DEV DSN : bool.
Variable envs : nat -> RunEnv.

(** An invocation that is started sets the loading message, makes its
    first awaited call and is suspended. *)
Lemma start_eq sys :
  exists rest,
    fst (initializeApp DEV DSN (state sys) (envs (List.length (invocations sys))))
    = firstSegment DEV ++ rest
    /\ start DEV DSN envs sys
       = mkSys (applyAll (state sys) (firstSegment DEV))
               (invocations sys ++ [rest]) (subscription sys)
               (history sys ++ firstSegment DEV) (restarted sys).
Proof.
  destruct (initializeApp_first_segment DEV DSN (state sys)
              (envs (List.length (invocations sys)))) as [rest E].
  exists rest. split; [exact E |].
  unfold start. rewrite E, nextSegment_first. unfold perform. simpl.
  f_equal. destruct DEV; simpl; apply orb_false_r.
Qed.

(** *** Proving an invariant of every launch *)

Section Invariant.
Variable allowed : Input -> bool.
Variable Inv : Sys -> Prop.

Hypothesis Inv_init : Inv (mkSys initialState [] (mkSub false false) [] false).

(** [initializeApp] is started at mount and when [authChecked] has
    become true. *)
Hypothesis Inv_start : forall sys rest,
  Inv sys -> restarted sys = false ->
  invocations sys = [] \/ authChecked (state sys) = true ->
  fst (initializeApp DEV DSN (state sys) (envs (List.length (invocations sys))))
  = firstSegment DEV ++ rest ->
  Inv (mkSys (applyAll (state sys) (firstSegment DEV))
             (invocations sys ++ [rest]) (subscription sys)
             (history sys ++ firstSegment DEV) false).

Hypothesis Inv_resume : forall sys n c,
  Inv sys -> restarted sys = false ->
  nth_error (invocations sys) n = Some c -> c <> [] ->
  Inv (perform (fst (nextSegment c))
         (mkSys (state sys) (setNth n (snd (nextSegment c)) (invocations sys))
                (subscription sys) (history sys) false)).

Hypothesis Inv_auth : forall sys ev,
  Inv sys -> restarted sys = false -> allowed (Auth ev) = true ->
  Inv (perform (fst (onAuthEvent (subscription sys) ev))
         (mkSys (state sys) (invocations sys)
                (snd (onAuthEvent (subscription sys) ev)) (history sys) false)).

(** The listener is registered again when [isReady] has become true. *)
Hypothesis Inv_resubscribe : forall sys,
  Inv sys -> restarted sys = false -> isReady (state sys) = true ->
  Inv (resubscribe sys).

Lemma start_invariant sys :
  Inv sys -> restarted sys = false ->
  invocations sys = [] \/ authChecked (state sys) = true ->
  Inv (start DEV DSN envs sys).
Proof.
  intros H R A. destruct (start_eq sys) as [rest [E ->]]. rewrite R.
  apply Inv_start; assumption.
Qed.

Lemma runEffects_invariant before sys :
  Inv sys ->
  (isReady before = true -> isReady (state sys) = true) ->
  (authChecked before = true -> authChecked (state sys) = true) ->
  Inv (runEffects DEV DSN envs before sys).
Proof.
  intros H Mr Ma. unfold runEffects. destruct (restarted sys) eqn:R; [exact H |].
  set (sys1 := if Bool.eqb (isReady before) (isReady (state sys))
               then sys else resubscribe sys).
  assert (H1 : Inv sys1 /\ restarted sys1 = false /\ state sys1 = state sys).
  { unfold sys1. destruct (Bool.eqb _ _) eqn:B;
      (split; [| split; [exact R | reflexivity]]); [exact H |].
    apply Inv_resubscribe; [exact H | exact R |].
    destruct (isReady (state sys)); [reflexivity |].
    destruct (isReady before); [discriminate (Mr eq_refl) | discriminate B]. }
  destruct H1 as [H1 [R1 S1]].
  destruct (Bool.eqb (authChecked before) (authChecked (state sys))) eqn:B;
    [exact H1 |].
  apply start_invariant; [exact H1 | exact R1 |].
  right. rewrite S1.
  destruct (authChecked (state sys)); [reflexivity |].
  destruct (authChecked before); [discriminate (Ma eq_refl) | discriminate B].
Qed.

Lemma step_invariant sys i :
  Inv sys -> allowed i = true -> Inv (step DEV DSN envs sys i).
Proof.
  intros H A. unfold step. destruct (restarted sys) eqn:R; [exact H |].
  destruct i as [n | ev].
  - destruct (nth_error (invocations sys) n) as [[| a k] |] eqn:E; try exact H.
    destruct (nextSegment (a :: k)) as [seg rest] eqn:N.
    apply runEffects_invariant;
      [| apply applyAll_isReady_mono | apply applyAll_authChecked_mono].
    replace seg with (fst (nextSegment (a :: k))) by (rewrite N; reflexivity).
    replace rest with (snd (nextSegment (a :: k))) by (rewrite N; reflexivity).
    apply Inv_resume; try assumption. discriminate.
  - destruct (onAuthEvent (subscription sys) ev) as [acts sub'] eqn:O.
    apply runEffects_invariant;
      [| apply applyAll_isReady_mono | apply applyAll_authChecked_mono].
    replace acts with (fst (onAuthEvent (subscription sys) ev))
      by (rewrite O; reflexivity).
    replace sub' with (snd (onAuthEvent (subscription sys) ev))
      by (rewrite O; reflexivity).
    apply Inv_auth; assumption.
Qed.

Lemma run_invariant inputs :
  forallb allowed inputs = true -> Inv (run DEV DSN envs inputs).
Proof.
  unfold run.
  assert (M : Inv (mount DEV DSN envs)).
  { unfold mount. apply start_invariant;
      [exact Inv_init | reflexivity | left; reflexivity]. }
  revert M. generalize (mount DEV DSN envs).
  induction inputs as [| i inputs IH]; intros sys H A; simpl; [exact H |].
  simpl in A. apply andb_prop in A. destruct A as [Ai A].
  apply IH; [apply step_invariant; assumption | exact A].
Qed.
End Invariant.

Lemma runEffects_preserved allowed Inv before sys :
  Preserved DEV DSN envs allowed Inv ->
  Inv sys ->
  (isReady before = true -> isReady (state sys) = true) ->
  (authChecked before = true -> authChecked (state sys) = true) ->
  Inv (runEffects DEV DSN envs before sys).
Proof.
  intros [_ [H1 [_ [_ H4]]]]. apply runEffects_invariant; assumption.
Qed.

Lemma step_preserved allowed Inv sys i :
  Preserved DEV DSN envs allowed Inv ->
  Inv sys -> allowed i = true -> Inv (step DEV DSN envs sys i).
Proof.
  intros [_ [H1 [H2 [H3 H4]]]]. apply step_invariant; assumption.
Qed.

Lemma run_preserved allowed Inv inputs :
  Preserved DEV DSN envs allowed Inv ->
  forallb allowed inputs = true -> Inv (run DEV DSN envs inputs).
Proof.
  intros [H0 [H1 [H2 [H3 H4]]]]. apply run_invariant; assumption.
Qed.

Lemma all_allowed inputs : forallb allInputs inputs = true.
Proof. induction inputs; simpl; auto. Qed.

(** *** The state follows from the history *)

Lemma applyAll_app s l l' : applyAll (applyAll s l) l' = applyAll s (l ++ l').
Proof. unfold applyAll. rewrite fold_left_app. reflexivity. Qed.

Lemma run_replays inputs : replays (run DEV DSN envs inputs).
Proof.
  apply (@run_invariant allInputs replays).
  - reflexivity.
  - intros sys rest H _ _ _. unfold replays in *. cbn [state history].
    rewrite H. apply applyAll_app.
  - intros sys n c H _ _ _. unfold replays, perform in *. cbn [state history].
    rewrite H. apply applyAll_app.
  - intros sys ev H _ _. unfold replays, perform in *. cbn [state history].
    rewrite H. apply applyAll_app.
  - intros sys H _ _. unfold replays, resubscribe in *. cbn [state history].
    rewrite H, <- applyAll_app. reflexivity.
  - clear. induction inputs; simpl; auto.
Qed.

(** *** What can appear in a history *)

Lemma Forall_segment (P : Action -> Prop) k :
  Forall P k -> Forall P (fst (nextSegment k)) /\ Forall P (snd (nextSegment k)).
Proof.
  intros H. rewrite <- (nextSegment_app k) in H.
  apply Forall_app in H. exact H.
Qed.

Lemma within_preserved allowed q :
  q StopAllListeners = true ->
  (forall a, mayEmit DEV DSN a = true -> q a = true) ->
  (forall sub ev, allowed (Auth ev) = true ->
                  Forall (fun a => q a = true) (fst (onAuthEvent sub ev))) ->
  Preserved DEV DSN envs allowed (within q).
Proof.
  intros Qs Qe Ql.
  split; [| split; [| split; [| split]]].
  - split; constructor.
  - intros sys rest [Hh Hi] _ _ E. unfold within. simpl.
    assert (F : Forall (fun a => q a = true) (firstSegment DEV ++ rest)).
    { rewrite <- E. apply Forall_forall. intros a Ia.
      apply Qe. exact (initializeApp_only _ _ _ _ _ Ia). }
    apply Forall_app in F. destruct F as [F1 F2]. split.
    + apply Forall_app. split; assumption.
    + apply Forall_app. split; [exact Hi | constructor; [exact F2 | constructor]].
  - intros sys n c [Hh Hi] _ E _. unfold within. simpl.
    assert (Fc : Forall (fun a => q a = true) c).
    { rewrite Forall_forall in Hi. apply Hi. exact (nth_error_In _ _ E). }
    destruct (Forall_segment Fc) as [F1 F2]. split.
    + apply Forall_app. split; assumption.
    + apply Forall_setNth; assumption.
  - intros sys ev [Hh Hi] _ Aev. unfold within. simpl. split; [| exact Hi].
    apply Forall_app. split; [exact Hh | apply Ql; exact Aev].
  - intros sys [Hh Hi] _ _. unfold within. simpl. split; [| exact Hi].
    apply Forall_app. split; [exact Hh | constructor; [exact Qs | constructor]].
Qed.

Lemma run_within allowed q inputs :
  q StopAllListeners = true ->
  (forall a, mayEmit DEV DSN a = true -> q a = true) ->
  (forall sub ev, allowed (Auth ev) = true ->
                  Forall (fun a => q a = true) (fst (onAuthEvent sub ev))) ->
  forallb allowed inputs = true ->
  within q (run DEV DSN envs inputs).
Proof.
  intros Qs Qe Ql A.
  apply (@run_preserved allowed); [apply within_preserved; assumption | exact A].
Qed.

Lemma Forall_occ q t :
  Forall (fun a => negb (q a) = true) t -> occ q t = 0%nat.
Proof.
  unfold occ. induction 1 as [| a t Ha _ IH]; simpl; [reflexivity |].
  destruct (q a); [discriminate Ha | exact IH].
Qed.

End Launch.

Lemma onAuthEvent_actions q sub ev :
  (forall m, q (ConsoleLog m) = true) ->
  (forall m, q (ConsoleError m) = true) ->
  q StopAllListeners = true -> q SetAuthChecked = true ->
  q (SetInitialRouteName Login) = true ->
  (ev = SignedIn -> q (SetInitialRouteName MainApp) = true) ->
  Forall (fun a => q a = true) (fst (onAuthEvent sub ev)).
Proof.
  intros Hl He Hs Ha Hr Hm. unfold onAuthEvent.
  destruct (negb (hasSetInitialRoute sub) && negb (capturedIsReady sub));
    destruct ev; simpl; repeat constructor; auto.
Qed.

(** X10.  In a development build, whatever the collaborators answer
    and in whatever order the invocations and the auth listener run,
    the startup code never calls the Update Service (no check, no
    fetch, no reload), and the app is never restarted. *)
Theorem development_launch_never_updates
  (DSN : bool) (envs : nat -> RunEnv) (inputs : list Input) :
  occ isUpdateCall (history (run true DSN envs inputs)) = 0%nat
  /\ restarted (run true DSN envs inputs) = false.
Proof.
  assert (W : within (fun a => negb (isUpdateCall a)) (run true DSN envs inputs)).
  { apply (@run_within true DSN envs allInputs).
    - reflexivity.
    - intros [] M; try reflexivity; discriminate M.
    - intros sub ev _. apply onAuthEvent_actions; reflexivity.
    - clear. induction inputs; simpl; auto. }
  destruct W as [Wh _]. apply Forall_occ in Wh.
  split; [exact Wh |].
  destruct (run_reloadInv true DSN envs inputs) as [R _].
  destruct (restarted (run true DSN envs inputs)); [| reflexivity].
  destruct R as [pre [E _]]. rewrite E, occ_app in Wh. cbn in Wh. lia.
Qed.

Lemma routeWrites_login h :
  Forall (fun a => negb (writesMainApp a) = true) h ->
  Forall (eq Login) (routeWrites h).
Proof.
  induction 1 as [| a h Ha _ IH]; simpl; [constructor |].
  destruct a; simpl; try exact IH.
  destruct r; [constructor; [reflexivity | exact IH] | discriminate Ha].
Qed.

Lemma applyAll_login h :
  Forall (fun a => negb (writesMainApp a) = true) h ->
  forall s,
    initialRouteName s = None \/ initialRouteName s = Some Login ->
    initialRouteName (applyAll s h) = None
    \/ initialRouteName (applyAll s h) = Some Login.
Proof.
  induction 1 as [| a h Ha _ IH]; intros s Hs; [exact Hs |].
  apply IH. destruct a; simpl; try exact Hs.
  destruct r; [right; reflexivity | discriminate Ha].
Qed.

(** X11.  In a launch in which the Auth Service never reports a
    signed-in user (it reports [null], an error, or nothing at all),
    every route written is Login and the route held by the state is
    never MainApp, in a development or a production build, whatever the
    collaborators answer and however the invocations are scheduled. *)
Theorem route_is_login_without_user
  (DEV DSN : bool) (envs : nat -> RunEnv) (inputs : list Input)
  (Hnone : existsb reportsUser inputs = false) :
  Forall (eq Login) (routeWrites (history (run DEV DSN envs inputs)))
  /\ (initialRouteName (state (run DEV DSN envs inputs)) = None
      \/ initialRouteName (state (run DEV DSN envs inputs)) = Some Login).
Proof.
  assert (W : within (fun a => negb (writesMainApp a)) (run DEV DSN envs inputs)).
  { apply (@run_within DEV DSN envs noUserReported).
    - reflexivity.
    - intros [] M; try reflexivity. destruct r; [reflexivity | discriminate M].
    - intros sub ev A. apply onAuthEvent_actions; try reflexivity.
      intros ->. discriminate A.
    - clear - Hnone. induction inputs as [| i inputs IH]; [reflexivity |].
      simpl in *. apply orb_false_elim in Hnone. destruct Hnone as [Hi Hr].
      unfold noUserReported at 1. rewrite Hi. simpl. apply IH. exact Hr. }
  destruct W as [Wh _]. split; [apply routeWrites_login; exact Wh |].
  rewrite (run_replays DEV DSN envs inputs).
  apply applyAll_login; [exact Wh | left; reflexivity].
Qed.

Lemma route_is_login_without_user_witness :
  Forall (eq Login)
    (routeWrites (history (run true false calmEnvs
                             ([Resume 0%nat; Auth SignedOut] ++ repeat (Resume 0%nat) 55))))
  /\ (initialRouteName (state (run true false calmEnvs
                                 ([Resume 0%nat; Auth SignedOut]
                                    ++ repeat (Resume 0%nat) 55))) = None
      \/ initialRouteName (state (run true false calmEnvs
                                    ([Resume 0%nat; Auth SignedOut]
                                       ++ repeat (Resume 0%nat) 55))) = Some Login).
Proof.
  apply (@route_is_login_without_user true false calmEnvs
           ([Resume 0%nat; Auth SignedOut] ++ repeat (Resume 0%nat) 55)).
  reflexivity.
Defined.

(** ** The navigator is never shown without a route *)

Lemma apply_route_set s a :
  isUnset (initialRouteName s) = false ->
  isUnset (initialRouteName (apply s a)) = false.
Proof. destruct a; simpl; auto. Qed.

Lemma applyAll_route_set acts : forall s,
  isUnset (initialRouteName s) = false ->
  isUnset (initialRouteName (applyAll s acts)) = false.
Proof.
  induction acts as [| a acts IH]; intros s H; [exact H |].
  apply IH. apply apply_route_set. exact H.
Qed.

Lemma applyAll_route_written acts r : forall s,
  In (SetInitialRouteName r) acts ->
  isUnset (initialRouteName (applyAll s acts)) = false.
Proof.
  induction acts as [| a acts IH]; intros s []; simpl.
  - subst a. apply applyAll_route_set. reflexivity.
  - apply IH. assumption.
Qed.

Lemma applyAll_ready_cause acts : forall s,
  isReady (applyAll s acts) = true ->
  isReady s = true \/ exists p q, acts = p ++ SetIsReady :: q.
Proof.
  induction acts as [| a acts IH]; intros s H; [left; exact H |].
  destruct (isSetReady a) eqn:Q.
  - right. destruct a; try discriminate Q. exists [], acts. reflexivity.
  - destruct (IH (apply s a) H) as [R | [p [q ->]]].
    + left. destruct a; try discriminate Q; exact R.
    + right. exists (a :: p), q. reflexivity.
Qed.

Lemma applyAll_ready_kept acts : forall s,
  occ isSetReady acts = 0%nat -> isReady (applyAll s acts) = isReady s.
Proof.
  induction acts as [| a acts IH]; intros s H; [reflexivity |].
  unfold occ in H. simpl in H. destruct (isSetReady a) eqn:Q; [discriminate H |].
  simpl. rewrite IH by exact H. destruct a; try discriminate Q; reflexivity.
Qed.

Lemma readyGuard_mono s acts k :
  readyGuard s k -> readyGuard (applyAll s acts) k.
Proof.
  intros G pre post E. destruct (G pre post E) as [U | I].
  - left. apply applyAll_route_set. exact U.
  - right. exact I.
Qed.

Lemma readyGuard_rest s seg rest :
  readyGuard s (seg ++ rest) -> readyGuard (applyAll s seg) rest.
Proof.
  intros G pre post E.
  destruct (G (seg ++ pre) post) as [U | I].
  { rewrite E, app_assoc. reflexivity. }
  - left. apply applyAll_route_set. exact U.
  - apply in_app_or in I. destruct I as [I | I].
    + left. apply (applyAll_route_written _ _ _ I).
    + right. exact I.
Qed.

Lemma ready_in_segment s seg rest :
  readyGuard s (seg ++ rest) ->
  (isReady s = true -> isUnset (initialRouteName s) = false) ->
  isReady (applyAll s seg) = true ->
  isUnset (initialRouteName (applyAll s seg)) = false.
Proof.
  intros G H R. destruct (applyAll_ready_cause _ _ R) as [R0 | [p [q E]]].
  - apply applyAll_route_set. apply H. exact R0.
  - destruct (G p (q ++ rest)) as [U | I].
    { rewrite E, <- app_assoc. reflexivity. }
    + apply applyAll_route_set. exact U.
    + apply (applyAll_route_written seg Login). rewrite E.
      apply in_or_app. left. exact I.
Qed.

Lemma Forall_readyGuard_mono s acts invs :
  Forall (readyGuard s) invs -> Forall (readyGuard (applyAll s acts)) invs.
Proof.
  intros F. eapply Forall_impl; [| exact F].
  intros k. apply readyGuard_mono.
Qed.

Lemma onAuthEvent_no_ready sub ev :
  occ isSetReady (fst (onAuthEvent sub ev)) = 0%nat.
Proof.
  unfold onAuthEvent.
  destruct (negb (hasSetInitialRoute sub) && negb (capturedIsReady sub));
    destruct ev; reflexivity.
Qed.

Lemma routedWhenReady_start DEV DSN sys env rest :
  routedWhenReady sys ->
  fst (initializeApp DEV DSN (state sys) env) = firstSegment DEV ++ rest ->
  routedWhenReady
    (mkSys (applyAll (state sys) (firstSegment DEV))
           (invocations sys ++ [rest]) (subscription sys)
           (history sys ++ firstSegment DEV) false).
Proof.
  intros [H F] E. unfold routedWhenReady. cbn [state invocations].
  pose proof (initializeApp_readyGuard DEV DSN (state sys) env) as G.
  rewrite E in G. split.
  - intros R. exact (ready_in_segment _ _ G H R).
  - apply Forall_app. split.
    + apply Forall_readyGuard_mono. exact F.
    + constructor; [apply readyGuard_rest; exact G | constructor].
Qed.

Lemma routedWhenReady_resume sys n c :
  routedWhenReady sys ->
  nth_error (invocations sys) n = Some c ->
  routedWhenReady
    (perform (fst (nextSegment c))
       (mkSys (state sys) (setNth n (snd (nextSegment c)) (invocations sys))
              (subscription sys) (history sys) false)).
Proof.
  intros [H F] E. unfold routedWhenReady, perform. cbn [state invocations].
  assert (G : readyGuard (state sys)
                (fst (nextSegment c) ++ snd (nextSegment c))).
  { rewrite nextSegment_app. rewrite Forall_forall in F. apply F.
    exact (nth_error_In _ _ E). }
  split.
  - intros R. exact (ready_in_segment _ _ G H R).
  - apply Forall_setNth.
    + apply Forall_readyGuard_mono. exact F.
    + apply readyGuard_rest. exact G.
Qed.

Lemma routedWhenReady_auth sys ev :
  routedWhenReady sys ->
  routedWhenReady
    (perform (fst (onAuthEvent (subscription sys) ev))
       (mkSys (state sys) (invocations sys)
              (snd (onAuthEvent (subscription sys) ev)) (history sys) false)).
Proof.
  intros [H F]. unfold routedWhenReady, perform. cbn [state invocations]. split.
  - intros R. rewrite applyAll_ready_kept in R by apply onAuthEvent_no_ready.
    apply applyAll_route_set. apply H. exact R.
  - apply Forall_readyGuard_mono. exact F.
Qed.

Lemma routedWhenReady_preserved DEV DSN envs :
  Preserved DEV DSN envs allInputs routedWhenReady.
Proof.
  split; [| split; [| split; [| split]]].
  - split; [discriminate | constructor].
  - intros sys rest H _ _ E. eapply routedWhenReady_start; eassumption.
  - intros sys n c H _ E _. eapply routedWhenReady_resume; eassumption.
  - intros sys ev H _ _. eapply routedWhenReady_auth; eassumption.
  - intros sys HF _ _. exact HF.
Qed.

Lemma run_routedWhenReady DEV DSN envs inputs :
  routedWhenReady (run DEV DSN envs inputs).
Proof.
  apply (@run_preserved DEV DSN envs allInputs);
    [apply routedWhenReady_preserved | apply all_allowed].
Qed.

(** X12.  Once [isReady] is true the component renders the navigator,
    for the rest of the launch, and the initial route it is given is
    never [null]: it is Login or MainApp, both of which are registered
    screens.  This holds whatever the collaborators answer, through the
    recovery handler as well, and for every interleaving of the
    invocations and the auth listener. *)
Theorem navigator_always_has_a_registered_route
  (DEV DSN : bool) (envs : nat -> RunEnv) (inputs : list Input)
  (Hready : isReady (state (run DEV DSN envs inputs)) = true) :
  forall more,
  exists r,
    render (state (run DEV DSN envs (inputs ++ more))) = Navigator (Some r)
    /\ In (routeName r) screens.
Proof.
  intros more.
  pose proof (run_isReady DEV DSN envs inputs more Hready) as R.
  destruct (run_routedWhenReady DEV DSN envs (inputs ++ more)) as [H _].
  specialize (H R). unfold render. rewrite R.
  destruct (initialRouteName (state (run DEV DSN envs (inputs ++ more))))
    as [r |]; [| discriminate H].
  exists r. split; [reflexivity |].
  destruct r; simpl; auto.
Qed.

Lemma navigator_always_has_a_registered_route_witness :
  exists r,
    render (state (run true false offlineEnvs
                     ([Resume 0%nat; Resume 0%nat] ++ [Auth SignedOut])))
    = Navigator (Some r)
    /\ In (routeName r) screens.
Proof.
  apply (@navigator_always_has_a_registered_route true false offlineEnvs
           [Resume 0%nat; Resume 0%nat]).
  reflexivity.
Defined.

(** ** The listener and the effects *)

Section Listener.
Variables DEV DSN : bool.
Variable envs : nat -> RunEnv.

Lemma start_keeps sys :
  isReady (state (start DEV DSN envs sys)) = isReady (state sys)
  /\ initialRouteName (state (start DEV DSN envs sys)) = initialRouteName (state sys)
  /\ authChecked (state (start DEV DSN envs sys)) = authChecked (state sys)
  /\ subscription (start DEV DSN envs sys) = subscription sys
  /\ restarted (start DEV DSN envs sys) = restarted sys.
Proof.
  destruct (start_eq DEV DSN envs sys) as [rest [_ ->]].
  cbn [state subscription restarted]. rewrite firstSegment_state.
  repeat split.
Qed.

Lemma runEffects_in_sync before sys :
  (restarted sys = false -> capturedIsReady (subscription sys) = isReady before) ->
  listenerInSync (runEffects DEV DSN envs before sys).
Proof.
  intros H. unfold runEffects. destruct (restarted sys) eqn:R.
  - intros R'. rewrite R in R'. discriminate R'.
  - specialize (H eq_refl).
    set (sys1 := if Bool.eqb (isReady before) (isReady (state sys))
                 then sys else resubscribe sys).
    assert (H1 : listenerInSync sys1).
    { unfold sys1. destruct (Bool.eqb _ _) eqn:B; intros _.
      - apply eqb_prop in B. congruence.
      - reflexivity. }
    destruct (Bool.eqb (authChecked before) (authChecked (state sys)));
      [exact H1 |].
    destruct (start_keeps sys1) as [K1 [_ [_ [K2 K3]]]].
    intros R'. rewrite K1, K2. apply H1. rewrite <- K3. exact R'.
Qed.

Lemma applyAll_route_kept acts : forall s,
  occ isRouteWrite acts = 0%nat ->
  initialRouteName (applyAll s acts) = initialRouteName s.
Proof.
  induction acts as [| a acts IH]; intros s H; [reflexivity |].
  unfold occ in H. simpl in H. destruct (isRouteWrite a) eqn:Q; [discriminate H |].
  simpl. rewrite IH by exact H. destruct a; try discriminate Q; reflexivity.
Qed.

Lemma runEffects_route before sys :
  initialRouteName (state (runEffects DEV DSN envs before sys))
  = initialRouteName (state sys).
Proof.
  unfold runEffects. destruct (restarted sys); [reflexivity |].
  set (sys1 := if Bool.eqb (isReady before) (isReady (state sys))
               then sys else resubscribe sys).
  assert (H1 : initialRouteName (state sys1) = initialRouteName (state sys))
    by (unfold sys1; destruct (Bool.eqb _ _); reflexivity).
  destruct (Bool.eqb (authChecked before) (authChecked (state sys)));
    [exact H1 |].
  destruct (start_keeps sys1) as [_ [K _]]. rewrite K. exact H1.
Qed.

(** A listener registered by a render in which [isReady] was true
    writes no route, whatever the Auth Service reports. *)
Lemma onAuthEvent_ready_quiet sub ev :
  capturedIsReady sub = true ->
  occ isRouteWrite (fst (onAuthEvent sub ev)) = 0%nat.
Proof.
  intros C. unfold onAuthEvent. rewrite C, andb_false_r.
  destruct ev; reflexivity.
Qed.

End Listener.

(** ** When the second invocation is started *)

Lemma applyAll_authChecked_kept acts : forall s,
  occ isSetAuthChecked acts = 0%nat ->
  authChecked (applyAll s acts) = authChecked s.
Proof.
  induction acts as [| a acts IH]; intros s H; [reflexivity |].
  unfold occ in H. simpl in H.
  destruct (isSetAuthChecked a) eqn:Q; [discriminate H |].
  simpl. rewrite IH by exact H. destruct a; try discriminate Q; reflexivity.
Qed.


Lemma occ_segment q k :
  occ q k = 0%nat ->
  occ q (fst (nextSegment k)) = 0%nat /\ occ q (snd (nextSegment k)) = 0%nat.
Proof.
  intros H. rewrite <- (nextSegment_app k), occ_app in H. lia.
Qed.

Section Starts.
Variables DEV DSN : bool.
Variable envs : nat -> RunEnv.





End Starts.



(** ** The splash screen is left *)

Lemma app_tail (A : Type) (seg rest pre : list A) x :
  seg ++ rest = pre ++ [x] -> rest <> [] -> exists pre', rest = pre' ++ [x].
Proof.
  intros E N. destruct (exists_last N) as [pre' [y Ey]]. subst rest.
  rewrite app_assoc in E. apply app_inj_tail in E. destruct E as [_ ->].
  exists pre'. reflexivity.
Qed.

Lemma endsWell_rest seg rest :
  endsWell (seg ++ rest) -> rest <> [] -> endsWell rest.
Proof.
  intros [pre [E | E]] N; destruct (app_tail _ _ _ E N) as [pre' ->];
    exists pre'; [left | right]; reflexivity.
Qed.

Lemma initializeApp_endsWell DEV DSN snap env :
  endsWell (fst (initializeApp DEV DSN snap env)).
Proof.
  destruct (initializeApp_finishes DEV DSN snap env) as [[_ [pre E]] | [_ [pre E]]];
    exists pre; [left | right]; exact E.
Qed.

Lemma firstSegment_not_all DEV rest :
  endsWell (firstSegment DEV ++ rest) -> rest <> [].
Proof.
  intros [pre [E | E]] ->; rewrite app_nil_r in E; destruct DEV;
    [ change (firstSegment true)
        with ([SetLoadingMessage "Loading assets..."] ++ [ImportNetInfo]) in E
    | change (firstSegment false)
        with ([SetLoadingMessage "Loading assets...";
               SetLoadingMessage "Checking for updates..."]
                ++ [CheckForUpdateAsync]) in E
    | change (firstSegment true)
        with ([SetLoadingMessage "Loading assets..."] ++ [ImportNetInfo]) in E
    | change (firstSegment false)
        with ([SetLoadingMessage "Loading assets...";
               SetLoadingMessage "Checking for updates..."]
                ++ [CheckForUpdateAsync]) in E ];
    apply app_inj_tail in E; destruct E as [_ E]; discriminate E.
Qed.

Lemma applyAll_ready_last pre s : isReady (applyAll s (pre ++ [SetIsReady])) = true.
Proof. unfold applyAll. rewrite fold_left_app. reflexivity. Qed.

Section Progress.
Variables DEV DSN : bool.
Variable envs : nat -> RunEnv.

Lemma runEffects_first before sys c :
  nth_error (invocations sys) 0 = Some c ->
  nth_error (invocations (runEffects DEV DSN envs before sys)) 0 = Some c.
Proof.
  intros H. unfold runEffects. destruct (restarted sys); [exact H |].
  set (sys1 := if Bool.eqb (isReady before) (isReady (state sys))
               then sys else resubscribe sys).
  assert (H1 : nth_error (invocations sys1) 0 = Some c)
    by (unfold sys1; destruct (Bool.eqb _ _); exact H).
  destruct (Bool.eqb (authChecked before) (authChecked (state sys)));
    [exact H1 |].
  destruct (start_eq DEV DSN envs sys1) as [rest [_ ->]]. cbn [invocations].
  rewrite nth_error_app1; [exact H1 |].
  destruct (invocations sys1); [discriminate H1 | simpl; lia].
Qed.

Lemma runEffects_done before sys :
  restarted sys = true \/ isReady (state sys) = true ->
  restarted (runEffects DEV DSN envs before sys) = true
  \/ isReady (state (runEffects DEV DSN envs before sys)) = true.
Proof.
  intros [R | R].
  - left. unfold runEffects. rewrite R. exact R.
  - right. apply runEffects_isReady. exact R.
Qed.

Lemma step_progress r sys i :
  progress r sys ->
  progress (r + if isResume 0 i then 1 else 0) (step DEV DSN envs sys i).
Proof.
  intros [R | [R | [c [E [N [W B]]]]]].
  - left. unfold step. rewrite R. exact R.
  - right. left. apply step_isReady. exact R.
  - unfold step. destruct (restarted sys) eqn:R; [left; exact R |].
    destruct i as [[| n] | ev].
    + rewrite E. destruct c as [| a k]; [congruence |].
      pose proof (nextSegment_app (a :: k)) as Eapp.
      pose proof (segments_nextSegment N) as Eseg.
      destruct (nextSegment (a :: k)) as [seg rest]. cbn [fst snd] in Eapp, Eseg.
      destruct rest as [| b rest].
      * rewrite app_nil_r in Eapp. subst seg.
        destruct (runEffects_done (state sys)
                    (perform (a :: k)
                       (mkSys (state sys) (setNth 0 [] (invocations sys))
                              (subscription sys) (history sys) false)))
          as [D | D]; [| left; exact D | right; left; exact D].
        destruct W as [pre [-> | ->]].
        -- right. apply applyAll_ready_last.
        -- left. cbn [perform restarted]. rewrite existsb_app. simpl.
           apply orb_true_r.
      * right. right. exists (b :: rest). split.
        -- apply runEffects_first. cbn [perform invocations].
           destruct (invocations sys); [discriminate E | reflexivity].
        -- split; [discriminate |]. split.
           ++ rewrite <- Eapp in W. apply (@endsWell_rest seg (b :: rest) W).
              discriminate.
           ++ simpl isResume. cbv iota. lia.
    + simpl isResume. cbv iota. rewrite Nat.add_0_r.
      destruct (nth_error (invocations sys) (S n)) as [[| a k] |];
        try (right; right; exists c; repeat split; assumption).
      destruct (nextSegment (a :: k)) as [seg rest].
      right. right. exists c. split; [| repeat split; assumption].
      apply runEffects_first. cbn [perform invocations].
      destruct (invocations sys); [discriminate E | exact E].
    + simpl isResume. cbv iota. rewrite Nat.add_0_r.
      destruct (onAuthEvent (subscription sys) ev) as [acts sub'].
      right. right. exists c. split; [| repeat split; assumption].
      apply runEffects_first. exact E.
Qed.

Lemma mount_progress : progress 0 (mount DEV DSN envs).
Proof.
  unfold mount.
  set (sys0 := mkSys initialState [] (mkSub false false) [] false).
  destruct (start_eq DEV DSN envs sys0) as [rest [E ->]].
  pose proof (initializeApp_endsWell DEV DSN (state sys0)
                (envs (List.length (invocations sys0)))) as W.
  pose proof (initializeApp_awaits DEV DSN (state sys0)
                (envs (List.length (invocations sys0)))) as B.
  rewrite E in W, B.
  pose proof (@firstSegment_not_all DEV rest W) as N.
  right. right. exists rest. split; [reflexivity |]. split; [exact N |].
  split; [exact (@endsWell_rest (firstSegment DEV) rest W N) |].
  assert (Nk : firstSegment DEV ++ rest <> [])
    by (destruct DEV; discriminate).
  pose proof (segments_nextSegment Nk) as S.
  rewrite nextSegment_first in S. cbn [snd] in S.
  pose proof (segments_bound (firstSegment DEV ++ rest)). lia.
Qed.

Lemma steps_progress inputs : forall r sys,
  progress r sys ->
  progress (r + resumes 0 inputs) (fold_left (step DEV DSN envs) inputs sys).
Proof.
  induction inputs as [| i inputs IH]; intros r sys H.
  - unfold resumes. simpl. rewrite Nat.add_0_r. exact H.
  - simpl fold_left.
    replace (r + resumes 0 (i :: inputs))%nat
      with ((r + if isResume 0 i then 1 else 0) + resumes 0 inputs)%nat.
    + apply IH. apply step_progress. exact H.
    + unfold resumes. simpl. destruct (isResume 0 i); simpl; lia.
Qed.

Lemma run_progress inputs :
  progress (resumes 0 inputs) (run DEV DSN envs inputs).
Proof. exact (steps_progress inputs mount_progress). Qed.
End Progress.

(** X15.  Whatever the collaborators answer, whatever the Auth Service
    reports and however the second invocation is interleaved, once the
    awaited calls of the first invocation of [initializeApp] have
    routeSettled 58 times the splash screen is over: [isReady] is true, or
    the app has been restarted by an update. *)
Theorem startup_completes
  (DEV DSN : bool) (envs : nat -> RunEnv) (inputs : list Input)
  (Hfair : (58 <= resumes 0 inputs)%nat) :
  restarted (run DEV DSN envs inputs) = true
  \/ isReady (state (run DEV DSN envs inputs)) = true.
Proof.
  destruct (run_progress DEV DSN envs inputs) as [R | [R | [c [_ [N [_ B]]]]]].
  - left. exact R.
  - right. exact R.
  - exfalso. pose proof (segments_positive N). lia.
Qed.

Lemma startup_completes_witness :
  restarted (run false true offlineEnvs
               (Auth SignedIn :: repeat (Resume 0%nat) 58)) = true
  \/ isReady (state (run false true offlineEnvs
                       (Auth SignedIn :: repeat (Resume 0%nat) 58))) = true.
Proof.
  apply (@startup_completes false true offlineEnvs
           (Auth SignedIn :: repeat (Resume 0%nat) 58)).
  vm_compute. lia.
Defined.

(** ** Only the first invocation waits and writes the default route *)

Lemma onAuthEvent_routes sub ev s :
  (hasSetInitialRoute sub = true \/ capturedIsReady sub = true ->
   isUnset (initialRouteName s) = false) ->
  isUnset (initialRouteName (applyAll s (fst (onAuthEvent sub ev)))) = false.
Proof.
  intros H. unfold onAuthEvent.
  destruct (hasSetInitialRoute sub); [apply applyAll_route_set; auto |].
  destruct (capturedIsReady sub); [apply applyAll_route_set; auto |].
  destruct ev; reflexivity.
Qed.

Lemma quiet_no_route k : quiet k -> occ isRouteWrite k = 0%nat.
Proof.
  unfold quiet. intros Q.
  pose proof (@occ_mono isRouteWrite routesOrPolls k) as M.
  assert (occ isRouteWrite k <= occ routesOrPolls k)%nat.
  { apply M. intros a Ha. unfold routesOrPolls. rewrite Ha. reflexivity. }
  lia.
Qed.

Lemma quiet_no_poll k : quiet k -> occ isPoll k = 0%nat.
Proof.
  unfold quiet. intros Q.
  pose proof (@occ_mono isPoll routesOrPolls k) as M.
  assert (occ isPoll k <= occ routesOrPolls k)%nat.
  { apply M. intros a Ha. unfold routesOrPolls. rewrite Ha. apply orb_true_r. }
  lia.
Qed.

Section RouteSettled.
Variables DEV DSN : bool.
Variable envs : nat -> RunEnv.

Lemma routeSettled_init : routeSettled (mkSys initialState [] (mkSub false false) [] false).
Proof.
  split; [split; [discriminate | constructor] |].
  split; [intros [H | [H | H]]; discriminate H |].
  split; constructor.
Qed.

Lemma routeSettled_start sys rest :
  routeSettled sys -> restarted sys = false ->
  invocations sys = [] \/ authChecked (state sys) = true ->
  fst (initializeApp DEV DSN (state sys) (envs (List.length (invocations sys))))
  = firstSegment DEV ++ rest ->
  routeSettled (mkSys (applyAll (state sys) (firstSegment DEV))
                 (invocations sys ++ [rest]) (subscription sys)
                 (history sys ++ firstSegment DEV) false).
Proof.
  intros [H1 [H2 [H3 H4]]] _ A E.
  split; [eapply routedWhenReady_start; eassumption |].
  unfold routeSettled. cbn [state invocations subscription].
  rewrite firstSegment_state. cbn [initialRouteName authChecked].
  split; [exact H2 |].
  assert (Z : occ isSetAuthChecked (firstSegment DEV ++ rest) = 0%nat).
  { rewrite <- E. apply initializeApp_never.
    intros [] Q; try discriminate Q; reflexivity. }
  split.
  - apply Forall_app. split; [exact H3 |]. constructor; [| constructor].
    rewrite occ_app in Z. lia.
  - destruct (invocations sys) as [| k0 invs] eqn:Ei; [constructor |].
    destruct A as [A | A]; [discriminate A |].
    cbn [app tl]. apply Forall_app. split; [exact H4 |].
    constructor; [| constructor].
    pose proof (fresh_snapshot_quiet DEV DSN (state sys)
                  (envs (List.length (k0 :: invs))) A (H2 (or_intror (or_intror A))))
      as Q.
    rewrite E, occ_app in Q. unfold quiet. lia.
Qed.

Lemma routeSettled_resume sys n c :
  routeSettled sys -> restarted sys = false ->
  nth_error (invocations sys) n = Some c -> c <> [] ->
  routeSettled (perform (fst (nextSegment c))
             (mkSys (state sys) (setNth n (snd (nextSegment c)) (invocations sys))
                    (subscription sys) (history sys) false)).
Proof.
  intros [H1 [H2 [H3 H4]]] _ E _.
  split; [eapply routedWhenReady_resume; eassumption |].
  assert (Fc : occ isSetAuthChecked c = 0%nat).
  { rewrite Forall_forall in H3. apply H3. exact (nth_error_In _ _ E). }
  destruct (occ_segment _ _ Fc) as [Fs Fr].
  unfold routeSettled, perform. cbn [state invocations subscription].
  split; [| split].
  - rewrite applyAll_authChecked_kept by exact Fs.
    intros P. apply applyAll_route_set. exact (H2 P).
  - apply Forall_setNth; assumption.
  - destruct (invocations sys) as [| k0 invs]; [destruct n; discriminate E |].
    destruct n as [| n]; [exact H4 |].
    cbn [setNth tl] in *. apply Forall_setNth; [exact H4 |].
    assert (Qc : quiet c).
    { rewrite Forall_forall in H4. apply H4.
      apply (nth_error_In invs n). exact E. }
    unfold quiet in *. apply occ_segment. exact Qc.
Qed.

Lemma routeSettled_auth sys ev :
  routeSettled sys -> restarted sys = false ->
  routeSettled (perform (fst (onAuthEvent (subscription sys) ev))
             (mkSys (state sys) (invocations sys)
                    (snd (onAuthEvent (subscription sys) ev)) (history sys) false)).
Proof.
  intros [H1 [H2 [H3 H4]]] _.
  split; [eapply routedWhenReady_auth; eassumption |].
  unfold routeSettled, perform. cbn [state invocations subscription].
  split; [| split; assumption].
  intros _. apply onAuthEvent_routes.
  intros [P | P]; apply H2; [left | right; left]; exact P.
Qed.

Lemma routeSettled_resubscribe sys :
  routeSettled sys -> restarted sys = false -> isReady (state sys) = true ->
  routeSettled (resubscribe sys).
Proof.
  intros [H1 [H2 [H3 H4]]] _ R.
  split; [exact H1 |]. unfold routeSettled, resubscribe.
  cbn [state invocations subscription].
  split; [| split; assumption].
  intros _. destruct H1 as [H _]. exact (H R).
Qed.

Lemma routeSettled_preserved : Preserved DEV DSN envs allInputs routeSettled.
Proof.
  split; [| split; [| split; [| split]]].
  - exact routeSettled_init.
  - exact routeSettled_start.
  - exact routeSettled_resume.
  - intros s ev Hs R _. exact (routeSettled_auth ev Hs R).
  - exact routeSettled_resubscribe.
Qed.

Lemma run_settled inputs : routeSettled (run DEV DSN envs inputs).
Proof.
  apply (@run_preserved DEV DSN envs allInputs);
    [exact routeSettled_preserved | apply all_allowed].
Qed.
End RouteSettled.

(** X16.  At every point of every launch, what an invocation of
    [initializeApp] other than the first still has to do contains no
    write of the route and no polling pause: such an invocation is
    started from a render in which [authChecked] is true and a route
    is set, so its loop exits at once and both of its guards on the
    route are closed. *)
Theorem later_invocations_leave_the_route_alone
  (DEV DSN : bool) (envs : nat -> RunEnv) (inputs : list Input) :
  Forall (fun k => occ isRouteWrite k = 0%nat /\ occ isPoll k = 0%nat)
         (tl (invocations (run DEV DSN envs inputs))).
Proof.
  destruct (run_settled DEV DSN envs inputs) as [_ [_ [_ Q]]].
  eapply Forall_impl; [| exact Q].
  intros k Qk. split; [apply quiet_no_route | apply quiet_no_poll]; exact Qk.
Qed.

(** ** MainApp is written once *)

Lemma onAuthEvent_budget sub ev :
  (occ writesMainApp (fst (onAuthEvent sub ev))
   + (if listenerOpen (snd (onAuthEvent sub ev)) then 1 else 0)
   <= if listenerOpen sub then 1 else 0)%nat.
Proof.
  unfold onAuthEvent, listenerOpen.
  destruct (hasSetInitialRoute sub), (capturedIsReady sub), ev; cbn; lia.
Qed.

Lemma mainAppBudget_preserved DEV DSN envs :
  Preserved DEV DSN envs allInputs mainAppBudget.
Proof.
  split; [| split; [| split; [| split]]].
  - split; [cbn; lia | constructor].
  - intros sys rest [B F] _ _ E. unfold mainAppBudget.
    cbn [history subscription invocations].
    assert (Z : occ writesMainApp (firstSegment DEV ++ rest) = 0%nat).
    { rewrite <- E. apply initializeApp_never.
      intros [] Q; try discriminate Q.
      destruct r; [discriminate Q | reflexivity]. }
    rewrite occ_app in Z. split.
    + rewrite occ_app. lia.
    + apply Forall_app. split; [exact F |]. constructor; [lia | constructor].
  - intros sys n c [B F] _ E _. unfold mainAppBudget, perform.
    cbn [history subscription invocations].
    assert (Fc : occ writesMainApp c = 0%nat).
    { rewrite Forall_forall in F. apply F. exact (nth_error_In _ _ E). }
    destruct (occ_segment _ _ Fc) as [Fs Fr]. split.
    + rewrite occ_app. lia.
    + apply Forall_setNth; assumption.
  - intros sys ev [B F] _ _. unfold mainAppBudget, perform.
    cbn [history subscription invocations]. split; [| exact F].
    pose proof (onAuthEvent_budget (subscription sys) ev).
    rewrite occ_app. lia.
  - intros sys [B F] _ R. unfold mainAppBudget, resubscribe.
    cbn [history subscription invocations]. split; [| exact F].
    unfold listenerOpen. cbn [hasSetInitialRoute capturedIsReady].
    rewrite R, occ_app. cbn.
    destruct (listenerOpen (subscription sys)); lia.
Qed.

Lemma run_mainAppBudget DEV DSN envs inputs :
  mainAppBudget (run DEV DSN envs inputs).
Proof.
  apply (@run_preserved DEV DSN envs allInputs);
    [apply mainAppBudget_preserved | apply all_allowed].
Qed.

(** X18.  In every launch [setInitialRouteName('MainApp')] is called
    at most once: only the auth listener calls it, the registration
    made at mount does so for its first report only, and the
    registration made once [isReady] is true never does. *)
Theorem main_app_written_at_most_once
  (DEV DSN : bool) (envs : nat -> RunEnv) (inputs : list Input) :
  (occ writesMainApp (history (run DEV DSN envs inputs)) <= 1)%nat.
Proof.
  destruct (run_mainAppBudget DEV DSN envs inputs) as [B _].
  destruct (listenerOpen _) in B; lia.
Qed.

End LaunchFacts.

(* ================================================================= *)
(** * Launches in which the effects run later *)

Module DeferredFacts.
Import JS Startup Runtime Shell Deferred.
Import StartupFacts RuntimeFacts InvocationFacts LaunchFacts.

Section Deferral.
Variables DEV DSN : bool.
Variable envs : nat -> RunEnv.

(** ** The code without the effects *)

Lemma act_restarted sys i : restarted sys = true -> act sys i = sys.
Proof. intros R. unfold act. rewrite R. reflexivity. Qed.

Lemma act_stays_restarted sys i :
  restarted (act sys i) = false -> restarted sys = false.
Proof.
  intros H. destruct (restarted sys) eqn:R; [| reflexivity].
  rewrite (act_restarted sys i R) in H. congruence.
Qed.

Lemma act_isReady_mono sys i :
  isReady (state sys) = true -> isReady (state (act sys i)) = true.
Proof.
  intros H. unfold act. destruct (restarted sys); [exact H |].
  destruct i as [n | ev].
  - destruct (nth_error (invocations sys) n) as [[| a k] |]; try exact H.
    destruct (nextSegment (a :: k)) as [seg rest].
    apply applyAll_isReady_mono. exact H.
  - destruct (onAuthEvent (subscription sys) ev) as [acts sub'].
    apply applyAll_isReady_mono. exact H.
Qed.

Lemma act_authChecked_mono sys i :
  authChecked (state sys) = true -> authChecked (state (act sys i)) = true.
Proof.
  intros H. unfold act. destruct (restarted sys); [exact H |].
  destruct i as [n | ev].
  - destruct (nth_error (invocations sys) n) as [[| a k] |]; try exact H.
    destruct (nextSegment (a :: k)) as [seg rest].
    apply applyAll_authChecked_mono. exact H.
  - destruct (onAuthEvent (subscription sys) ev) as [acts sub'].
    apply applyAll_authChecked_mono. exact H.
Qed.

Lemma act_keeps sys i :
  List.length (invocations (act sys i)) = List.length (invocations sys)
  /\ capturedIsReady (subscription (act sys i))
     = capturedIsReady (subscription sys).
Proof.
  unfold act. destruct (restarted sys); [split; reflexivity |].
  destruct i as [n | ev].
  - destruct (nth_error (invocations sys) n) as [[| a k] |];
      try (split; reflexivity).
    destruct (nextSegment (a :: k)) as [seg rest]. cbn.
    split; [apply setNth_length | reflexivity].
  - unfold onAuthEvent. destruct ev; split; reflexivity.
Qed.

(** [Runtime.step] is the code followed at once by the effects. *)
Lemma step_act sys i :
  step DEV DSN envs sys i = runEffects DEV DSN envs (state sys) (act sys i).
Proof.
  assert (N : runEffects DEV DSN envs (state sys) sys = sys).
  { unfold runEffects. destruct (restarted sys); [reflexivity |].
    rewrite !Bool.eqb_reflx. reflexivity. }
  unfold step, act. destruct (restarted sys) eqn:R.
  - unfold runEffects. rewrite R. reflexivity.
  - destruct i as [n | ev].
    + destruct (nth_error (invocations sys) n) as [[| a k] |];
        try (symmetry; exact N).
      destruct (nextSegment (a :: k)) as [seg rest]. reflexivity.
    + destruct (onAuthEvent (subscription sys) ev) as [acts sub']. reflexivity.
Qed.

(** ** The effects *)

Lemma runEffects_keeps before sys :
  isReady (state (runEffects DEV DSN envs before sys)) = isReady (state sys)
  /\ authChecked (state (runEffects DEV DSN envs before sys))
     = authChecked (state sys).
Proof.
  unfold runEffects. destruct (restarted sys); [split; reflexivity |].
  set (sys1 := if Bool.eqb (isReady before) (isReady (state sys))
               then sys else resubscribe sys).
  assert (H1 : state sys1 = state sys)
    by (unfold sys1; destruct (Bool.eqb _ _); reflexivity).
  destruct (Bool.eqb (authChecked before) (authChecked (state sys)));
    [rewrite H1; split; reflexivity |].
  destruct (start_keeps DEV DSN envs sys1) as [K1 [_ [K2 _]]].
  rewrite K1, K2, H1. split; reflexivity.
Qed.

Lemma runEffects_ext before before' sys :
  isReady before = isReady before' ->
  authChecked before = authChecked before' ->
  runEffects DEV DSN envs before sys = runEffects DEV DSN envs before' sys.
Proof. intros H1 H2. unfold runEffects. rewrite H1, H2. reflexivity. Qed.

Lemma runEffects_stays_restarted before sys :
  restarted (runEffects DEV DSN envs before sys) = false ->
  restarted sys = false.
Proof.
  intros H. destruct (restarted sys) eqn:R; [| reflexivity].
  unfold runEffects in H. rewrite R in H. congruence.
Qed.

Lemma runEffects_length before sys :
  restarted sys = false ->
  List.length (invocations (runEffects DEV DSN envs before sys))
  = (List.length (invocations sys)
     + if Bool.eqb (authChecked before) (authChecked (state sys))
       then 0 else 1)%nat.
Proof.
  intros R. unfold runEffects. rewrite R.
  set (sys1 := if Bool.eqb (isReady before) (isReady (state sys))
               then sys else resubscribe sys).
  assert (H1 : invocations sys1 = invocations sys)
    by (unfold sys1; destruct (Bool.eqb _ _); reflexivity).
  destruct (Bool.eqb (authChecked before) (authChecked (state sys)));
    [rewrite H1; lia |].
  destruct (start_eq DEV DSN envs sys1) as [rest [_ ->]]. cbn [invocations].
  rewrite length_app, H1. simpl. lia.
Qed.

(** ** Launches are runs of [Runtime.step] with the flush put off *)

Lemma advance_inStep p e :
  inStep p -> inStep (advance DEV DSN envs p e).
Proof.
  intros [Mr [Ma [L B]]]. destruct e as [i |]; unfold advance, flush, inStep;
    cbn [current flushed].
  - destruct (act_keeps (current p) i) as [K1 K2].
    split; [intros H; apply act_isReady_mono; auto |].
    split; [intros H; apply act_authChecked_mono; auto |].
    split; [| rewrite K1; exact B].
    intros R. rewrite K1, K2. apply L. exact (act_stays_restarted _ _ R).
  - destruct (runEffects_keeps (flushed p) (current p)) as [K1 K2].
    split; [intros H; rewrite K1; exact H |].
    split; [intros H; rewrite K2; exact H |].
    assert (E : restarted (current p) = false ->
                List.length (invocations
                               (runEffects DEV DSN envs (flushed p) (current p)))
                = if authChecked (state (current p)) then 2%nat else 1%nat).
    { intros R0. destruct (L R0) as [_ Ll].
      rewrite (@runEffects_length (flushed p) (current p) R0), Ll.
      destruct (authChecked (flushed p)) eqn:A.
      - rewrite (Ma eq_refl). reflexivity.
      - destruct (authChecked (state (current p))); reflexivity. }
    split.
    + intros R. pose proof (runEffects_stays_restarted _ _ R) as R0.
      destruct (L R0) as [Lc _]. split; [| exact (E R0)].
      rewrite <- K1.
      apply (@runEffects_in_sync DEV DSN envs (flushed p) (current p));
        [intros _; exact Lc | exact R].
    + destruct (restarted (current p)) eqn:R0.
      * unfold runEffects. rewrite R0. exact B.
      * rewrite (E eq_refl). destruct (authChecked (state (current p))); lia.
Qed.

Lemma mounted_inStep : inStep (mounted DEV DSN envs).
Proof.
  unfold mounted, inStep, mount. cbn [current flushed].
  set (sys0 := mkSys initialState [] (mkSub false false) [] false).
  destruct (start_keeps DEV DSN envs sys0) as [_ [_ [_ [K _]]]].
  destruct (start_eq DEV DSN envs sys0) as [rest [_ E]].
  assert (Len : List.length (invocations (start DEV DSN envs sys0)) = 1%nat)
    by (rewrite E; reflexivity).
  split; [discriminate |]. split; [discriminate |].
  split; [| rewrite Len; lia].
  intros _. rewrite K. split; [reflexivity | exact Len].
Qed.

Lemma play_snoc events e :
  play DEV DSN envs (events ++ [e])
  = advance DEV DSN envs (play DEV DSN envs events) e.
Proof. unfold play. rewrite fold_left_app. reflexivity. Qed.

Lemma play_inStep events : inStep (play DEV DSN envs events).
Proof.
  induction events as [| e events IH] using rev_ind.
  - exact mounted_inStep.
  - rewrite play_snoc. apply advance_inStep. exact IH.
Qed.

(** With every input followed at once by the flush, the launch is the
    run of [Runtime.step]. *)
Lemma play_eager inputs :
  current (play DEV DSN envs (eager inputs)) = run DEV DSN envs inputs.
Proof.
  unfold play, run, mounted.
  assert (G : forall ins p,
             isReady (flushed p) = isReady (state (current p)) ->
             authChecked (flushed p) = authChecked (state (current p)) ->
             current (fold_left (advance DEV DSN envs) (eager ins) p)
             = fold_left (step DEV DSN envs) ins (current p)).
  { induction ins as [| i ins IH]; intros p E1 E2; [reflexivity |].
    cbn [eager flat_map app fold_left].
    change (flat_map (fun i0 : Input => [Run i0; Flush]) ins) with (eager ins).
    rewrite IH.
    - cbn [advance flush current flushed]. f_equal.
      rewrite step_act. apply runEffects_ext; assumption.
    - cbn [advance flush current flushed].
      symmetry. apply runEffects_keeps.
    - cbn [advance flush current flushed].
      symmetry. apply runEffects_keeps. }
  rewrite G; [reflexivity | |];
    destruct (start_keeps DEV DSN envs
                (mkSys initialState [] (mkSub false false) [] false))
      as [K1 [_ [K2 _]]]; cbn [current flushed]; unfold mount;
    [rewrite K1 | rewrite K2]; reflexivity.
Qed.

(** ** What every piece of code keeps, every launch keeps *)

Lemma act_preserved allowed Inv sys i :
  Preserved DEV DSN envs allowed Inv ->
  Inv sys -> allowed i = true -> Inv (act sys i).
Proof.
  intros [_ [_ [H2 [H3 _]]]] H A. unfold act.
  destruct (restarted sys) eqn:R; [exact H |].
  destruct i as [n | ev].
  - destruct (nth_error (invocations sys) n) as [[| a k] |] eqn:E; try exact H.
    destruct (nextSegment (a :: k)) as [seg rest] eqn:N.
    replace seg with (fst (nextSegment (a :: k))) by (rewrite N; reflexivity).
    replace rest with (snd (nextSegment (a :: k))) by (rewrite N; reflexivity).
    apply H2; try assumption. discriminate.
  - destruct (onAuthEvent (subscription sys) ev) as [acts sub'] eqn:O.
    replace acts with (fst (onAuthEvent (subscription sys) ev))
      by (rewrite O; reflexivity).
    replace sub' with (snd (onAuthEvent (subscription sys) ev))
      by (rewrite O; reflexivity).
    apply H3; assumption.
Qed.

Lemma play_preserved allowed Inv events :
  Preserved DEV DSN envs allowed Inv ->
  forallb (fun e => match e with Run i => allowed i | Flush => true end) events
  = true ->
  Inv (current (play DEV DSN envs events)).
Proof.
  intros P. induction events as [| e events IH] using rev_ind; intros A.
  - apply (@run_preserved DEV DSN envs allowed Inv [] P). reflexivity.
  - rewrite forallb_app in A. apply andb_prop in A. destruct A as [A Ae].
    simpl in Ae. rewrite andb_true_r in Ae.
    rewrite play_snoc. specialize (IH A).
    destruct (play_inStep events) as [Mr [Ma _]].
    destruct e as [i |]; cbn [advance flush current].
    + apply (@act_preserved allowed Inv _ i P IH Ae).
    + apply (@runEffects_preserved DEV DSN envs allowed Inv _ _ P IH Mr Ma).
Qed.

Lemma all_events_allowed events :
  forallb (fun e => match e with Run i => allInputs i | Flush => true end) events
  = true.
Proof. induction events as [| [] events IH]; simpl; auto. Qed.

Lemma play_routeSettled events :
  routeSettled (current (play DEV DSN envs events)).
Proof.
  apply (@play_preserved allInputs);
    [apply routeSettled_preserved | apply all_events_allowed].
Qed.

(** ** The route once the listener has been registered again *)

Lemma act_auth_closed sys ev :
  (restarted sys = false -> capturedIsReady (subscription sys) = true) ->
  initialRouteName (state (act sys (Auth ev))) = initialRouteName (state sys).
Proof.
  intros C. unfold act. destruct (restarted sys) eqn:R; [reflexivity |].
  pose proof (onAuthEvent_ready_quiet (subscription sys) ev (C eq_refl)) as Q.
  destruct (onAuthEvent (subscription sys) ev) as [acts sub'].
  cbn [perform state fst] in *. apply applyAll_route_kept. exact Q.
Qed.

(** A report handled by the listener of the mount, which has written
    no route yet, is routed, whether [isReady] is true by now or not. *)
Lemma act_auth_open sys ev :
  restarted sys = false ->
  capturedIsReady (subscription sys) = false ->
  hasSetInitialRoute (subscription sys) = false ->
  initialRouteName (state (act sys (Auth ev))) = Some (routeFor ev).
Proof.
  intros R C H. unfold act, onAuthEvent. rewrite R, C, H.
  destruct ev; reflexivity.
Qed.

Lemma advance_closed p e :
  inStep p -> isReady (flushed p) = true -> noResume e = true ->
  isReady (flushed (advance DEV DSN envs p e)) = true
  /\ initialRouteName (state (current (advance DEV DSN envs p e)))
     = initialRouteName (state (current p)).
Proof.
  intros [Mr [_ [L _]]] F N. destruct e as [[n | ev] |]; try discriminate N;
    cbn [advance flush current flushed].
  - split; [exact F |]. apply act_auth_closed.
    intros R. rewrite <- F. apply L. exact R.
  - split; [exact (Mr F) | apply runEffects_route].
Qed.

Lemma advance_firstEnded p e :
  inStep p -> routeSettled (current p) -> firstEnded p ->
  firstEnded (advance DEV DSN envs p e)
  /\ initialRouteName (state (current (advance DEV DSN envs p e)))
     = initialRouteName (state (current p)).
Proof.
  intros I HS [E F]. pose proof I as [Mr [_ [L _]]].
  destruct e as [[[| n] | ev] |].
  - assert (A : act (current p) (Resume 0) = current p).
    { unfold act. destruct (restarted (current p)); [reflexivity |].
      rewrite E. reflexivity. }
    cbn [advance current flushed]. rewrite A.
    split; [split; assumption | reflexivity].
  - cbn [advance current flushed]. unfold firstEnded. cbn [current flushed].
    unfold act. destruct (restarted (current p)) eqn:R;
      [split; [split; assumption | reflexivity] |].
    destruct (nth_error (invocations (current p)) (S n)) as [[| a k] |] eqn:En;
      try (split; [split; assumption | reflexivity]).
    assert (Q : quiet (a :: k)).
    { destruct HS as [_ [_ [_ H4]]]. rewrite Forall_forall in H4. apply H4.
      destruct (invocations (current p)) as [| k0 invs]; [discriminate E |].
      apply (nth_error_In invs n). exact En. }
    apply quiet_no_route in Q. destruct (occ_segment _ _ Q) as [Qs _].
    destruct (nextSegment (a :: k)) as [seg rest]. cbn [fst] in Qs.
    cbn [perform invocations state]. split; [split; [| exact F] |].
    + destruct (invocations (current p)); [discriminate E | exact E].
    + apply applyAll_route_kept. exact Qs.
  - destruct (@advance_closed p (Run (Auth ev)) I F eq_refl) as [F' Rt].
    split; [split; [| exact F'] | exact Rt].
    cbn [advance current]. unfold act.
    destruct (restarted (current p)); [exact E |].
    destruct (onAuthEvent (subscription (current p)) ev) as [acts sub'].
    exact E.
  - destruct (@advance_closed p Flush I F eq_refl) as [F' Rt].
    split; [split; [| exact F'] | exact Rt].
    cbn [advance flush current]. apply runEffects_first. exact E.
Qed.

End Deferral.

(** X13.  Once the listener has been registered again by the render
    in which [isReady] is true, no report of the Auth Service changes
    the route, whether it reports a user, a logout or an error, any
    number of times and however the effects are flushed in between.
    Until then the listener of the mount is still in place with
    [isReady] false in its closure: if it has written no route yet,
    the next report is routed, to MainApp for a user and to Login
    otherwise, also when it arrives after [setIsReady(true)] and before
    React runs the effects. *)
Theorem listener_reroutes_only_before_reregistration
  (DEV DSN : bool) (envs : nat -> RunEnv) (events more : list Event)
  (Hflushed : isReady (flushed (play DEV DSN envs events)) = true)
  (Hmore : forallb noResume more = true) :
  initialRouteName (state (current (play DEV DSN envs (events ++ more))))
  = initialRouteName (state (current (play DEV DSN envs events)))
  /\ (forall before ev,
        isReady (flushed (play DEV DSN envs before)) = false ->
        hasSetInitialRoute (subscription (current (play DEV DSN envs before)))
        = false ->
        restarted (current (play DEV DSN envs before)) = false ->
        initialRouteName
          (state (current (play DEV DSN envs (before ++ [Run (Auth ev)]))))
        = Some (routeFor ev)).
Proof.
  split.
  - revert Hmore. induction more as [| e more IH] using rev_ind; intros Hmore.
    + rewrite app_nil_r. reflexivity.
    + rewrite forallb_app in Hmore. apply andb_prop in Hmore.
      destruct Hmore as [Hm He]. simpl in He. rewrite andb_true_r in He.
      specialize (IH Hm). rewrite app_assoc, play_snoc.
      assert (F : isReady (flushed (play DEV DSN envs (events ++ more))) = true).
      { clear IH He. induction more as [| e' more IH'] using rev_ind.
        - rewrite app_nil_r. exact Hflushed.
        - rewrite forallb_app in Hm. apply andb_prop in Hm.
          destruct Hm as [Hm He']. simpl in He'. rewrite andb_true_r in He'.
          rewrite app_assoc, play_snoc.
          apply (@advance_closed DEV DSN envs _ _
                   (play_inStep DEV DSN envs _) (IH' Hm) He'). }
      destruct (@advance_closed DEV DSN envs _ _
                  (play_inStep DEV DSN envs _) F He) as [_ Rt].
      rewrite Rt. exact IH.
  - intros before ev F H R. rewrite play_snoc. cbn [advance current].
    destruct (play_inStep DEV DSN envs before) as [_ [_ [L _]]].
    destruct (L R) as [C _]. rewrite F in C.
    apply act_auth_open; assumption.
Qed.

Lemma listener_reroutes_only_before_reregistration_witness :
  initialRouteName
    (state (current (play true false calmEnvs
                       (readyAndFlushed
                          ++ [Run (Auth SignedIn); Flush; Run (Auth SignedOut)]))))
  = Some Login
  /\ initialRouteName (state (current (play true false calmEnvs readyNotFlushed)))
     = Some Login
  /\ initialRouteName
       (state (current (play true false calmEnvs
                          (readyNotFlushed ++ [Run (Auth SignedIn)]))))
     = Some MainApp.
Proof.
  destruct (@listener_reroutes_only_before_reregistration true false calmEnvs
              readyAndFlushed [Run (Auth SignedIn); Flush; Run (Auth SignedOut)]
              eq_refl eq_refl) as [A B].
  split; [rewrite A; reflexivity |].
  split; [reflexivity |].
  apply (B readyNotFlushed SignedIn); reflexivity.
Defined.

(** X17.  Once the first invocation of [initializeApp] has run to its
    end and React has run the effects of the render in which [isReady]
    is true, the route is final: nothing that happens later in the
    launch (the second invocation, reports of the Auth Service, later
    flushes) changes [initialRouteName]. *)
Theorem route_final_once_first_invocation_ends_and_effects_ran
  (DEV DSN : bool) (envs : nat -> RunEnv) (events : list Event)
  (Hdone : nth_error (invocations (current (play DEV DSN envs events))) 0
           = Some [])
  (Hflushed : isReady (flushed (play DEV DSN envs events)) = true) :
  forall more,
    initialRouteName (state (current (play DEV DSN envs (events ++ more))))
    = initialRouteName (state (current (play DEV DSN envs events))).
Proof.
  assert (G : forall more,
             firstEnded (play DEV DSN envs (events ++ more))
             /\ initialRouteName
                  (state (current (play DEV DSN envs (events ++ more))))
                = initialRouteName (state (current (play DEV DSN envs events)))).
  { induction more as [| e more [IH1 IH2]] using rev_ind.
    - rewrite app_nil_r. split; [split; assumption | reflexivity].
    - rewrite app_assoc, play_snoc.
      destruct (@advance_firstEnded DEV DSN envs _ e
                  (play_inStep DEV DSN envs _)
                  (play_routeSettled DEV DSN envs _) IH1) as [F' Rt].
      split; [exact F' | rewrite Rt; exact IH2]. }
  intros more. apply G.
Qed.

Lemma route_final_once_first_invocation_ends_and_effects_ran_witness :
  initialRouteName
    (state (current (play true false calmEnvs
                       (readyAndFlushed
                          ++ Run (Auth SignedIn) :: Flush
                               :: repeat (Run (Resume 1%nat)) 6))))
  = initialRouteName (state (current (play true false calmEnvs readyAndFlushed))).
Proof.
  apply (@route_final_once_first_invocation_ends_and_effects_ran
           true false calmEnvs readyAndFlushed);
    reflexivity.
Defined.

(** ** What does not depend on when the effects run *)

Lemma no_user_events events :
  forallb noUser events = true ->
  forallb (fun e => match e with Run i => noUserReported i | Flush => true end)
          events = true.
Proof.
  induction events as [| e events IH]; [reflexivity |].
  simpl. intros H. apply andb_prop in H. destruct H as [He H].
  rewrite (IH H), andb_true_r. destruct e; exact He.
Qed.

(** X20.  However late React runs the effects, every launch keeps
    what the launches of [Runtime.run] keep: [initializeApp] is started
    at most twice; the route is set whenever [isReady] is true; MainApp
    is written at most once; a development build never calls the Update
    Service; without a report of a signed-in user every route written
    is Login; an invocation other than the first never writes the route
    and never polls.  The launches of [Runtime.run] are the ones in
    which every input is followed at once by the flush. *)
Theorem deferred_effects_keep_the_invariants
  (DEV DSN : bool) (envs : nat -> RunEnv) (events : list Event)
  (inputs : list Input) :
  (List.length (invocations (current (play DEV DSN envs events))) <= 2)%nat
  /\ (isReady (state (current (play DEV DSN envs events))) = true ->
      isUnset (initialRouteName (state (current (play DEV DSN envs events))))
      = false)
  /\ (occ writesMainApp (history (current (play DEV DSN envs events))) <= 1)%nat
  /\ occ isUpdateCall (history (current (play true DSN envs events))) = 0%nat
  /\ (forallb noUser events = true ->
      Forall (eq Login)
             (routeWrites (history (current (play DEV DSN envs events)))))
  /\ Forall (fun k => occ isRouteWrite k = 0%nat /\ occ isPoll k = 0%nat)
            (tl (invocations (current (play DEV DSN envs events))))
  /\ current (play DEV DSN envs (eager inputs)) = run DEV DSN envs inputs.
Proof.
  split; [| split; [| split; [| split; [| split; [| split]]]]].
  - apply (play_inStep DEV DSN envs events).
  - destruct (@play_preserved DEV DSN envs allInputs routedWhenReady events
                (routedWhenReady_preserved DEV DSN envs)
                (all_events_allowed events)) as [H _].
    exact H.
  - destruct (@play_preserved DEV DSN envs allInputs mainAppBudget events
                (mainAppBudget_preserved DEV DSN envs)
                (all_events_allowed events)) as [B _].
    destruct (listenerOpen _) in B; lia.
  - assert (W : within (fun a => negb (isUpdateCall a))
                       (current (play true DSN envs events))).
    { apply (@play_preserved true DSN envs allInputs);
        [| apply all_events_allowed].
      apply within_preserved.
      - reflexivity.
      - intros [] M; try reflexivity; discriminate M.
      - intros sub ev _. apply onAuthEvent_actions; reflexivity. }
    destruct W as [Wh _]. apply Forall_occ. exact Wh.
  - intros Hn.
    assert (W : within (fun a => negb (writesMainApp a))
                       (current (play DEV DSN envs events))).
    { apply (@play_preserved DEV DSN envs noUserReported);
        [| apply no_user_events; exact Hn].
      apply within_preserved.
      - reflexivity.
      - intros [] M; try reflexivity. destruct r; [reflexivity | discriminate M].
      - intros sub ev A. apply onAuthEvent_actions; try reflexivity.
        intros ->. discriminate A. }
    destruct W as [Wh _]. apply routeWrites_login. exact Wh.
  - destruct (play_routeSettled DEV DSN envs events) as [_ [_ [_ Q]]].
    eapply Forall_impl; [| exact Q].
    intros k Qk. split; [apply quiet_no_route | apply quiet_no_poll]; exact Qk.
  - apply play_eager.
Qed.

End DeferredFacts.

(* ================================================================= *)
(** * Properties of the background update *)

Module BackgroundUpdateFacts.
Import JS BackgroundUpdate.

Lemma count_app q t t' : count q (t ++ t') = (count q t + count q t')%nat.
Proof. unfold count. rewrite filter_app, length_app. reflexivity. Qed.

Lemma onUpdateEvent_counts e :
  count isBgReload (onUpdateEvent (snd e) (fst e)) = 0%nat
  /\ count isBgCheck (onUpdateEvent (snd e) (fst e))
     = (if announces e then 1 else 0)%nat
  /\ count isBgFetch (onUpdateEvent (snd e) (fst e))
     = (if available e then 1 else 0)%nat
  /\ count isBgAlert (onUpdateEvent (snd e) (fst e))
     = (if downloaded e then 1 else 0)%nat.
Proof.
  destruct e as [type env]. unfold downloaded, available, announces.
  unfold onUpdateEvent, checkForUpdatesOnResume. simpl fst. simpl snd.
  destruct type; [| repeat split | repeat split].
  destruct (bgCheck env) as [[] |]; [| repeat split | repeat split].
  destruct (bgFetch env) as [[] |]; repeat split.
Qed.

(** X19.  The update listener is registered only outside development
    builds.  There it ignores every event but [UPDATE_AVAILABLE]; each
    such event costs exactly one check, a fetch exactly when the check
    finds an update, and an alert exactly when that fetch succeeds; a
    failed check or fetch is only printed.  The listener itself never
    reloads the app: [reloadAsync] is called only by the Restart Now
    button of the alert, and the Later button does nothing. *)
Theorem background_update_never_reloads_unasked
  (events : list (UpdateEventType * UpdateEnv)) :
  handleEvents true events = []
  /\ count isBgReload (handleEvents false events) = 0%nat
  /\ count isBgCheck (handleEvents false events)
     = List.length (filter announces events)
  /\ count isBgFetch (handleEvents false events)
     = List.length (filter available events)
  /\ count isBgAlert (handleEvents false events)
     = List.length (filter downloaded events)
  /\ onPress Later = []
  /\ onPress RestartNow = [BgReloadAsync].
Proof.
  split; [reflexivity |].
  unfold handleEvents. simpl addListener. cbv iota.
  induction events as [| e events [IH1 [IH2 [IH3 [IH4 _]]]]].
  - repeat split.
  - destruct (onUpdateEvent_counts e) as [K1 [K2 [K3 K4]]].
    cbn [flat_map filter]. repeat rewrite count_app.
    rewrite K1, K2, K3, K4, IH1, IH2, IH3, IH4.
    destruct (announces e), (available e), (downloaded e); repeat split.
Qed.

End BackgroundUpdateFacts.
